(** * Background repainting (step 3 of the Gen4Gen pipeline)

    A shallow embedding of [src/gen4gen/s3_background_repainting.py]: the
    background catalog, the mask compositor, the caption table and the
    output writer of [main], together with the properties the
    specification states about them.

    Conventions.
    - A Python [str] is a [string] of bytes (its UTF-8 encoding); comparing
      bytes lexicographically orders strings as Python orders code points.
    - A [uint8] array value is a [Z] in [0, 256); a [float64] is a
      primitive [float], so that division, product and maximum are the
      IEEE-754 operations numpy performs.
    - What [main] takes from libraries (the file system, numpy's global
      generator, PIL's filters, the diffusion pipelines) is an interface,
      [Library], of which [main] is a client. *)

From Stdlib Require Import ZArith Uint63 PrimFloat FloatOps SpecFloat.
From Stdlib Require Import Ascii String Decimal DecimalString.
From Stdlib Require DecimalNat DecimalFacts.
From stdpp Require Import gmap strings list sorting.

Local Open Scope string_scope.
Local Open Scope Z_scope.

(** ** Python built-ins on [str] *)
Module Py.

(** [s.startswith(p)] *)
Definition startswith (s p : string) : bool := String.prefix p s.

(** [s.endswith(p)] *)
Definition endswith (s p : string) : bool :=
  let n := String.length s in
  let m := String.length p in
  (m <=? n)%nat && String.eqb (String.substring (n - m) m s) p.

(** [s.endswith(ps)] for a tuple [ps]: some member is a suffix. *)
Definition endswith_any (s : string) (ps : list string) : bool :=
  existsb (endswith s) ps.

(** [sub in s] *)
Fixpoint str_in (sub s : string) : bool :=
  String.prefix sub s ||
  match s with
  | EmptyString => false
  | String _ s' => str_in sub s'
  end.

Definition ascii_lower (c : ascii) : ascii :=
  let n := Ascii.N_of_ascii c in
  if ((65 <=? n) && (n <=? 90))%N then Ascii.ascii_of_N (n + 32) else c.

(** [s.lower()] on the ASCII letters. *)
Fixpoint lower (s : string) : string :=
  match s with
  | EmptyString => EmptyString
  | String c s' => String (ascii_lower c) (lower s')
  end.

(** The scan of [s.replace(old, new)] for a non-empty [old]: left to
    right, every match is replaced and the scan resumes after it; [skip]
    counts the characters of the current match still to be passed. *)
Fixpoint replace_go (old new : string) (skip : nat) (s : string) : string :=
  match s with
  | EmptyString => EmptyString
  | String c s' =>
      match skip with
      | S k => replace_go old new k s'
      | O =>
          if String.prefix old s
          then new +:+ replace_go old new (String.length old - 1) s'
          else String c (replace_go old new 0 s')
      end
  end.

(** With an empty [old], Python puts [new] before every character and at
    the end. *)
Fixpoint replace_empty (new s : string) : string :=
  match s with
  | EmptyString => new
  | String c s' => new +:+ String c (replace_empty new s')
  end.

(** [s.replace(old, new)] *)
Definition replace (s old new : string) : string :=
  match old with
  | EmptyString => replace_empty new s
  | _ => replace_go old new 0 s
  end.

(** [sep.join(parts)] *)
Fixpoint join (sep : string) (parts : list string) : string :=
  match parts with
  | [] => EmptyString
  | [p] => p
  | p :: ps => p +:+ sep +:+ join sep ps
  end.

(** [s.split(sep)] for a one-character separator. *)
Fixpoint split_go (sep : ascii) (cur : string) (s : string) : list string :=
  match s with
  | EmptyString => [String.rev cur]
  | String c s' =>
      if Ascii.eqb c sep then String.rev cur :: split_go sep EmptyString s'
      else split_go sep (String c cur) s'
  end.
Definition split (s : string) (sep : ascii) : list string :=
  split_go sep EmptyString s.

(** [s.rfind(c)]: the index of the last [c], if any. *)
Fixpoint rfind (c : ascii) (s : string) : option nat :=
  match s with
  | EmptyString => None
  | String a s' =>
      match rfind c s' with
      | Some i => Some (S i)
      | None => if Ascii.eqb a c then Some 0%nat else None
      end
  end.

(** [format(n, "06d")] for [n >= 0]: decimal digits, zero-padded on the
    left to six characters at least. *)
Definition decimal (n : nat) : string := NilZero.string_of_uint (Nat.to_uint n).

Fixpoint zeros (k : nat) : string :=
  match k with
  | O => EmptyString
  | S k' => String "0" (zeros k')
  end.

Definition format_06d (n : nat) : string :=
  let d := decimal n in
  zeros (6 - String.length d) +:+ d.

(** [s[0]], if there is one. *)
Definition first (s : string) : option ascii :=
  match s with EmptyString => None | String c _ => Some c end.

(** The line feed. *)
Definition newline : string := String (Ascii.ascii_of_nat 10) EmptyString.

End Py.

(** ** [os.path] and [pathlib] on POSIX paths *)
Module Path.

(** [os.path.join(a, b)] *)
Definition osp_join (a b : string) : string :=
  if Py.startswith b "/" then b
  else if String.eqb a "" || Py.endswith a "/" then a +:+ b
  else a +:+ "/" +:+ b.

(** [Path(p).name]: the last component, once empty and ["."] components
    are dropped. *)
Definition name (p : string) : string :=
  List.last
    (List.filter (fun c => negb (String.eqb c "" || String.eqb c "."))
                 (Py.split p "/"%char))
    "".

(** [PurePath.stem]: the name up to its last dot, unless that dot is the
    first or the last character. *)
Definition stem_of_name (nm : string) : string :=
  match Py.rfind "."%char nm with
  | Some i =>
      if ((0 <? i) && (i <? String.length nm - 1))%nat
      then String.substring 0 i nm
      else nm
  | None => nm
  end.

(** [Path(p).stem] *)
Definition stem (p : string) : string := stem_of_name (name p).

End Path.

(** ** Module constants *)

Definition VALID_IMAGE_EXTENSION : list string :=
  ["rgb"; "gif"; "pbm"; "pgm"; "ppm"; "tiff"; "rast";
   "xbm"; "jpeg"; "jpg"; "bmp"; "png"; "webp"; "ext"].

(** [CAPTION.format(prompt=prompt)] *)
Definition CAPTION (prompt : string) : string :=
  "a realistic photo of " +:+ prompt.

Definition OUT_ANN_HEADER : list string :=
  ["directory"; "image_name"; "background_prompt"].

(** The entries of the [bkg_to_prompt] literal, in the order written. *)
Definition bkg_to_prompt_entries : list (string * string) :=
  [ ("garden", "in a garden");
    ("garden_lake", "in a garden with the lake");
    ("room", "in a room");
    ("farm", "in the farm");
    ("grass", "on the grass");
    ("galaxy", "in the galaxy");
    ("office", "in the office");
    ("forest", "in the forest");
    ("beach", "on the beach");
    ("museum", "in the museum");
    ("nationalpark", "in the national park");
    ("sand", "on the sand");
    ("sky", "in the sky");
    ("park", "at the park");
    ("airport", "at the airport");
    ("mountain", "over the mountain");
    ("sea", "on the sea");
    ("harbor", "in the harbor");
    ("farm", "on the farm");
    ("field", "in the field");
    ("countryside", "in the countryside");
    ("bedroom", "in the bedroom");
    ("living-room", "in the living room");
    ("playroom", "in the playroom");
    ("kitchen", "in the kitchen");
    ("savannah", "on the savannah");
    ("zoo", "at the zoo");
    ("safari", "in the safari");
    ("circus", "at the circus");
    ("pasture", "at the pasture");
    ("meadow", "on the meadow");
    ("ocean", "in the ocean");
    ("coral-reef", "on the coral reef");
    ("aquarium", "in the aquarium");
    ("underwater-cave", "in the underwater cave");
    ("medieval-village", "in the medieval village");
    ("sidewalk", "on the sidewalk");
    ("playground", "at the playground");
    ("clothing-store", "in the clothing store");
    ("closet", "in the closet");
    ("laboratory", "in the laboratory");
    ("jungle", "in the jungle");
    ("city", "in the city");
    ("desert", "in the desert");
    ("oasis", "in the oasis");
    ("pond", "in the pond");
    ("gym", "in the gym");
    ("grasslands", "on the grasslands");
    ("gallery", "in the gallery");
    ("cafe", "in the cafe") ].

(** A dict display evaluates its entries left to right and stores each
    one, so a repeated key keeps the value written last. *)
Definition dict_display (entries : list (string * string)) : gmap string string :=
  foldl (fun d kv => <[kv.1 := kv.2]> d) ∅ entries.

Definition bkg_to_prompt : gmap string string :=
  dict_display bkg_to_prompt_entries.

(** The mask of a foreground sample (lines 203-204 of [main]). *)
Definition img_path (src_dir img_id : string) : string :=
  Path.osp_join src_dir img_id.

Definition mask_path (src_dir img_id : string) : string :=
  Py.replace (img_path src_dir img_id) "img" "mask".

Definition NEG_PROMPT : string :=
  "semi-realistic, cgi, 3d, render, sketch, cartoon, drawing, anime, text, close up, cropped, out of frame, worst quality, low quality, jpeg artifacts, ugly, duplicate, morbid, mutilated, extra fingers, mutated hands, poorly drawn hands, poorly drawn face, mutation, deformed, blurry, dehydrated, bad anatomy, bad proportions, extra limbs, cloned face, disfigured, gross proportions, malformed limbs, missing arms, missing legs, extra arms, extra legs, fused fingers, too many fingers, long neck, mixture".

(** ** numpy arrays of shape (H, W, C) and the element-wise operations
    the compositor uses *)
Module Np.

Abbreviation array3 A := (list (list (list A))) (only parsing).

Definition map3 {A B} (f : A → B) (a : array3 A) : array3 B :=
  map (map (map f)) a.

(** Element-wise binary operation on arrays of one shape. *)
Definition zip_with3 {A B C} (f : A → B → C) (a : array3 A) (b : array3 B)
    : array3 C :=
  zip_with (zip_with (zip_with f)) a b.

(** [a[i, j, c]] *)
Definition get3 {A} (a : array3 A) (i j c : nat) : option A :=
  row ← a !! i; px ← row !! j; px !! c.

(** [a.shape == (h, w, c)] *)
Definition has_shape {A} (h w c : nat) (a : array3 A) : Prop :=
  length a = h ∧
  Forall (λ row, length row = w ∧ Forall (λ px, length px = c) row) a.

(** Every element satisfies [P]. *)
Definition all3 {A} (P : A → Prop) (a : array3 A) : Prop :=
  Forall (Forall (Forall P)) a.

(** The values of [uint8]. *)
Definition is_uint8 (z : Z) : Prop := 0 ≤ z < 256.

(** Conversion of an integer to [uint8] wraps. *)
Definition uint8 (z : Z) : Z := z mod 256.

(** A [uint8] read as a [float64]. *)
Definition to_float (z : Z) : float := PrimFloat.of_uint63 (Uint63.of_Z z).

(** A [float64] cast to an integer: truncation toward zero. *)
Definition trunc (x : float) : Z :=
  match Prim2SF x with
  | S754_finite s m e =>
      let v := if 0 <=? e then Z.pos m * 2 ^ e else Z.pos m / 2 ^ (- e) in
      if s then - v else v
  | _ => 0
  end.

(** [x.astype(np.uint8)] at one element. *)
Definition float_to_uint8 (x : float) : Z := uint8 (trunc x).

(** numpy's maximum of two elements: a NaN wins. *)
Definition fmax (a b : float) : float :=
  if PrimFloat.is_nan a then a
  else if PrimFloat.is_nan b then b
  else if PrimFloat.ltb a b then b else a.

(** [np.reshape(flat, (h, w, c))] for a flat list of [h * w * c] values. *)
Fixpoint chunks {A} (n k : nat) (l : list A) : list (list A) :=
  match n with
  | O => []
  | S n' => take k l :: chunks n' k (drop k l)
  end.

Definition reshape3 {A} (h w c : nat) (flat : list A) : array3 A :=
  chunks w c <$> chunks h (w * c) flat.

End Np.

(** A PIL image in mode RGB: its (height, width, 3) array of [uint8]. *)
Abbreviation Image := (list (list (list Z))) (only parsing).

(** ** The mask compositor, step by step (lines 233-253 of [main]) *)

(** [255 - np.array(mask)] on [uint8]. *)
Definition invert_px (m : Z) : Z := Np.uint8 (255 - m).
Definition invert_mask (mask : Image) : Image := Np.map3 invert_px mask.

(** [np.array(mask_image) / 255.] *)
Definition normalize_px (m : Z) : float := (Np.to_float m / 255)%float.
Definition normalize_mask (mask_image : Image) : Np.array3 float :=
  Np.map3 normalize_px mask_image.

(** [bkg_mask * bkg] *)
Definition mask_out_px (m : float) (b : Z) : float := (m * Np.to_float b)%float.
Definition mask_out (bkg_mask : Np.array3 float) (bkg : Image) : Np.array3 float :=
  Np.zip_with3 mask_out_px bkg_mask bkg.

(** [np.stack((bkg, new_img)).max(axis=0)] *)
Definition merge_px (b : float) (f : Z) : float := Np.fmax b (Np.to_float f).
Definition merge_max (bkg : Np.array3 float) (new_img : Image) : Np.array3 float :=
  Np.zip_with3 merge_px bkg new_img.

(** The composite before the cast to [uint8], and after it. *)
Definition merge_foreground_float (image mask_image bkg : Image) : Np.array3 float :=
  merge_max (mask_out (normalize_mask mask_image) bkg) image.

Definition merge_foreground (image mask_image bkg : Image) : Image :=
  Np.map3 Np.float_to_uint8 (merge_foreground_float image mask_image bkg).

(** One element of the composite. *)
Definition merge_foreground_px (f m b : Z) : Z :=
  Np.float_to_uint8 (merge_px (mask_out_px (normalize_px m) b) f).

(** ** Command line *)

Inductive model_name := SD_1_5 | SD_XL_1_0.

Inductive pipe_class := StableDiffusionInpaintPipeline | AutoPipelineForInpainting.

Record preset := {
  sd_pipe : pipe_class;
  model : string;
  refiner : option string;
}.

Definition sd_inpaint_dict (name : model_name) : preset :=
  match name with
  | SD_1_5 =>
      {| sd_pipe := StableDiffusionInpaintPipeline;
         model := "runwayml/stable-diffusion-inpainting";
         refiner := None |}
  | SD_XL_1_0 =>
      {| sd_pipe := AutoPipelineForInpainting;
         model := "diffusers/stable-diffusion-xl-1.0-inpainting-0.1";
         refiner := Some "stabilityai/stable-diffusion-xl-refiner-1.0" |}
  end.

(** The namespace [parse_args] returns. *)
Record Args := {
  src_dir : string;
  bkg_dir : list string;
  dest : string;
  ann_dir : string;
  guidance_scale : float;
  num_steps : Z;
  strength : float;
  inpaint_model_name : model_name;
  resolution : Z;
  batch_size : Z;
  blur_size : Z;
  max_num_bkg_scenes : Z;
  noise_bkg : bool;
}.

(** ** Exceptions and results *)

Inductive exn :=
| ValueError (msg : string)
| KeyError (key : string)
| FileNotFoundError (path : string)
| PipelineError (msg : string).

Inductive result (A : Type) :=
| Ok (a : A)
| Raise (e : exn).
Arguments Ok {A} a.
Arguments Raise {A} e.

(** What a pipeline returns for one batch element. *)
Inductive pipe_image (tensor : Type) :=
| Pil (im : Image)
| Tensor (t : tensor).
Arguments Pil {tensor} im.
Arguments Tensor {tensor} t.

(** The keyword arguments of a pipeline call. *)
Record pipe_args (tensor : Type) := {
  pa_prompt : list string;
  pa_negative_prompt : list string;
  pa_image : list (pipe_image tensor);
  pa_mask_image : Image;
  pa_guidance_scale : float;
  pa_num_inference_steps : Z;
  pa_strength : float;
  pa_denoising_start : option float;
}.
Arguments pa_prompt {tensor} p.
Arguments pa_image {tensor} p.

(** ** The libraries [main] calls *)
Class Library := {
  (** numpy's global generator *)
  rng_state : Type;
  np_random_seed : Z → rng_state;
  np_random_permutation : nat → rng_state → list nat * rng_state;
  (** [n] draws of [randint(low, high)] *)
  np_random_randint : Z → Z → nat → rng_state → list Z * rng_state;
  permutation_spec n g : (np_random_permutation n g).1 ≡ₚ seq 0 n;
  randint_length lo hi n g : length (np_random_randint lo hi n g).1 = n;
  randint_range lo hi n g :
    lo < hi → Forall (λ z, lo ≤ z < hi) (np_random_randint lo hi n g).1;
  (** the file system, as read *)
  os_listdir : string → option (list string);
  os_walk : string → list (string * list string * list string);
  Image_open_RGB : string → option Image;
  (** PIL *)
  GaussianBlur : Z → Image → Image;
  BoxBlur : Z → Image → Image;
  (** [im.resize((w, h))]: an RGB image of the size asked for *)
  Image_resize : nat → nat → Image → Image;
  resize_shape h w im : Np.has_shape h w 3 (Image_resize w h im);
  resize_uint8 h w im : Np.all3 Np.is_uint8 (Image_resize w h im);
  (** skimage *)
  rescale_intensity : Image → float * float → float * float → Np.array3 float;
  (** the order in which [list(set(xs))] lists the members *)
  list_of_set : list string → list string;
  (** diffusers and torch *)
  gpu_state : Type;
  tensor : Type;
  to_pil_image : tensor → Image;
  from_pretrained :
    pipe_class → string → pipe_args tensor → gpu_state →
    result (list (pipe_image tensor)) * gpu_state;
  (** a pipeline returns one image per prompt *)
  pipeline_batch cls name a g imgs g' :
    from_pretrained cls name a g = (Ok imgs, g') →
    length imgs = length (pa_prompt a);
}.

(** ** The program state and its monad *)
Section Program.
Context `{Library}.

(** What a run does that is seen from outside, in order: pipeline calls
    and image files written. *)
Inductive event :=
| PipelineCall (cls : pipe_class) (name : string) (a : pipe_args tensor)
| SaveImage (path : string) (im : Image).

Record world := {
  rng : rng_state;                         (* numpy's global generator *)
  gpu : gpu_state;                         (* torch's state *)
  text_files : gmap string (list string);  (* text files: what was written, write by write *)
  trace : list event;
}.

(** A computation reads and updates the world and returns or raises; what
    it did before raising stays done. *)
Definition M (A : Type) : Type := world → result A * world.

#[export] Instance M_ret : MRet M := λ A a w, (Ok a, w).
#[export] Instance M_bind : MBind M := λ A B f m w,
  match m w with
  | (Ok a, w') => f a w'
  | (Raise e, w') => (Raise e, w')
  end.

Definition raise {A} (e : exn) : M A := λ w, (Raise e, w).

(** A [for] loop whose body updates the local variables [s]. *)
Fixpoint for_each {A S} (body : A → S → M S) (l : list A) (s : S) : M S :=
  match l with
  | [] => mret s
  | x :: l' => s' ← body x s; for_each body l' s'
  end.

(** *** Effects *)

Definition seed (n : Z) : M unit := λ w,
  (Ok (), {| rng := np_random_seed n; gpu := gpu w;
             text_files := text_files w; trace := trace w |}).

Definition with_rng {A} (f : rng_state → A * rng_state) : M A := λ w,
  let r := f (rng w) in
  (Ok r.1, {| rng := r.2; gpu := gpu w;
              text_files := text_files w; trace := trace w |}).

Definition log (e : event) : M unit := λ w,
  (Ok (), {| rng := rng w; gpu := gpu w;
             text_files := text_files w; trace := (trace w ++ [e])%list |}).

(** [Image.open(path).convert("RGB")] *)
Definition Image_open (path : string) : M Image :=
  match Image_open_RGB path with
  | Some im => mret im
  | None => raise (FileNotFoundError path)
  end.

(** [image.save(path)] *)
Definition Image_save (im : Image) (path : string) : M unit := log (SaveImage path im).

(** [os.path.isfile(path)] *)
Definition isfile (path : string) : M bool := λ w,
  (Ok (bool_decide (is_Some (text_files w !! path))), w).

(** [os.system("rm -v " + path)], for a path the shell reads as one word. *)
Definition rm (path : string) : M unit := λ w,
  (Ok (), {| rng := rng w; gpu := gpu w;
             text_files := delete path (text_files w); trace := trace w |}).

(** [with open(path, "a+") as fp: fp.write(s)] *)
Definition append_text (path s : string) : M unit := λ w,
  (Ok (), {| rng := rng w; gpu := gpu w;
             text_files :=
               <[path := (default [] (text_files w !! path) ++ [s])%list]> (text_files w);
             trace := trace w |}).

(** A call of a pipeline made by [cls.from_pretrained(name, ...)]. *)
Definition call_pipeline (cls : pipe_class) (name : string)
    (a : pipe_args tensor) : M (list (pipe_image tensor)) := λ w,
  let r := from_pretrained cls name a (gpu w) in
  (r.1, {| rng := rng w; gpu := r.2; text_files := text_files w;
           trace := (trace w ++ [PipelineCall cls name a])%list |}).

(** [np.random.choice(a, size, replace=False)] on the global generator. *)
Definition np_random_choice (a : list string) (size : Z) : M (list string) :=
  let pop_size := length a in
  if bool_decide (pop_size = 0%nat ∧ size ≠ 0) then
    raise (ValueError "'a' cannot be empty unless no samples are taken")
  else if Z.of_nat pop_size <? size then
    raise (ValueError "Cannot take a larger sample than population when 'replace=False'")
  else if size <? 0 then
    raise (ValueError "negative dimensions are not allowed")
  else
    perm ← with_rng (np_random_permutation pop_size);
    mret (omap (λ i, a !! i) (take (Z.to_nat size) perm)).

(** [np.random.randint(low, high, size=(h, w, 3)).astype(np.uint8)] *)
Definition np_random_randint_uint8 (low high h w : Z) : M Image :=
  if (h <? 0) || (w <? 0) then
    raise (ValueError "negative dimensions are not allowed")
  else
    flat ← with_rng (np_random_randint low high (Z.to_nat h * Z.to_nat w * 3));
    mret (Np.reshape3 (Z.to_nat h) (Z.to_nat w) 3 (Np.uint8 <$> flat)).

(** [im.resize((w, h))] *)
Definition resize (im : Image) (size : Z * Z) : M Image :=
  if (size.1 <=? 0) || (size.2 <=? 0) then
    raise (ValueError "height and width must be > 0")
  else mret (Image_resize (Z.to_nat size.1) (Z.to_nat size.2) im).

(** ** The background catalog (lines 169-179 of [main]) *)

(** [bkg_dict]: a dict keeps its keys in the order they were first set. *)
Abbreviation catalog := (list (string * list string)) (only parsing).

(** [d[k] = v] *)
Fixpoint dict_set {V} (d : list (string * V)) (k : string) (v : V)
    : list (string * V) :=
  match d with
  | [] => [(k, v)]
  | (k', v') :: d' =>
      if decide (k' = k) then (k', v) :: d' else (k', v') :: dict_set d' k v
  end.

Definition is_image_file (f : string) : bool :=
  Py.endswith_any (Py.lower f) VALID_IMAGE_EXTENSION.

(** [sorted([f for f in files if f.lower().endswith(VALID_IMAGE_EXTENSION)])] *)
Definition image_files (files : list string) : list string :=
  merge_sort String.le (filter (λ f, is_image_file f) files).

(** The body of the loop over [os.walk]. *)
Definition scan_directory (args : Args)
    (entry : string * list string * list string)
    (bkg_dict : catalog) : M catalog :=
  let '(root, dirs, files) := entry in
  let files := image_files files in
  if bool_decide (files = []) then mret bkg_dict
  else
    let files := (λ f, Path.osp_join root f) <$> files in
    files ← np_random_choice files (max_num_bkg_scenes args);
    mret (dict_set bkg_dict (Path.stem root) files).

Definition scan_root (args : Args) (bkg_dir : string) (bkg_dict : catalog)
    : M catalog :=
  for_each (scan_directory args) (os_walk bkg_dir) bkg_dict.

Definition build_catalog (args : Args) : M catalog :=
  _ ← seed 0;
  for_each (scan_root args) (bkg_dir args) [].

(** ** One (foreground, background) pair (lines 209-253 of [main]) *)

(** Lines 211-216: the background, noise or a smoothed scene. *)
Definition load_background (args : Args) (bkg_file : string) : M Image :=
  let H := resolution args in
  let W := resolution args in
  if noise_bkg args then
    np_random_randint_uint8 0 255 H W
  else
    bkg ← Image_open bkg_file;
    mret (GaussianBlur 1 bkg).

(** Lines 222-231: blur the mask and stretch it. *)
Definition smooth_mask (args : Args) (mask : Image) : Image :=
  if 1 <=? blur_size args then
    let blurred_img := BoxBlur (blur_size args) mask in
    let stretched_img :=
      rescale_intensity blurred_img (127.5%float, 255%float) (0%float, 255%float) in
    Np.map3 Np.float_to_uint8 stretched_img
  else mask.

(** What lines 211-253 hand to the pipeline. *)
Record composite := {
  c_bkg : Image;         (* [np.array(bkg)] after the resize of line 239 *)
  c_image : Image;       (* the merged image of line 253 *)
  c_mask_image : Image;  (* the resized, inverted mask of line 238 *)
}.

Definition compose_pair (args : Args) (img_path mask_path bkg_file : string)
    : M composite :=
  let H := resolution args in
  let W := resolution args in
  bkg ← load_background args bkg_file;
  img ← Image_open img_path;
  mask ← Image_open mask_path;
  let mask := smooth_mask args mask in
  let mask := invert_mask mask in
  image ← resize img (H, W);
  mask_image ← resize mask (H, W);
  bkg ← resize bkg (H, W);
  mret {| c_bkg := bkg;
          c_image := merge_foreground image mask_image bkg;
          c_mask_image := mask_image |}.

(** ** Captions and the pipeline calls (lines 255-306) *)

(** [bkg_to_prompt[bkg_dir]] *)
Definition lookup_prompt (bkg_dir : string) : M string :=
  match bkg_to_prompt !! bkg_dir with
  | Some prompt => mret prompt
  | None => raise (KeyError bkg_dir)
  end.

Definition with_refiner (args : Args) : bool :=
  bool_decide (is_Some (refiner (sd_inpaint_dict (inpaint_model_name args)))).

Definition neg_prompt : string :=
  Py.join "," (list_of_set (Py.split NEG_PROMPT ","%char)).

(** [[x] * n] *)
Definition repeat_list {A} (x : A) (n : Z) : list A := replicate (Z.to_nat n) x.

Definition inpaint (args : Args) (caption : string) (c : composite)
    : M (list (pipe_image tensor)) :=
  let p := sd_inpaint_dict (inpaint_model_name args) in
  images ← call_pipeline (sd_pipe p) (model p)
    {| pa_prompt := repeat_list caption (batch_size args);
       pa_negative_prompt := repeat_list neg_prompt (batch_size args);
       pa_image := [Pil (c_image c)];
       pa_mask_image := c_mask_image c;
       pa_guidance_scale := guidance_scale args;
       pa_num_inference_steps := num_steps args;
       pa_strength := strength args;
       pa_denoising_start := None |};
  match refiner p with
  | Some refiner_name =>
      call_pipeline (sd_pipe p) refiner_name
        {| pa_prompt := repeat_list caption (batch_size args);
           pa_negative_prompt := repeat_list neg_prompt (batch_size args);
           pa_image := images;
           pa_mask_image := c_mask_image c;
           pa_guidance_scale := guidance_scale args;
           pa_num_inference_steps := num_steps args;
           pa_strength := strength args;
           pa_denoising_start := Some 0.75%float |}
  | None => mret images
  end.

(** ** The output writer (lines 308-323) *)

(** The local variables the loops update: [img_id] is rebound at line
    314, [cnt] at line 319. *)
Record locals := {
  img_id : string;
  cnt : nat;
}.

(** The paths [main] computes at lines 147-154. *)
Definition out_dir_name (args : Args) : string :=
  Path.stem (src_dir args) +:+ "_repaint".
Definition dest_dir (args : Args) : string :=
  Path.osp_join (dest args) (out_dir_name args).
Definition ann_path (args : Args) : string :=
  Path.osp_join (Path.osp_join (dest_dir args) (ann_dir args))
                (out_dir_name args +:+ "_ann.csv").

(** Line 316. *)
Definition out_name (img_id : string) (cnt : nat) (caption : string) : string :=
  img_id +:+ "_repaint-id_" +:+ Py.format_06d (cnt + 1) +:+ "+" +:+ caption +:+ ".png".

(** The body of [for image in images]. *)
Definition write_output (args : Args) (prompt caption : string)
    (image : pipe_image tensor) (l : locals) : M locals :=
  let image := match image with Tensor t => to_pil_image t | Pil im => im end in
  let img_id := Path.stem (img_id l) in
  let out_name := out_name img_id (cnt l) caption in
  _ ← Image_save image (Path.osp_join (dest_dir args) out_name);
  let cnt := S (cnt l) in
  _ ← append_text (ann_path args)
        (Py.join "," [dest_dir args; out_name; prompt] +:+ Py.newline);
  mret {| img_id := img_id; cnt := cnt |}.

(** The body of [for bkg_file in bkg_files]. *)
Definition repaint_pair (args : Args) (img_path mask_path bkg_dir : string)
    (bkg_file : string) (l : locals) : M locals :=
  c ← compose_pair args img_path mask_path bkg_file;
  prompt ← lookup_prompt bkg_dir;
  let caption := CAPTION prompt in
  images ← inpaint args caption c;
  for_each (write_output args prompt caption) images l.

(** The body of [for bkg_dir, bkg_files in bkg_dict.items()]. *)
Definition repaint_category (args : Args) (img_path mask_path : string)
    (item : string * list string) (l : locals) : M locals :=
  for_each (repaint_pair args img_path mask_path item.1) item.2 l.

(** The body of [for idx, img_id in enumerate(image_ids)]. *)
Definition repaint_sample (args : Args) (bkg_dict : catalog)
    (img_id : string) (_ : unit) : M unit :=
  let img_path := img_path (src_dir args) img_id in
  let mask_path := mask_path (src_dir args) img_id in
  _ ← for_each (repaint_category args img_path mask_path) bkg_dict
        {| img_id := img_id; cnt := 0 |};
  mret ().

(** [[f for f in os.listdir(src_dir) if "img" in f]] *)
Definition list_image_ids (args : Args) : M (list string) :=
  match os_listdir (src_dir args) with
  | Some names => mret (filter (λ f, Py.str_in "img" f) names)
  | None => raise (FileNotFoundError (src_dir args))
  end.

(** Lines 154-159: a manifest left by an earlier run is removed, and the
    header is written. *)
Definition start_manifest (args : Args) : M unit :=
  old ← isfile (ann_path args);
  _ ← (if (old : bool) then rm (ann_path args) else mret ());
  append_text (ann_path args) (Py.join "," OUT_ANN_HEADER +:+ Py.newline).

(** Lines 201-323. *)
Definition repaint_all (args : Args) (image_ids : list string)
    (bkg_dict : catalog) : M unit :=
  for_each (repaint_sample args bkg_dict) image_ids ().

Definition main (args : Args) : M unit :=
  _ ← start_manifest args;
  image_ids ← list_image_ids args;
  bkg_dict ← build_catalog args;
  repaint_all args image_ids bkg_dict.

(** *** What a run leaves behind *)

(** The rows of the manifest below its header. *)
Definition data_rows (args : Args) (w : world) : list string :=
  drop 1 (default [] (text_files w !! ann_path args)).

Definition is_save (e : event) : bool :=
  match e with SaveImage _ _ => true | _ => false end.

(** The image files written, in order. *)
Definition saved_paths (w : world) : list string :=
  omap (λ e, match e with SaveImage p _ => Some p | _ => None end) (trace w).

(** The number of pipeline calls made. *)
Definition pipeline_calls (w : world) : nat :=
  length (filter (λ e, negb (is_save e)) (trace w)).

(** The number of background files in a catalog. *)
Definition catalog_size (bkg_dict : catalog) : nat :=
  sum_list (map (λ item, length item.2) bkg_dict).

End Program.

Arguments world : clear implicits.
Arguments M : clear implicits.
Arguments event : clear implicits.
Arguments composite : clear implicits.

(** ** The vocabulary of the specification *)
Section Vocabulary.
Context `{Library}.
Variable args : Args.

(** What holds of an outcome: [Q] of a value returned, [J] of an
    exception raised, each with the world left. *)
Definition post {A} (r : result A * world _)
    (Q : A → world _ → Prop) (J : exn → world _ → Prop) : Prop :=
  match r.1 with
  | Ok a => Q a r.2
  | Raise e => J e r.2
  end.

(** A computation that reads and writes the generator only. *)
Definition rng_only {A} (m : M _ A) : Prop :=
  ∀ w1 w2, rng w1 = rng w2 →
    (m w1).1 = (m w2).1 ∧ rng (m w1).2 = rng (m w2).2.

(** A computation that writes no file and calls no pipeline. *)
Definition silent {A} (m : M _ A) : Prop :=
  ∀ w, text_files (m w).2 = text_files w ∧ trace (m w).2 = trace w.

(** numpy's message for a sample larger than the population. *)
Definition too_large : string :=
  "Cannot take a larger sample than population when 'replace=False'".

(** An entry of the catalog: the stem of a walked directory, with
    exactly the maximum number of its image files, none drawn twice. *)
Definition sampled_from (item : string * list string) : Prop :=
  ∃ bkg_root root dirs files,
    bkg_root ∈ bkg_dir args ∧ (root, dirs, files) ∈ os_walk bkg_root
    ∧ item.1 = Path.stem root
    ∧ length item.2 = Z.to_nat (max_num_bkg_scenes args)
    ∧ item.2 ⊆+ (Path.osp_join root <$> image_files files).

(** Some walked directory holds images, but fewer than the maximum. *)
Definition too_few_somewhere : Prop :=
  ∃ bkg_root root dirs files,
    bkg_root ∈ bkg_dir args ∧ (root, dirs, files) ∈ os_walk bkg_root
    ∧ image_files files ≠ []
    ∧ Z.of_nat (length (image_files files)) < max_num_bkg_scenes args.

(** The noise array: [n * n * 3] draws of [randint(0, 255)], cast to
    [uint8] and laid out as (n, n, 3). *)
Definition noise_array (n : nat) (g : rng_state) : Image :=
  Np.reshape3 n n 3 (Np.uint8 <$> (np_random_randint 0 255 (n * n * 3) g).1).

(** The manifest, header included. *)
Definition manifest (w : world _) : list string :=
  default [] (text_files w !! ann_path args).

(** The prompt lists of the pipeline calls made, in order. *)
Definition prompts_of (w : world _) : list (list string) :=
  omap (λ e, match e with PipelineCall _ _ a => Some (pa_prompt a) | _ => None end)
       (trace w).

(** [[x] * batch_size] has this many members. *)
Definition batch : nat := Z.to_nat (batch_size args).

(** The [i]-th image written after the locals were [l]: its name and the
    phrase of its row; [pc] is the phrase and the caption in use. *)
Definition nth_output (l : locals) (i : nat) (pc : string * string)
    : string * string :=
  (out_name (Nat.iter (S i) Path.stem (img_id l)) (cnt l + i) pc.2, pc.1).

Definition outputs (l : locals) (pcs : list (string * string))
    : list (string * string) :=
  imap (nth_output l) pcs.

(** The locals after [n] more images. *)
Definition locals_after (l : locals) (n : nat) : locals :=
  {| img_id := Nat.iter n Path.stem (img_id l); cnt := cnt l + n |}.

Definition saved_as (o : string * string) : string :=
  Path.osp_join (dest_dir args) o.1.

Definition row (o : string * string) : string :=
  Py.join "," [dest_dir args; o.1; o.2] +:+ Py.newline.

(** A phrase of the table with the caption made from it. *)
Definition known (pc : string * string) : Prop :=
  (∃ k, bkg_to_prompt !! k = Some pc.1) ∧ pc.2 = CAPTION pc.1.

Definition known_prompts (ps : list string) : Prop :=
  ∃ pc, known pc ∧ ps = replicate batch pc.2.

(** From [w] to [w'] the images of [pcs] were written, each with its
    row, and the pipelines were called with the prompt lists [cs]. *)
Definition wrote (l : locals) (w : world _) (pcs : list (string * string))
    (cs : list (list string)) (w' : world _) : Prop :=
  saved_paths w' = (saved_paths w ++ (saved_as <$> outputs l pcs))%list
  ∧ manifest w' = (manifest w ++ (row <$> outputs l pcs))%list
  ∧ prompts_of w' = (prompts_of w ++ cs)%list
  ∧ Forall known pcs ∧ Forall known_prompts cs.

(** The pipelines were called with [caption], and nothing was written. *)
Definition called (caption : string) (w w' : world _) : Prop :=
  text_files w' = text_files w ∧ saved_paths w' = saved_paths w
  ∧ ∃ cs, prompts_of w' = (prompts_of w ++ cs)%list
          ∧ Forall (λ ps, ps = replicate batch caption) cs.

(** Every category with a background file has a phrase. *)
Definition resolved (bkg_dict : list (string * list string)) : Prop :=
  Forall (λ item, item.2 = [] ∨ is_Some (bkg_to_prompt !! item.1)) bkg_dict.

(** From [w] to [w'], [n] images were written, each with its row, and
    every pipeline call used a caption of the table. *)
Definition progress (w : world _) (n : nat) (w' : world _) : Prop :=
  length (saved_paths w') = (length (saved_paths w) + n)%nat
  ∧ length (manifest w') = (length (manifest w) + n)%nat
  ∧ ∃ cs, prompts_of w' = (prompts_of w ++ cs)%list ∧ Forall known_prompts cs.

(** What the specification asks of a run whose catalog has a category
    the table does not hold: an exception before any inpainting call. *)
Definition fails_fast (w : world _) : Prop :=
  ∀ d k, (build_catalog args w).1 = Ok d → k ∈ d.*1 →
         bkg_to_prompt !! k = None →
         ∃ e w', main args w = (Raise e, w') ∧ prompts_of w' = prompts_of w.

End Vocabulary.

(** ** A small library instance

    A file system given by tables, a generator that counts its draws, and
    pipelines that answer one image per prompt: an instance of [Library]
    on which the program above runs by computation. *)
Module Demo.

Record file_system := {
  fs_listdir : list (string * list string);
  fs_walk : list (string * list (string * list string * list string));
  fs_images : list (string * Image);
}.

Definition assoc {V} (k : string) (l : list (string * V)) : option V :=
  snd <$> find (λ kv, String.eqb kv.1 k) l.

Definition permutation (n g : nat) : list nat * nat :=
  (if Nat.even g then reverse (seq 0 n) else seq 0 n, S g).

Definition randint (lo hi : Z) (n g : nat) : list Z * nat :=
  ((λ i, lo + Z.of_nat (g + i) mod (hi - lo)) <$> seq 0 n, S g).

#[export] Instance is_uint8_dec z : Decision (Np.is_uint8 z).
Proof. unfold Np.is_uint8. apply _. Defined.

#[export] Instance has_shape_dec {A} h w c (a : Np.array3 A) :
  Decision (Np.has_shape h w c a).
Proof. unfold Np.has_shape. apply _. Defined.

#[export] Instance all3_dec {A} (P : A → Prop) `{∀ x, Decision (P x)}
  (a : Np.array3 A) : Decision (Np.all3 P a).
Proof. unfold Np.all3. apply _. Defined.

Definition blank (h w : nat) : Image := replicate h (replicate w (replicate 3 0)).

Definition resize (w h : nat) (im : Image) : Image :=
  if bool_decide (Np.has_shape h w 3 im ∧ Np.all3 Np.is_uint8 im) then im
  else blank h w.

(** skimage's [rescale_intensity] at one element: clip to the input
    range, then map it linearly onto the output range. *)
Definition rescale_px (in_range out_range : float * float) (x : Z) : float :=
  let v := Np.to_float x in
  let v := if (v <? in_range.1)%float then in_range.1
           else if (in_range.2 <? v)%float then in_range.2 else v in
  ((v - in_range.1) / (in_range.2 - in_range.1)
     * (out_range.2 - out_range.1) + out_range.1)%float.

Definition pipeline (a : pipe_args unit) (g : nat)
    : result (list (pipe_image unit)) * nat :=
  (Ok ((λ _, Pil (pa_mask_image unit a)) <$> pa_prompt a), S g).

Lemma permutation_perm n g : (permutation n g).1 ≡ₚ seq 0 n.
Proof.
  unfold permutation; simpl. destruct (Nat.even g); [|done].
  apply reverse_Permutation.
Qed.

Lemma randint_len lo hi n g : length (randint lo hi n g).1 = n.
Proof. unfold randint; simpl. by rewrite length_fmap, length_seq. Qed.

Lemma randint_bounds lo hi n g :
  lo < hi → Forall (λ z, lo ≤ z < hi) (randint lo hi n g).1.
Proof.
  intros Hlt. unfold randint; simpl. apply Forall_fmap, Forall_forall.
  intros i _. simpl.
  pose proof (Z.mod_pos_bound (Z.of_nat (g + i)) (hi - lo)). lia.
Qed.

Lemma blank_shape h w : Np.has_shape h w 3 (blank h w).
Proof.
  unfold blank. split; [by rewrite length_replicate|].
  apply Forall_replicate. split; [by rewrite length_replicate|].
  by apply Forall_replicate.
Qed.

Lemma blank_uint8 h w : Np.all3 Np.is_uint8 (blank h w).
Proof.
  unfold blank. do 3 apply Forall_replicate. unfold Np.is_uint8. lia.
Qed.

Lemma resize_has_shape h w im : Np.has_shape h w 3 (resize w h im).
Proof.
  unfold resize. case_bool_decide as Hd; [tauto|apply blank_shape].
Qed.

Lemma resize_is_uint8 h w im : Np.all3 Np.is_uint8 (resize w h im).
Proof.
  unfold resize. case_bool_decide as Hd; [tauto|apply blank_uint8].
Qed.

Lemma pipeline_len (cls : pipe_class) (name : string) a g imgs g' :
  pipeline a g = (Ok imgs, g') → length imgs = length (pa_prompt a).
Proof. unfold pipeline. intros [= <- _]. by rewrite length_fmap. Qed.

Definition library (fs : file_system) : Library := {|
  rng_state := nat;
  np_random_seed := Z.to_nat;
  np_random_permutation := permutation;
  np_random_randint := randint;
  permutation_spec := permutation_perm;
  randint_length := randint_len;
  randint_range := randint_bounds;
  os_listdir d := assoc d (fs_listdir fs);
  os_walk d := default [] (assoc d (fs_walk fs));
  Image_open_RGB p := assoc p (fs_images fs);
  GaussianBlur _ im := im;
  BoxBlur _ im := im;
  Image_resize := resize;
  resize_shape := resize_has_shape;
  resize_uint8 := resize_is_uint8;
  rescale_intensity im in_range out_range := Np.map3 (rescale_px in_range out_range) im;
  list_of_set := remove_dups;
  gpu_state := nat;
  tensor := unit;
  to_pil_image _ := blank 1 1;
  from_pretrained _ _ := pipeline;
  pipeline_batch := pipeline_len;
|}.

(** An empty world. *)
Definition world0 (fs : file_system) : world (library fs) :=
  {| rng := 7%nat : @rng_state (library fs); gpu := 0%nat : @gpu_state (library fs);
     text_files := ∅; trace := [] |}.

(** A 2 x 2 foreground, its mask (white marks the object) and two scenes. *)
Definition fg : Image :=
  [[[10; 200; 30]; [40; 50; 60]]; [[0; 0; 0]; [255; 128; 1]]].
Definition fg_mask : Image :=
  [[[255; 255; 255]; [0; 0; 0]]; [[255; 255; 255]; [51; 51; 51]]].
Definition scene1 : Image :=
  [[[100; 100; 100]; [7; 90; 250]]; [[9; 9; 9]; [5; 200; 100]]].
Definition scene2 : Image :=
  [[[1; 2; 3]; [4; 5; 6]]; [[7; 8; 9]; [10; 11; 12]]].

Definition args0 : Args := {|
  src_dir := "fg";
  bkg_dir := ["bkg"];
  dest := "gen_samples";
  ann_dir := "gen_annotations";
  guidance_scale := 6%float;
  num_steps := 60;
  strength := 0x1.ccccccccccccdp-1%float;
  inpaint_model_name := SD_XL_1_0;
  resolution := 2;
  batch_size := 1;
  blur_size := 5;
  max_num_bkg_scenes := 2;
  noise_bkg := false;
|}.

(** One foreground sample with its mask, and a garden with three scenes. *)
Definition fs0 : file_system := {|
  fs_listdir := [("fg", ["img_0001.png"; "mask_0001.png"])];
  fs_walk :=
    [("bkg", [("bkg/garden", [], ["b.JPG"; "notes.txt"; "a.png"; "c.jpeg"]);
              ("bkg", ["garden"], [])])];
  fs_images :=
    [("fg/img_0001.png", fg); ("fg/mask_0001.png", fg_mask);
     ("bkg/garden/a.png", scene1); ("bkg/garden/b.JPG", scene2);
     ("bkg/garden/c.jpeg", scene1)];
|}.

(** The same, with a garden of a single image: fewer than the default
    maximum of 2. *)
Definition fs_one_image : file_system := {|
  fs_listdir := [("fg", ["img_0001.png"; "mask_0001.png"])];
  fs_walk := [("bkg", [("bkg/garden", [], ["a.png"]); ("bkg", ["garden"], [])])];
  fs_images :=
    [("fg/img_0001.png", fg); ("fg/mask_0001.png", fg_mask);
     ("bkg/garden/a.png", scene1)];
|}.

(** A garden and an attic; the phrase table has no attic. *)
Definition fs_attic : file_system := {|
  fs_listdir := [("fg", ["img_0001.png"; "mask_0001.png"])];
  fs_walk :=
    [("bkg", [("bkg/garden", [], ["a.png"; "b.png"]);
              ("bkg/attic", [], ["c.png"; "d.png"]);
              ("bkg", ["garden"; "attic"], [])])];
  fs_images :=
    [("fg/img_0001.png", fg); ("fg/mask_0001.png", fg_mask);
     ("bkg/garden/a.png", scene1); ("bkg/garden/b.png", scene2);
     ("bkg/attic/c.png", scene1); ("bkg/attic/d.png", scene2)];
|}.

(** A foreground sample whose name has two dots. *)
Definition fs_two_dots : file_system := {|
  fs_listdir := [("fg", ["img.v2.png"; "mask.v2.png"])];
  fs_walk :=
    [("bkg", [("bkg/garden", [], ["a.png"; "b.png"]); ("bkg", ["garden"], [])])];
  fs_images :=
    [("fg/img.v2.png", fg); ("fg/mask.v2.png", fg_mask);
     ("bkg/garden/a.png", scene1); ("bkg/garden/b.png", scene2)];
|}.

(** Noise backgrounds, no refiner, no blur. *)
Definition args_noise : Args := {|
  src_dir := "fg";
  bkg_dir := ["bkg"];
  dest := "gen_samples";
  ann_dir := "gen_annotations";
  guidance_scale := 6%float;
  num_steps := 60;
  strength := 0x1.ccccccccccccdp-1%float;
  inpaint_model_name := SD_1_5;
  resolution := 2;
  batch_size := 1;
  blur_size := 0;
  max_num_bkg_scenes := 2;
  noise_bkg := true;
|}.

(** The runs the examples below evaluate. *)
Definition run0 := @main (library fs0) args0 (world0 fs0).

Definition run_attic := @main (library fs_attic) args0 (world0 fs_attic).

Definition run_two_dots := @main (library fs_two_dots) args0 (world0 fs_two_dots).

Definition catalog0 : list (string * list string) :=
  [("garden", ["bkg/garden/c.jpeg"; "bkg/garden/b.JPG"])].

Definition catalog_attic : list (string * list string) :=
  [("garden", ["bkg/garden/b.png"; "bkg/garden/a.png"]);
   ("attic", ["bkg/attic/c.png"; "bkg/attic/d.png"])].

Definition sample0 :=
  @repaint_sample (library fs0) args0 catalog0 "img_0001.png" () (world0 fs0).

End Demo.

(** ** What a run leaves, told in full

    The vocabulary of the properties proved beyond the specification's
    statements. *)
(** The phrase of a category, for a category the table holds. *)
Definition phrase_of (k : string) : string := default "" (bkg_to_prompt !! k).

Section Footprint.
Context `{Library}.
Variable args : Args.

(** A computation returns. *)
Definition returns {A} (r : result A * world _) : Prop := ∃ a, r.1 = Ok a.

(** The pipeline calls one pair makes: the refiner follows the first pass
    when the preset names one (lines 285-306). *)
Definition calls_per_pair : nat :=
  match refiner (sd_inpaint_dict (inpaint_model_name args)) with
  | Some _ => 2
  | None => 1
  end.

(** A computation that leaves the text file [p] as it was. *)
Definition keeps {A} (p : string) (m : M _ A) : Prop :=
  ∀ w, text_files (m w).2 !! p = text_files w !! p.

(** The first line of the manifest (line 159). *)
Definition header_line : string := Py.join "," OUT_ANN_HEADER +:+ Py.newline.

(** An output: the phrase is one of the table, and the file name is made
    of a stem, a counter and the caption of that phrase (line 316). *)
Definition named_output (o : string * string) : Prop :=
  ∃ k id n, bkg_to_prompt !! k = Some o.2
            ∧ o.1 = out_name (Path.stem id) n (CAPTION o.2).

(** From [w] to [w'] the images [outs], each a file name with the phrase
    of its row, were written in this order, each with its row. *)
Definition logged (w : world _) (outs : list (string * string))
    (w' : world _) : Prop :=
  saved_paths w' = (saved_paths w ++ (saved_as args <$> outs))%list
  ∧ manifest args w' = (manifest args w ++ (row args <$> outs))%list
  ∧ Forall named_output outs.

(** The world [w] with numpy's generator in the state [g]. *)
Definition with_generator (g : rng_state) (w : world _) : world _ :=
  {| rng := g; gpu := gpu w; text_files := text_files w; trace := trace w |}.

End Footprint.

(** ** The trace of a run, call by call *)
Section TraceShape.
Context `{Library}.
Variable args : Args.

(** A computation that leaves numpy's generator as it was. *)
Definition draws_nothing {A} (m : M _ A) : Prop :=
  ∀ w, rng (m w).2 = rng w.

(** An array of the size asked for. *)
Definition sized (a : Image) : Prop :=
  Np.has_shape (Z.to_nat (resolution args)) (Z.to_nat (resolution args)) 3 a
  ∧ Np.all3 Np.is_uint8 a.

(** A pipeline call as lines 285-306 make it: the preset's class, one
    prompt and one negative prompt per batch element, the mask of the
    pair, the configured guidance scale, steps and strength; a first pass
    is given the merged image of the pair, a refiner pass the images of
    the first pass and a denoising start of 0.75. *)
Definition well_formed_call (e : event _) : Prop :=
  match e with
  | SaveImage _ _ => True
  | PipelineCall cls name a =>
      let p := sd_inpaint_dict (inpaint_model_name args) in
      cls = sd_pipe p
      ∧ length (pa_prompt a) = batch args
      ∧ length (pa_negative_prompt _ a) = batch args
      ∧ sized (pa_mask_image _ a)
      ∧ pa_guidance_scale _ a = guidance_scale args
      ∧ pa_num_inference_steps _ a = num_steps args
      ∧ pa_strength _ a = strength args
      ∧ match pa_denoising_start _ a with
        | None => name = model p ∧ ∃ im, pa_image a = [Pil im] ∧ sized im
        | Some d =>
            refiner p = Some name ∧ d = 0.75%float
            ∧ length (pa_image a) = batch args
        end
  end.

(** What one pair adds to the trace, by kind: its pipeline calls, then
    its saved images. *)
Definition pair_block : list bool :=
  (replicate (calls_per_pair args) false ++ replicate (batch args) true)%list.

(** From [w] to [w'] the events [new] were added, all well formed. *)
Definition extended (w : world _) (new : list (event _)) (w' : world _) : Prop :=
  trace w' = (trace w ++ new)%list ∧ Forall well_formed_call new.

(** From [w] to [w'], [n] pairs were done in full. *)
Definition pairs_done (w : world _) (n : nat) (w' : world _) : Prop :=
  ∃ new, extended w new w'
         ∧ is_save <$> new = concat (replicate n pair_block).

(** The phrases of the rows of one foreground sample, in the order
    written: for each category of the catalog in turn, its phrase once
    per background file and batch element. *)
Definition sample_phrases (bkg_dict : list (string * list string))
    : list string :=
  item ← bkg_dict;
  replicate (length item.2 * batch args) (phrase_of item.1).

End TraceShape.

(** A check for the width of the counter field: the next [fuel] numbers
    counted up from [acc], a decimal number written from its last digit,
    have six digits at most. *)
Fixpoint six_digits (fuel : nat) (acc : Decimal.uint) : bool :=
  match fuel with
  | O => true
  | S fuel' =>
      if (Decimal.nb_digits acc <=? 6)%nat
      then six_digits fuel' (Decimal.Little.succ acc)
      else false
  end.

(** ** Further cases for the library instance *)
Module Cases.

(** A world that holds a text file of the user's and the manifest of an
    earlier run. *)
Definition world_stale : world (Demo.library Demo.fs0) :=
  {| rng := 7%nat : @rng_state (Demo.library Demo.fs0);
     gpu := 0%nat : @gpu_state (Demo.library Demo.fs0);
     text_files :=
       <["notes.txt" := ["keep"]]>
         (<[ann_path Demo.args0 := ["old header"; "old row"]]> ∅);
     trace := [] |}.

Definition run_stale := @main (Demo.library Demo.fs0) Demo.args0 world_stale.

(** No source directory. *)
Definition fs_no_source : Demo.file_system := {|
  Demo.fs_listdir := [];
  Demo.fs_walk := Demo.fs_walk Demo.fs0;
  Demo.fs_images := Demo.fs_images Demo.fs0;
|}.

(** A source directory without a foreground sample. *)
Definition fs_no_samples : Demo.file_system := {|
  Demo.fs_listdir := [("fg", ["mask_0001.png"; "readme.txt"])];
  Demo.fs_walk := Demo.fs_walk Demo.fs0;
  Demo.fs_images := Demo.fs_images Demo.fs0;
|}.

(** A sample whose mask file is missing. *)
Definition fs_no_mask : Demo.file_system := {|
  Demo.fs_listdir := [("fg", ["img_0001.png"])];
  Demo.fs_walk := Demo.fs_walk Demo.fs0;
  Demo.fs_images :=
    [("fg/img_0001.png", Demo.fg); ("bkg/garden/a.png", Demo.scene1);
     ("bkg/garden/b.JPG", Demo.scene2); ("bkg/garden/c.jpeg", Demo.scene1)];
|}.

(** No background scene asked for. *)
Definition args_zero : Args := {|
  src_dir := "fg";
  bkg_dir := ["bkg"];
  dest := "gen_samples";
  ann_dir := "gen_annotations";
  guidance_scale := 6%float;
  num_steps := 60;
  strength := 0x1.ccccccccccccdp-1%float;
  inpaint_model_name := SD_XL_1_0;
  resolution := 2;
  batch_size := 1;
  blur_size := 5;
  max_num_bkg_scenes := 0;
  noise_bkg := false;
|}.

Definition pair0 :=
  @compose_pair (Demo.library Demo.fs0) Demo.args0
    "fg/img_0001.png" "fg/mask_0001.png" "bkg/garden/a.png" (Demo.world0 Demo.fs0).

Definition build0 :=
  @build_catalog (Demo.library Demo.fs0) Demo.args0 (Demo.world0 Demo.fs0).

(** A second directory named garden, scanned after the first. *)
Definition scan_again :=
  @scan_directory (Demo.library Demo.fs0) Demo.args0
    ("bkg/more/garden", [], ["x.png"; "y.png"; "z.txt"])
    Demo.catalog0 (Demo.world0 Demo.fs0).

End Cases.

(** * Properties

    The definitions end here; what follows proves the specification's
    statements about them, one by one (C1 to C10), and records where the
    code departs from them. *)

(** * Strings *)
Section StringFacts.

Lemma prefix_cons a s b t :
  String.prefix (String a s) (String b t) = bool_decide (a = b) && String.prefix s t.
Proof.
  simpl. destruct (ascii_dec a b).
  - by rewrite bool_decide_eq_true_2.
  - by rewrite bool_decide_eq_false_2.
Qed.

Lemma prefix_app_r p u v :
  String.prefix p u = true → String.prefix p (u +:+ v) = true.
Proof.
  revert u. induction p as [|a p IH]; [intros u _; by destruct (u +:+ v)|].
  intros [|b u]; simpl; [done|].
  destruct (ascii_dec a b); [apply IH|done].
Qed.

Lemma prefix_refl_cons c u t :
  String.prefix (String c u) (String c t) = String.prefix u t.
Proof. simpl. by destruct (ascii_dec c c). Qed.

(** A scan that is not at a match copies the character. *)
Lemma replace_go_copy old new c s :
  String.prefix old (String c s) = false →
  Py.replace_go old new 0 (String c s) = String c (Py.replace_go old new 0 s).
Proof. intros Hp. cbn [Py.replace_go]. by rewrite Hp. Qed.

(** A scan at a match writes [new]. *)
Lemma replace_go_match old new c s :
  String.prefix old (String c s) = true →
  Py.replace_go old new 0 (String c s)
  = new +:+ Py.replace_go old new (String.length old - 1) s.
Proof. intros Hp. cbn [Py.replace_go]. by rewrite Hp. Qed.

(** Once a directory name holds [img], the rewritten path no longer
    starts with it. *)
Lemma replace_img_breaks_prefix u v :
  Py.str_in "img" u = true →
  String.prefix u (Py.replace (u +:+ v) "img" "mask") = false.
Proof.
  unfold Py.replace. induction u as [|c u IH]; [done|].
  intros Hin. change (String c u +:+ v) with (String c (u +:+ v)).
  destruct (String.prefix "img" (String c (u +:+ v))) eqn:Hp.
  - rewrite (replace_go_match _ _ _ _ Hp).
    rewrite prefix_cons in Hp. apply andb_prop in Hp as [Hc _].
    apply bool_decide_eq_true in Hc as <-. done.
  - rewrite (replace_go_copy _ _ _ _ Hp), prefix_refl_cons.
    apply IH. cbn [Py.str_in] in Hin.
    apply orb_prop in Hin as [Hin|Hin]; [|done].
    apply (prefix_app_r _ _ v) in Hin.
    change (String c u +:+ v) with (String c (u +:+ v)) in Hin. congruence.
Qed.

Lemma prefix_nil t : String.prefix "" t = true.
Proof. by destruct t. Qed.

(** A match of [img] spelled out. *)
Lemma prefix_img_inv s :
  String.prefix "img" s = true → ∃ t, s = "img" +:+ t.
Proof.
  destruct s as [|c1 [|c2 [|c3 t]]]; try done.
  - rewrite prefix_cons. simpl. by rewrite andb_false_r.
  - rewrite !prefix_cons. simpl. by rewrite !andb_false_r.
  - rewrite !prefix_cons, prefix_nil. intros Hp.
    repeat (apply andb_prop in Hp as [?%bool_decide_eq_true Hp]). subst.
    by exists t.
Qed.

Lemma replace_img_match t :
  Py.replace_go "img" "mask" 0 ("img" +:+ t)
  = "mask" +:+ Py.replace_go "img" "mask" 0 t.
Proof.
  change ("img" +:+ t) with (String "i" (String "m" (String "g" t))).
  rewrite replace_go_match; [done|].
  by rewrite !prefix_cons, prefix_nil.
Qed.

Lemma replace_img_head s :
  Py.first (Py.replace_go "img" "mask" 0 s)
  = if String.prefix "img" s then Some "m"%char else Py.first s.
Proof.
  destruct s as [|c s]; [done|].
  destruct (String.prefix "img" (String c s)) eqn:Hp.
  - by rewrite (replace_go_match _ _ _ _ Hp).
  - by rewrite (replace_go_copy _ _ _ _ Hp).
Qed.

(** No [img] is left: every occurrence the scan meets is replaced, and
    the replacement makes no new one. *)
Lemma replace_img_complete s :
  Py.str_in "img" (Py.replace s "img" "mask") = false.
Proof.
  unfold Py.replace.
  induction s as [s IH] using (induction_ltof1 _ String.length).
  unfold ltof in IH. destruct s as [|c s]; [done|].
  destruct (String.prefix "img" (String c s)) eqn:Hp.
  - destruct (prefix_img_inv _ Hp) as [t Ht]. rewrite Ht, replace_img_match.
    change ("mask" +:+ ?x) with (String "m" (String "a" (String "s" (String "k" x)))).
    cbn [Py.str_in]. rewrite !prefix_cons. cbn [bool_decide decide_rel orb andb].
    rewrite !bool_decide_eq_false_2 by done. cbn [orb andb].
    apply IH. rewrite Ht.
    change ("img" +:+ t) with (String "i" (String "m" (String "g" t))).
    simpl. lia.
  - rewrite (replace_go_copy _ _ _ _ Hp). cbn [Py.str_in].
    rewrite (IH s) by (simpl; lia). rewrite orb_false_r.
    destruct (String.prefix "img" (String c (Py.replace_go "img" "mask" 0 s)))
      eqn:Hq; [exfalso|done].
    pose proof (replace_img_head s) as Hh1.
    destruct (Py.replace_go "img" "mask" 0 s) as [|d1 [|d2 r]] eqn:Hr.
    { by rewrite prefix_cons, andb_comm in Hq. }
    { rewrite !prefix_cons in Hq. simpl in Hq. by rewrite !andb_false_r in Hq. }
    rewrite !prefix_cons, prefix_nil in Hq.
    repeat (apply andb_prop in Hq as [?%bool_decide_eq_true Hq]). subst.
    destruct (String.prefix "img" s) eqn:Hs.
    { destruct (prefix_img_inv _ Hs) as [t Ht]. subst s.
      rewrite replace_img_match in Hr. by inversion Hr. }
    destruct s as [|e1 s]; [done|]. simpl in Hh1. injection Hh1 as <-.
    rewrite (replace_go_copy _ _ _ _ Hs) in Hr. injection Hr as Hr.
    pose proof (replace_img_head s) as Hh2. rewrite Hr in Hh2. simpl in Hh2.
    destruct (String.prefix "img" s); [done|].
    destruct s as [|e2 s]; [done|]. simpl in Hh2. injection Hh2 as <-.
    by rewrite !prefix_cons, prefix_nil in Hp.
Qed.

End StringFacts.

(** * The mask path *)

(** C10. The mask path is the joined path of the sample with every [img]
    replaced by [mask] (none is left), so when the source directory
    itself holds [img] the mask is sought under another directory: the
    mask path does not start with the source directory. *)
Theorem mask_path_rewrites_directory (src_dir img_id : string) :
  mask_path src_dir img_id = Py.replace (Path.osp_join src_dir img_id) "img" "mask"
  ∧ Py.str_in "img" (mask_path src_dir img_id) = false
  ∧ (Py.str_in "img" src_dir = true →
     Py.startswith img_id "/" = false →
     Py.startswith (mask_path src_dir img_id) src_dir = false).
Proof.
  split; [done|]. split; [apply replace_img_complete|].
  intros Hin Hid. unfold mask_path, img_path, Path.osp_join, Py.startswith in *.
  rewrite Hid. destruct (_ || _).
  - by apply replace_img_breaks_prefix.
  - by apply (replace_img_breaks_prefix src_dir ("/" +:+ img_id)).
Qed.

Lemma mask_path_rewrites_directory_witness :
  mask_path "data/img_set" "img_001.png" = "data/mask_set/mask_001.png"
  ∧ Py.startswith (mask_path "data/img_set" "img_001.png") "data/img_set" = false.
Proof.
  split; [reflexivity|].
  exact (proj2 (proj2 (mask_path_rewrites_directory "data/img_set" "img_001.png"))
           eq_refl eq_refl).
Defined.

(** * The phrase table *)

Lemma dict_display_snoc entries k v :
  dict_display (entries ++ [(k, v)])%list = <[k := v]> (dict_display entries).
Proof. unfold dict_display. by rewrite foldl_snoc. Qed.

(** A display is the map of its entries read from the last one back. *)
Lemma dict_display_reverse entries :
  dict_display entries = list_to_map (reverse entries).
Proof.
  induction entries as [|[k v] entries IH] using rev_ind; [done|].
  by rewrite dict_display_snoc, reverse_snoc, IH.
Qed.

(** C9. The phrase table is one mapping: ["farm"], written twice, holds the
    phrase written last; every other key written holds the one phrase
    written with it; no other key is present. *)
Theorem bkg_to_prompt_last_farm_wins :
  bkg_to_prompt !! "farm" = Some "on the farm"
  ∧ ("farm", "in the farm") ∈ bkg_to_prompt_entries
  ∧ (∀ k v, (k, v) ∈ bkg_to_prompt_entries → k ≠ "farm" →
       bkg_to_prompt !! k = Some v)
  ∧ (∀ k, k ∉ bkg_to_prompt_entries.*1 → bkg_to_prompt !! k = None).
Proof.
  split; [by vm_compute|]. split; [apply (bool_decide_unpack _); by vm_compute|].
  split.
  - assert (Forall (λ kv, kv.1 ≠ "farm" → bkg_to_prompt !! kv.1 = Some kv.2)
              bkg_to_prompt_entries) as Hall.
    { apply (bool_decide_unpack _). by vm_compute. }
    intros k v Hkv. by apply (proj1 (Forall_forall _ _) Hall (k, v)).
  - intros k Hk. unfold bkg_to_prompt. rewrite dict_display_reverse.
    apply not_elem_of_list_to_map_1. by rewrite fmap_reverse, elem_of_reverse.
Qed.

(** * Arrays *)
Section ArrayFacts.
Context {A B C : Type}.

Lemma get3_map3 (f : A → B) (a : Np.array3 A) i j c :
  Np.get3 (Np.map3 f a) i j c = f <$> Np.get3 a i j c.
Proof.
  unfold Np.get3, Np.map3. rewrite list_lookup_fmap.
  destruct (a !! i) as [row|]; [|done]. simpl. rewrite list_lookup_fmap.
  destruct (row !! j) as [px|]; [|done]. simpl. by rewrite list_lookup_fmap.
Qed.

Lemma get3_zip_with3 (f : A → B → C) (a : Np.array3 A) (b : Np.array3 B) i j c :
  Np.get3 (Np.zip_with3 f a b) i j c
  = x ← Np.get3 a i j c; y ← Np.get3 b i j c; Some (f x y).
Proof.
  unfold Np.get3, Np.zip_with3. rewrite lookup_zip_with.
  destruct (a !! i) as [ra|]; [|done]. simpl.
  destruct (b !! i) as [rb|]; simpl.
  2:{ destruct (ra !! j) as [pa|]; [|done]. simpl. by destruct (pa !! c). }
  rewrite lookup_zip_with.
  destruct (ra !! j) as [pa|]; [|done]. simpl.
  destruct (rb !! j) as [pb|]; simpl; [|by destruct (pa !! c)].
  by rewrite lookup_zip_with.
Qed.

(** In an array of shape (h, w, ch) exactly the indices below the shape
    hold an element. *)
Lemma get3_is_Some h w ch (a : Np.array3 A) i j c :
  Np.has_shape h w ch a →
  is_Some (Np.get3 a i j c) ↔ (i < h ∧ j < w ∧ c < ch)%nat.
Proof.
  intros [Hh Hrows]. unfold Np.get3. split.
  - intros [x Hx]. destruct (a !! i) as [row|] eqn:Hi; [|done]. simpl in Hx.
    destruct (row !! j) as [px|] eqn:Hj; [|done]. simpl in Hx.
    destruct (Forall_lookup_1 _ _ _ _ Hrows Hi) as [Hw Hpx].
    pose proof (Forall_lookup_1 _ _ _ _ Hpx Hj) as Hc.
    apply lookup_lt_Some in Hi, Hj, Hx. simpl in *. lia.
  - intros (Hi & Hj & Hc). rewrite <- Hh in Hi.
    apply lookup_lt_is_Some_2 in Hi as [row Hi]. rewrite Hi. simpl.
    destruct (Forall_lookup_1 _ _ _ _ Hrows Hi) as [Hw Hpx].
    simpl in *. rewrite <- Hw in Hj. apply lookup_lt_is_Some_2 in Hj as [px Hj].
    rewrite Hj. simpl. apply lookup_lt_is_Some_2.
    by rewrite (Forall_lookup_1 _ _ _ _ Hpx Hj).
Qed.

Lemma all3_get3 (P : A → Prop) (a : Np.array3 A) i j c x :
  Np.all3 P a → Np.get3 a i j c = Some x → P x.
Proof.
  unfold Np.all3, Np.get3. intros Hall Hx.
  destruct (a !! i) as [row|] eqn:Hi; [|done]. simpl in Hx.
  destruct (row !! j) as [px|] eqn:Hj; [|done]. simpl in Hx.
  eapply Forall_lookup_1 in Hall; [|done].
  eapply Forall_lookup_1 in Hall; [|done].
  by eapply Forall_lookup_1 in Hall.
Qed.

Lemma map3_involutive (f : A → A) (P : A → Prop) (a : Np.array3 A) :
  (∀ x, P x → f (f x) = x) → Np.all3 P a → Np.map3 f (Np.map3 f a) = a.
Proof.
  intros Hf. unfold Np.all3, Np.map3.
  induction 1 as [|row a Hrow _ IHa]; [done|]. simpl. f_equal; [|done].
  induction Hrow as [|px row Hpx _ IHrow]; [done|]. simpl. f_equal; [|done].
  induction Hpx as [|x px Hx _ IHpx]; [done|]. simpl. f_equal; [by apply Hf|done].
Qed.

End ArrayFacts.

(** A property of every [uint8] is checked on the 256 values. *)
Lemma uint8_cases (P : Z → bool) :
  forallb P (Z.of_nat <$> seq 0 256) = true → ∀ z, Np.is_uint8 z → P z = true.
Proof.
  intros Hall z Hz. rewrite forallb_forall in Hall. apply Hall.
  apply list_elem_of_In, list_elem_of_fmap. exists (Z.to_nat z).
  split; [unfold Np.is_uint8 in Hz; lia|].
  apply elem_of_seq. unfold Np.is_uint8 in Hz. lia.
Qed.

(** * The compositor, element by element *)

Lemma invert_px_involutive m : Np.is_uint8 m → invert_px (invert_px m) = m.
Proof.
  unfold Np.is_uint8, invert_px, Np.uint8. intros Hm.
  rewrite (Z.mod_small (255 - m)) by lia. rewrite Z.mod_small; lia.
Qed.

(** Only the mask value 0 is normalized to 0. *)
Lemma normalize_px_zero m :
  Np.is_uint8 m → (normalize_px m =? 0)%float = true → m = 0.
Proof.
  intros Hm Hz.
  pose proof (uint8_cases
    (λ m, implb (normalize_px m =? 0)%float (m =? 0)) eq_refl m Hm) as Hc.
  simpl in Hc. rewrite Hz in Hc. by apply Z.eqb_eq.
Qed.

(** Under a mask value of 0 the merged element is the foreground's. *)
Lemma merge_px_mask_zero f b :
  Np.is_uint8 f → Np.is_uint8 b → merge_foreground_px f 0 b = f.
Proof.
  intros Hf Hb. apply Z.eqb_eq.
  apply (uint8_cases (λ f, merge_foreground_px f 0 b =? f)); [|done].
  revert b Hb. apply (uint8_cases (λ b,
    forallb (λ f, merge_foreground_px f 0 b =? f) (Z.of_nat <$> seq 0 256))).
  by vm_compute.
Qed.

Lemma get3_merge_foreground (image mask_image bkg : Image) i j c :
  Np.get3 (merge_foreground image mask_image bkg) i j c
  = m ← Np.get3 mask_image i j c; b ← Np.get3 bkg i j c;
    f ← Np.get3 image i j c; Some (merge_foreground_px f m b).
Proof.
  unfold merge_foreground, merge_foreground_float, merge_max, mask_out, normalize_mask.
  rewrite get3_map3, get3_zip_with3, get3_zip_with3, get3_map3.
  destruct (Np.get3 mask_image i j c); [|done]. simpl.
  destruct (Np.get3 bkg i j c); [|done]. simpl.
  by destruct (Np.get3 image i j c).
Qed.

(** C4. Inverting a mask twice gives the mask back. *)
Theorem invert_mask_involutive (mask : Image) :
  Np.all3 Np.is_uint8 mask → invert_mask (invert_mask mask) = mask.
Proof. apply map3_involutive, invert_px_involutive. Qed.

Lemma invert_mask_involutive_witness :
  invert_mask (invert_mask Demo.fg_mask) = Demo.fg_mask.
Proof.
  apply invert_mask_involutive. apply (bool_decide_unpack _). by vm_compute.
Defined.

(** C3. Where the normalized mask is 0 the composite holds the
    foreground's value, whatever the background holds there. *)
Theorem merge_keeps_foreground h w ch (image mask_image bkg : Image) i j c m :
  Np.has_shape h w ch image → Np.has_shape h w ch mask_image →
  Np.has_shape h w ch bkg →
  Np.all3 Np.is_uint8 image → Np.all3 Np.is_uint8 mask_image →
  Np.all3 Np.is_uint8 bkg →
  Np.get3 mask_image i j c = Some m →
  (normalize_px m =? 0)%float = true →
  is_Some (Np.get3 image i j c) ∧
  Np.get3 (merge_foreground image mask_image bkg) i j c = Np.get3 image i j c.
Proof.
  intros Hsi Hsm Hsb Hui Hum Hub Hm Hz.
  assert (i < h ∧ j < w ∧ c < ch)%nat as Hidx.
  { apply (get3_is_Some h w ch mask_image i j c Hsm). by rewrite Hm. }
  destruct (proj2 (get3_is_Some _ _ _ image i j c Hsi) Hidx) as [f Hf].
  destruct (proj2 (get3_is_Some _ _ _ bkg i j c Hsb) Hidx) as [b Hb].
  split; [eauto|]. rewrite get3_merge_foreground, Hm, Hb, Hf. simpl. f_equal.
  rewrite (normalize_px_zero m);
    [|exact (all3_get3 _ _ _ _ _ _ Hum Hm)|done].
  apply merge_px_mask_zero;
    [exact (all3_get3 _ _ _ _ _ _ Hui Hf)|exact (all3_get3 _ _ _ _ _ _ Hub Hb)].
Qed.

Lemma merge_keeps_foreground_witness :
  is_Some (Np.get3 Demo.fg 0 0 1)
  ∧ Np.get3 (merge_foreground Demo.fg (invert_mask Demo.fg_mask) Demo.scene1) 0 0 1
    = Np.get3 Demo.fg 0 0 1.
Proof.
  apply (merge_keeps_foreground 2 2 3 Demo.fg (invert_mask Demo.fg_mask)
           Demo.scene1 0 0 1 0);
    try (apply (bool_decide_unpack _); vm_compute; exact I);
    vm_compute; reflexivity.
Defined.

(** * Reasoning about computations *)
Section Monad.
Context `{Library}.

Lemma post_ret {A} (a : A) w Q J : Q a w → post (mret (M := M _) a w) Q J.
Proof. done. Qed.

Lemma post_raise {A} e w (Q : A → world _ → Prop) J :
  J e w → post (raise e w) Q J.
Proof. done. Qed.

Lemma post_bind {A B} (m : M _ A) (f : A → M _ B) w Q J :
  post (m w) (λ a w', post (f a w') Q J) J → post ((m ≫= f) w) Q J.
Proof.
  unfold post, mbind, M_bind. by destruct (m w) as [[a|e] w'].
Qed.

Lemma post_mono {A} (r : result A * world _) (Q Q' : A → world _ → Prop)
    (J J' : exn → world _ → Prop) :
  post r Q J → (∀ a w, Q a w → Q' a w) → (∀ e w, J e w → J' e w) →
  post r Q' J'.
Proof. unfold post. destruct r as [[a|e] w]; simpl; auto. Qed.

Lemma post_Ok {A} (r : result A * world _) Q J a w :
  post r Q J → r = (Ok a, w) → Q a w.
Proof. by intros Hp ->. Qed.

Lemma post_Raise {A} (r : result A * world _) Q J e w :
  post r Q J → r = (Raise e, w) → J e w.
Proof. by intros Hp ->. Qed.

(** The loop rule: an invariant of the elements done so far. *)
Lemma for_each_post {A S} (body : A → S → M _ S)
    (I : list A → S → world _ → Prop) (J : exn → world _ → Prop) l :
  (∀ pre x s w, I pre s w → post (body x s w) (I (pre ++ [x])%list) J) →
  ∀ s w, I [] s w → post (for_each body l s w) (I l) J.
Proof.
  intros Hbody.
  cut (∀ pre s w, I pre s w → post (for_each body l s w) (I (pre ++ l)%list) J).
  { intros Hcut s w. apply (Hcut []). }
  induction l as [|x l IH]; intros pre s w HI; simpl.
  - apply post_ret. by rewrite app_nil_r.
  - apply post_bind. eapply post_mono; [by apply Hbody| |done].
    intros s' w' HI'. simpl. rewrite (cons_middle x pre l), app_assoc.
    by apply IH.
Qed.

End Monad.

(** * The background catalog *)
Section Catalog.
Context `{Library}.

Lemma rng_only_ret {A} (a : A) : rng_only (mret a).
Proof. by intros w1 w2 Hw. Qed.

Lemma rng_only_raise {A} e : rng_only (raise (A := A) e).
Proof. by intros w1 w2 Hw. Qed.

Lemma rng_only_with_rng {A} (f : rng_state → A * rng_state) :
  rng_only (with_rng f).
Proof. intros w1 w2 Hw. unfold with_rng. simpl. by rewrite Hw. Qed.

Lemma rng_only_bind {A B} (m : M _ A) (f : A → M _ B) :
  rng_only m → (∀ a, rng_only (f a)) → rng_only (m ≫= f).
Proof.
  intros Hm Hf w1 w2 Hw. unfold mbind, M_bind.
  destruct (Hm w1 w2 Hw) as [Hr Hg].
  destruct (m w1) as [[a1|e1] w1'], (m w2) as [[a2|e2] w2']; simplify_eq/=;
    [by apply Hf|done].
Qed.

Lemma rng_only_for_each {A S} (body : A → S → M _ S) l s :
  (∀ x s, rng_only (body x s)) → rng_only (for_each body l s).
Proof.
  intros Hbody. revert s. induction l as [|x l IH]; intros s; simpl.
  - apply rng_only_ret.
  - apply rng_only_bind; [apply Hbody|apply IH].
Qed.

Lemma rng_only_choice a size : rng_only (np_random_choice a size).
Proof.
  unfold np_random_choice. repeat case_match; try apply rng_only_raise.
  apply rng_only_bind; [apply rng_only_with_rng|intros; apply rng_only_ret].
Qed.

Lemma rng_only_scan_directory args entry d :
  rng_only (scan_directory args entry d).
Proof.
  destruct entry as [[root dirs] files]. unfold scan_directory.
  case_bool_decide; [apply rng_only_ret|].
  apply rng_only_bind; [apply rng_only_choice|intros; apply rng_only_ret].
Qed.

Lemma rng_only_scan_root args bkg_dir d : rng_only (scan_root args bkg_dir d).
Proof. apply rng_only_for_each. intros. apply rng_only_scan_directory. Qed.

(** After the seeding, the build reads and writes the generator only. *)
Lemma build_catalog_seeded (args : Args) (w1 w2 : world _) :
  (build_catalog args w1).1 = (build_catalog args w2).1
  ∧ rng (build_catalog args w1).2 = rng (build_catalog args w2).2.
Proof.
  unfold build_catalog, mbind, M_bind. simpl.
  apply rng_only_for_each; [|done].
  intros. apply rng_only_scan_root.
Qed.

(** C7. The catalog depends on the directory tree and the arguments, not
    on the state the run starts in: [main] seeds the generator with 0
    before the first draw, so any two runs over one directory tree build
    the same catalog and leave the generator in the same state. *)
Theorem build_catalog_deterministic (args : Args) (w1 w2 : world _) :
  (build_catalog args w1).1 = (build_catalog args w2).1
  ∧ rng (build_catalog args w1).2 = rng (build_catalog args w2).2.
Proof. apply build_catalog_seeded. Qed.

(** The files of a directory are sampled from the same sorted list in
    whatever order the directory lists them. *)
Lemma image_files_Permutation (files1 files2 : list string) :
  files1 ≡ₚ files2 → image_files files1 = image_files files2.
Proof.
  intros Hp. unfold image_files.
  apply (Sorted_unique String.le); try apply Sorted_merge_sort; try apply _.
  by rewrite !merge_sort_Permutation, Hp.
Qed.

(** *** Sampling *)

Lemma omap_lookup_seq {A} (pre a : list A) :
  omap (λ i, (pre ++ a)%list !! i) (seq (length pre) (length a)) = a.
Proof.
  revert pre. induction a as [|x a IH]; intros pre; [done|].
  cbn [length seq omap list_omap]. rewrite list_lookup_middle by done. f_equal.
  specialize (IH (pre ++ [x])%list).
  by rewrite <- app_assoc, length_app, Nat.add_1_r in IH.
Qed.

Lemma length_omap_total {A B} (f : A → option B) l :
  Forall (λ x, is_Some (f x)) l → length (omap f l) = length l.
Proof.
  induction 1 as [|x l [y Hy] _ IH]; [done|]. cbn [omap list_omap].
  rewrite Hy. simpl. by rewrite <- IH.
Qed.

(** Reading a list at a permutation of its indices permutes it. *)
Lemma omap_lookup_permutation {A} (a : list A) perm :
  perm ≡ₚ seq 0 (length a) → omap (λ i, a !! i) perm ≡ₚ a.
Proof.
  intros ->. by rewrite <- (omap_lookup_seq [] a) at 2.
Qed.

(** A sample without replacement: [k] elements, a sub-multiset of the
    population. *)
Lemma sample_spec {A} (a : list A) perm k :
  perm ≡ₚ seq 0 (length a) → (k ≤ length a)%nat →
  let sel := omap (λ i, a !! i) (take k perm) in
  length sel = k ∧ sel ⊆+ a.
Proof.
  intros Hperm Hk. simpl. split.
  - rewrite length_omap_total.
    + rewrite length_take, Hperm, length_seq. lia.
    + apply Forall_take. rewrite Hperm. apply Forall_forall.
      intros i Hi%elem_of_seq. apply lookup_lt_is_Some. lia.
  - rewrite <- (omap_lookup_permutation a perm Hperm).
    rewrite <- (take_drop k perm) at 2. rewrite omap_app.
    by apply submseteq_inserts_r.
Qed.

Lemma np_random_choice_spec (a : list string) (size : Z) w :
  a ≠ [] →
  match np_random_choice a size w with
  | (Ok sel, w') =>
      0 ≤ size ≤ Z.of_nat (length a) ∧
      length sel = Z.to_nat size ∧ sel ⊆+ a ∧
      text_files w' = text_files w ∧ trace w' = trace w
  | (Raise e, w') =>
      w' = w ∧
      ((Z.of_nat (length a) < size ∧ e = ValueError too_large) ∨
       (size < 0 ∧ e = ValueError "negative dimensions are not allowed"))
  end.
Proof.
  intros Ha. unfold np_random_choice.
  rewrite bool_decide_eq_false_2
    by (intros [Hl _]; by apply length_zero_iff_nil in Hl).
  destruct (Z.ltb_spec (Z.of_nat (length a)) size) as [Hlt|Hge].
  { split; [done|]. left. by split. }
  destruct (Z.ltb_spec size 0) as [Hneg|Hpos].
  { split; [done|]. right. by split. }
  unfold mbind, M_bind, with_rng. simpl.
  destruct (sample_spec a (np_random_permutation (length a) (rng w)).1
              (Z.to_nat size)) as [Hlen Hsub];
    [apply permutation_spec|lia|].
  repeat split; try done; lia.
Qed.

(** What one directory does to the catalog: nothing when it holds no
    image, an exception when it holds fewer than the maximum, an entry of
    exactly the maximum otherwise. *)
Lemma scan_directory_spec args root dirs files d w :
  let fs := image_files files in
  let n := Z.of_nat (length fs) in
  let m := max_num_bkg_scenes args in
  match scan_directory args (root, dirs, files) d w with
  | (Ok d', w') =>
      (fs = [] ∧ d' = d ∧ w' = w) ∨
      (fs ≠ [] ∧ 0 ≤ m ≤ n ∧
       ∃ sel, d' = dict_set d (Path.stem root) sel ∧
              length sel = Z.to_nat m ∧
              sel ⊆+ (Path.osp_join root <$> fs))
  | (Raise e, w') =>
      fs ≠ [] ∧ w' = w ∧
      ((n < m ∧ e = ValueError too_large) ∨
       (m < 0 ∧ e = ValueError "negative dimensions are not allowed"))
  end.
Proof.
  intros fs n m. unfold scan_directory. fold fs.
  case_bool_decide as Hfs; [by left|].
  unfold mbind, M_bind.
  assert (Path.osp_join root <$> fs ≠ []) as Hne by (by destruct fs).
  pose proof (np_random_choice_spec (Path.osp_join root <$> fs) m w Hne) as Hc.
  rewrite length_fmap in Hc. fold n in Hc.
  destruct (np_random_choice _ _ w) as [[sel|e] w'].
  - destruct Hc as (Hm & Hlen & Hsub & _). right. eauto 10.
  - destruct Hc as [-> Hc]. done.
Qed.

(** A loop over a list one of whose elements always raises [e], while
    the others return or raise [e], raises [e]. *)
Lemma for_each_raises {A S} (body : A → S → M _ S) (e : exn) l x0 :
  x0 ∈ l →
  (∀ x s w, post (body x s w) (λ _ _, True) (λ e' _, e' = e)) →
  (∀ s w, post (body x0 s w) (λ _ _, False) (λ e' _, e' = e)) →
  ∀ s w, post (for_each body l s w) (λ _ _, False) (λ e' _, e' = e).
Proof.
  intros Hin Hall Hx0. induction l as [|x l IH]; intros s w.
  { by apply elem_of_nil in Hin. }
  simpl. apply post_bind. apply elem_of_cons in Hin as [<-|Hin].
  - eapply post_mono; [apply Hx0|done|done].
  - eapply post_mono; [apply Hall| |done]. intros s' w' _. by apply IH.
Qed.

Lemma scan_directory_raises_too_large args entry d w :
  0 < max_num_bkg_scenes args →
  post (scan_directory args entry d w) (λ _ _, True)
       (λ e _, e = ValueError too_large).
Proof.
  intros Hm. destruct entry as [[root dirs] files].
  pose proof (scan_directory_spec args root dirs files d w) as Hs.
  unfold post. destruct (scan_directory _ _ _ _) as [[d'|e] w']; [done|].
  simpl in *. destruct Hs as (_ & _ & [[_ ->]|[? _]]); [done|lia].
Qed.

Lemma scan_directory_too_few args root dirs files d w :
  (0 < length (image_files files))%nat →
  Z.of_nat (length (image_files files)) < max_num_bkg_scenes args →
  post (scan_directory args (root, dirs, files) d w) (λ _ _, False)
       (λ e _, e = ValueError too_large).
Proof.
  intros Hpos Hlt.
  pose proof (scan_directory_spec args root dirs files d w) as Hs.
  unfold post. destruct (scan_directory _ _ _ _) as [[d'|e] w']; simpl in *.
  - destruct Hs as [[Hnil _]|(_ & ? & _)]; [|lia].
    rewrite Hnil in Hpos. simpl in Hpos. lia.
  - destruct Hs as (_ & _ & [[_ ->]|[? _]]); [done|lia].
Qed.

(** C1, where the code leaves the specification: a directory that holds
    images, but fewer than the maximum, ends the build with numpy's
    [ValueError]; no catalog is built. *)
Theorem build_catalog_too_few_files (args : Args) (w : world _)
    (bkg_root root : string) (dirs files : list string) :
  bkg_root ∈ bkg_dir args →
  (root, dirs, files) ∈ os_walk bkg_root →
  (0 < length (image_files files))%nat →
  Z.of_nat (length (image_files files)) < max_num_bkg_scenes args →
  ∃ w', build_catalog args w = (Raise (ValueError too_large), w').
Proof.
  intros Hroot Hentry Hpos Hlt.
  assert (0 < max_num_bkg_scenes args) as Hm by lia.
  assert (post (build_catalog args w) (λ _ _, False)
               (λ e _, e = ValueError too_large)) as Hpost.
  { unfold build_catalog. apply post_bind. unfold post at 1. simpl.
    apply (for_each_raises _ _ _ bkg_root Hroot).
    - intros x s w0. apply (for_each_post _ (λ _ _ _, True)); [|done].
      intros. by apply scan_directory_raises_too_large.
    - intros s w0. apply (for_each_raises _ _ _ (root, dirs, files) Hentry).
      + intros. by apply scan_directory_raises_too_large.
      + intros. by apply scan_directory_too_few. }
  unfold post in Hpost.
  destruct (build_catalog args w) as [[d|e] w']; simpl in Hpost; [done|].
  subst e. by exists w'.
Qed.

End Catalog.

Lemma build_catalog_too_few_files_witness :
  ∃ w', @build_catalog (Demo.library Demo.fs_one_image) Demo.args0
          (Demo.world0 Demo.fs_one_image)
        = (Raise (ValueError too_large), w').
Proof.
  apply (@build_catalog_too_few_files (Demo.library Demo.fs_one_image) Demo.args0
           (Demo.world0 Demo.fs_one_image) "bkg" "bkg/garden" [] ["a.png"]).
  - apply (bool_decide_unpack _). by vm_compute.
  - apply (bool_decide_unpack _). by vm_compute.
  - vm_compute. lia.
  - by vm_compute.
Defined.

Lemma image_files_Permutation_witness :
  image_files ["b.JPG"; "notes.txt"; "a.png"]
  = image_files ["a.png"; "b.JPG"; "notes.txt"].
Proof.
  apply image_files_Permutation. apply (bool_decide_unpack _).
  vm_compute. exact I.
Defined.

(** *** The entries of a catalog that is built *)
Section CatalogEntries.
Context `{Library}.

(** The loop rule again, for a body that is known only on the elements
    of the list. *)
Lemma for_each_post_elem {A S} (body : A → S → M _ S)
    (I : S → world _ → Prop) (J : exn → world _ → Prop) l :
  (∀ x s w, x ∈ l → I s w → post (body x s w) I J) →
  ∀ s w, I s w → post (for_each body l s w) I J.
Proof.
  induction l as [|x l IH]; intros Hbody s w HI; simpl; [by apply post_ret|].
  apply post_bind. eapply post_mono; [apply Hbody; [left|done]| |done].
  intros s' w' HI'. simpl. apply IH; [|done].
  intros y s0 w0 Hy. apply Hbody. by right.
Qed.

Lemma Forall_dict_set {V} (P : string * V → Prop) d k v :
  Forall P d → P (k, v) → Forall P (dict_set d k v).
Proof.
  intros Hd Hkv. induction Hd as [|[k' v'] d Hx Hd IH]; simpl.
  - by apply Forall_singleton.
  - case_decide; subst; constructor; done.
Qed.

Lemma build_catalog_post args w :
  post (build_catalog args w)
    (λ d _, Forall (sampled_from args) d)
    (λ _ _, max_num_bkg_scenes args < 0 ∨ too_few_somewhere args).
Proof.
  unfold build_catalog. apply post_bind. unfold post at 1. simpl.
  apply (for_each_post_elem _ (λ d _, Forall (sampled_from args) d));
    [|by apply Forall_nil].
  intros bkg_root d w1 Hroot Hd. unfold scan_root.
  apply (for_each_post_elem _ (λ d _, Forall (sampled_from args) d)); [|done].
  intros [[root dirs] files] d' w2 Hentry Hd'.
  pose proof (scan_directory_spec args root dirs files d' w2) as Hs.
  unfold post. destruct (scan_directory _ _ _ _) as [[d''|e] w3]; simpl in *.
  - destruct Hs as [(_ & -> & _)|(Hne & Hm & sel & -> & Hlen & Hsub)]; [done|].
    apply Forall_dict_set; [done|]. by exists bkg_root, root, dirs, files.
  - destruct Hs as (Hne & _ & [[Hlt _]|[Hneg _]]); [right|by left].
    by exists bkg_root, root, dirs, files.
Qed.

(** With a non-negative maximum and, in every walked directory, either no
    image or at least the maximum, the build returns; each entry holds
    exactly the maximum number of paths, drawn without replacement from
    the directory's sorted image files. *)
Theorem build_catalog_enough_files (args : Args) (w : world _) :
  0 ≤ max_num_bkg_scenes args →
  (∀ bkg_root root dirs files,
     bkg_root ∈ bkg_dir args → (root, dirs, files) ∈ os_walk bkg_root →
     image_files files = []
     ∨ max_num_bkg_scenes args ≤ Z.of_nat (length (image_files files))) →
  ∃ d w', build_catalog args w = (Ok d, w') ∧ Forall (sampled_from args) d.
Proof.
  intros Hmax Henough. pose proof (build_catalog_post args w) as Hp.
  unfold post in Hp. destruct (build_catalog args w) as [[d|e] w']; simpl in Hp.
  - by exists d, w'.
  - exfalso. destruct Hp as [?|(bkg_root & root & dirs & files & Hr & He & Hne & Hlt)];
      [lia|].
    destruct (Henough _ _ _ _ Hr He); [done|lia].
Qed.

End CatalogEntries.

Lemma build_catalog_enough_files_witness :
  ∃ d w', @build_catalog (Demo.library Demo.fs0) Demo.args0 (Demo.world0 Demo.fs0)
          = (Ok d, w')
          ∧ Forall (@sampled_from (Demo.library Demo.fs0) Demo.args0) d.
Proof.
  apply (build_catalog_enough_files (H := Demo.library Demo.fs0)).
  - vm_compute. discriminate.
  - intros bkg_root root dirs files Hr He. simpl in Hr.
    apply list_elem_of_singleton in Hr as ->.
    change (os_walk "bkg") with
      [("bkg/garden", @nil string, ["b.JPG"; "notes.txt"; "a.png"; "c.jpeg"]);
       ("bkg", ["garden"], @nil string)] in He.
    apply elem_of_cons in He as [He|He].
    + injection He as -> -> ->. right. vm_compute. discriminate.
    + apply list_elem_of_singleton in He. injection He as -> -> ->. by left.
Defined.

(** * Computations that write nothing *)
Section Silent.
Context `{Library}.

Lemma silent_ret {A} (a : A) : silent (mret a).
Proof. done. Qed.

Lemma silent_raise {A} e : silent (raise (A := A) e).
Proof. done. Qed.

Lemma silent_with_rng {A} (f : rng_state → A * rng_state) : silent (with_rng f).
Proof. done. Qed.

Lemma silent_seed n : silent (seed n).
Proof. done. Qed.

Lemma silent_bind {A B} (m : M _ A) (f : A → M _ B) :
  silent m → (∀ a, silent (f a)) → silent (m ≫= f).
Proof.
  intros Hm Hf w. unfold mbind, M_bind. specialize (Hm w).
  destruct (m w) as [[a|e] w1]; simpl in *; [|done].
  destruct (Hf a w1) as [-> ->]. done.
Qed.

Lemma silent_for_each {A S} (body : A → S → M _ S) l s :
  (∀ x s, silent (body x s)) → silent (for_each body l s).
Proof.
  intros Hbody. revert s. induction l as [|x l IH]; intros s; simpl.
  - apply silent_ret.
  - apply silent_bind; [apply Hbody|apply IH].
Qed.

Lemma silent_Image_open path : silent (Image_open path).
Proof. unfold Image_open. case_match; [apply silent_ret|apply silent_raise]. Qed.

Lemma silent_resize im size : silent (resize im size).
Proof. unfold resize. case_match; [apply silent_raise|apply silent_ret]. Qed.

Lemma silent_load_background args bkg_file :
  silent (load_background args bkg_file).
Proof.
  unfold load_background, np_random_randint_uint8. repeat case_match.
  - apply silent_raise.
  - apply silent_bind; [apply silent_with_rng|intros; apply silent_ret].
  - apply silent_bind; [apply silent_Image_open|intros; apply silent_ret].
Qed.

Lemma silent_compose_pair args ip mp bkg_file :
  silent (compose_pair args ip mp bkg_file).
Proof.
  unfold compose_pair.
  repeat (apply silent_bind;
          [first [apply silent_load_background|apply silent_Image_open
                 |apply silent_resize]|intros]).
  apply silent_ret.
Qed.

Lemma silent_lookup_prompt k : silent (lookup_prompt k).
Proof. unfold lookup_prompt. case_match; [apply silent_ret|apply silent_raise]. Qed.

Lemma silent_choice a size : silent (np_random_choice a size).
Proof.
  unfold np_random_choice. repeat case_match; try apply silent_raise.
  apply silent_bind; [apply silent_with_rng|intros; apply silent_ret].
Qed.

Lemma silent_build_catalog args : silent (build_catalog args).
Proof.
  unfold build_catalog. apply silent_bind; [apply silent_seed|intros _].
  apply silent_for_each. intros bkg_root d. apply silent_for_each.
  intros [[root dirs] files] d'. unfold scan_directory.
  case_bool_decide; [apply silent_ret|].
  apply silent_bind; [apply silent_choice|intros; apply silent_ret].
Qed.

Lemma silent_list_image_ids args : silent (list_image_ids args).
Proof. unfold list_image_ids. case_match; [apply silent_ret|apply silent_raise]. Qed.

End Silent.

(** * What the output writer writes *)
Section Repaint.
Context `{Library}.
Variable args : Args.

Lemma locals_after_0 l : locals_after l 0 = l.
Proof. destruct l. unfold locals_after. simpl. by rewrite Nat.add_0_r. Qed.

Lemma locals_after_add l n m :
  locals_after (locals_after l n) m = locals_after l (n + m).
Proof.
  unfold locals_after. simpl. f_equal; [|lia].
  by rewrite (Nat.add_comm n m), Nat.iter_add.
Qed.

Lemma outputs_app l p1 p2 :
  outputs l (p1 ++ p2)
  = (outputs l p1 ++ outputs (locals_after l (length p1)) p2)%list.
Proof.
  unfold outputs. rewrite imap_app. f_equal. apply imap_ext.
  intros i pc _. unfold nth_output, locals_after, Program.Basics.compose.
  cbn [img_id cnt]. rewrite <- Nat.iter_add.
  by replace (S i + length p1)%nat with (S (length p1 + i)) by lia;
     replace (cnt l + length p1 + i)%nat with (cnt l + (length p1 + i))%nat by lia.
Qed.

Lemma wrote_nil l w : wrote args l w [] [] w.
Proof. unfold wrote. simpl. by rewrite !app_nil_r. Qed.

Lemma wrote_app l w p1 c1 w1 p2 c2 w2 :
  wrote args l w p1 c1 w1 → wrote args (locals_after l (length p1)) w1 p2 c2 w2 →
  wrote args l w (p1 ++ p2) (c1 ++ c2) w2.
Proof.
  intros (Hs1 & Hm1 & Hp1 & Hk1 & Hc1) (Hs2 & Hm2 & Hp2 & Hk2 & Hc2).
  unfold wrote. rewrite outputs_app, !fmap_app, !app_assoc.
  rewrite <- Hs1, <- Hm1, <- Hp1. repeat split; try done; by apply Forall_app.
Qed.

(** Only the files and the trace matter. *)
Lemma wrote_from l w w0 pcs cs w' :
  text_files w0 = text_files w → trace w0 = trace w →
  wrote args l w0 pcs cs w' → wrote args l w pcs cs w'.
Proof.
  intros Hf Ht. unfold wrote, manifest, saved_paths, prompts_of.
  by rewrite Hf, Ht.
Qed.

Lemma wrote_to l w pcs cs w1 w' :
  text_files w' = text_files w1 → trace w' = trace w1 →
  wrote args l w pcs cs w1 → wrote args l w pcs cs w'.
Proof.
  intros Hf Ht. unfold wrote, manifest, saved_paths, prompts_of.
  by rewrite Hf, Ht.
Qed.

(** One image: its file, its (row args), the counter and the rebound id. *)
Lemma write_output_spec prompt caption image l w :
  known (prompt, caption) →
  ∃ w', write_output args prompt caption image l w = (Ok (locals_after l 1), w')
        ∧ wrote args l w [(prompt, caption)] [] w'.
Proof.
  intros Hk. eexists. split.
  - unfold write_output, mbind, M_bind, Image_save, log, append_text,
      locals_after. simpl. rewrite Nat.add_1_r. reflexivity.
  - unfold wrote, manifest, saved_paths, prompts_of, outputs, nth_output.
    simpl. rewrite lookup_insert_eq, !omap_app, Nat.add_0_r. simpl.
    rewrite !app_nil_r. repeat split; try done. by apply Forall_singleton.
Qed.

Lemma write_loop_spec prompt caption images l w :
  known (prompt, caption) →
  ∃ w', for_each (write_output args prompt caption) images l w
        = (Ok (locals_after l (length images)), w')
        ∧ wrote args l w (replicate (length images) (prompt, caption)) [] w'.
Proof.
  intros Hk.
  assert (post (for_each (write_output args prompt caption) images l w)
    (λ l' w', l' = locals_after l (length images)
              ∧ wrote args l w (replicate (length images) (prompt, caption)) [] w')
    (λ _ _, False)) as Hpost.
  { apply (for_each_post _
      (λ pre l' w', l' = locals_after l (length pre)
         ∧ wrote args l w (replicate (length pre) (prompt, caption)) [] w')).
    - intros pre image l1 w1 [-> Hw].
      destruct (write_output_spec prompt caption image
                  (locals_after l (length pre)) w1 Hk) as (w2 & Heq & Hw2).
      unfold post. rewrite Heq. simpl. rewrite length_app. simpl. split.
      + by rewrite locals_after_add.
      + rewrite replicate_add.
        change (@nil (list string)) with ([] ++ @nil (list string))%list.
        apply (wrote_app _ _ _ _ w1); [done|]. by rewrite length_replicate.
    - split; [by rewrite locals_after_0|apply wrote_nil]. }
  unfold post in Hpost.
  destruct (for_each _ images l w) as [[l'|e] w']; simpl in Hpost; [|done].
  destruct Hpost as [-> Hw]. by exists w'.
Qed.

Lemma called_refl caption w : called args caption w w.
Proof. repeat split. exists []. by rewrite app_nil_r. Qed.

Lemma called_trans caption w w1 w2 :
  called args caption w w1 → called args caption w1 w2 → called args caption w w2.
Proof.
  intros (Hf1 & Hs1 & cs1 & Hp1 & Hc1) (Hf2 & Hs2 & cs2 & Hp2 & Hc2).
  split; [congruence|]. split; [congruence|]. exists (cs1 ++ cs2)%list.
  split; [by rewrite Hp2, Hp1, app_assoc|by apply Forall_app].
Qed.

Lemma call_pipeline_spec cls name (a : pipe_args tensor) caption w :
  pa_prompt a = replicate (batch args) caption →
  post (call_pipeline cls name a w)
       (λ imgs w', length imgs = (batch args) ∧ called args caption w w')
       (λ _ w', called args caption w w').
Proof.
  intros Ha. unfold post, call_pipeline.
  destruct (from_pretrained cls name a (gpu w)) as [r g'] eqn:Hr. simpl.
  assert (called args caption w
            {| rng := rng w; gpu := g'; text_files := text_files w;
               trace := (trace w ++ [PipelineCall cls name a])%list |}) as Hc.
  { unfold called, saved_paths, prompts_of. simpl. rewrite !omap_app. simpl.
    rewrite app_nil_r. repeat split. exists [pa_prompt a].
    split; [done|]. by apply Forall_singleton. }
  destruct r as [imgs|e]; [|done]. split; [|done].
  rewrite (pipeline_batch _ _ _ _ _ _ Hr), Ha. apply length_replicate.
Qed.

Lemma inpaint_spec caption c w :
  post (inpaint args caption c w)
       (λ imgs w', length imgs = (batch args) ∧ called args caption w w')
       (λ _ w', called args caption w w').
Proof.
  unfold inpaint. apply post_bind.
  eapply post_mono; [by apply (call_pipeline_spec _ _ _ caption)| |done].
  intros imgs w1 [Hlen Hc1]. simpl. destruct (refiner _) as [name|].
  - eapply post_mono; [by apply (call_pipeline_spec _ _ _ caption)| |].
    + intros imgs' w2 [Hlen' Hc2]. split; [done|by eapply called_trans].
    + intros e w2 Hc2. by eapply called_trans.
  - by apply post_ret.
Qed.

Lemma called_wrote prompt k l w w1 w2 :
  bkg_to_prompt !! k = Some prompt →
  text_files w1 = text_files w → trace w1 = trace w →
  called args (CAPTION prompt) w1 w2 →
  ∃ cs, wrote args l w [] cs w2.
Proof.
  intros Hk Hf Ht (Hf2 & Hs2 & cs & Hp2 & Hcs). exists cs.
  apply (wrote_from _ _ w1); [done..|].
  unfold wrote, manifest. simpl. rewrite Hf2, Hs2, Hp2, !app_nil_r.
  repeat split; [done|]. eapply Forall_impl; [done|]. intros ps ->.
  exists (prompt, CAPTION prompt). repeat split. by exists k.
Qed.

(** One (foreground, background) pair: [batch] images of a known phrase,
    or an exception with nothing written; for a category the table does
    not hold, the exception comes before any pipeline call. *)
Lemma repaint_pair_spec ip mp k bkg_file l w :
  post (repaint_pair args ip mp k bkg_file l w)
    (λ l' w', ∃ prompt cs,
        bkg_to_prompt !! k = Some prompt ∧ l' = locals_after l (batch args)
        ∧ wrote args l w (replicate (batch args) (prompt, CAPTION prompt)) cs w')
    (λ e w', (∃ cs, wrote args l w [] cs w'
                    ∧ (bkg_to_prompt !! k = None → cs = []))
             ∧ (bkg_to_prompt !! k = None →
                ∀ c w1, compose_pair args ip mp bkg_file w = (Ok c, w1) →
                        e = KeyError k)).
Proof.
  unfold repaint_pair, post, mbind, M_bind.
  destruct (silent_compose_pair args ip mp bkg_file w) as [Hf1 Ht1].
  destruct (compose_pair args ip mp bkg_file w) as [[c|e] w1] eqn:Hc;
    simpl in Hf1, Ht1.
  2:{ simpl. split; [|done].
      exists []. split; [|done]. apply (wrote_to _ _ _ _ w); [done..|].
      apply wrote_nil. }
  unfold lookup_prompt. destruct (bkg_to_prompt !! k) as [prompt|] eqn:Hk; simpl.
  2:{ split; [|done]. exists []. split; [|done].
      apply (wrote_to _ _ _ _ w); [done..|]. apply wrote_nil. }
  pose proof (inpaint_spec (CAPTION prompt) c w1) as Hi. unfold post in Hi.
  destruct (inpaint args (CAPTION prompt) c w1) as [[imgs|e] w2]; simpl in *.
  2:{ split; [|done].
      destruct (called_wrote prompt k l w w1 w2) as [cs Hcs]; [done..|].
      exists cs. by split. }
  destruct Hi as [Hlen Hcalled].
  destruct (called_wrote prompt k l w w1 w2) as [cs Hcs]; [done..|].
  assert (known (prompt, CAPTION prompt)) as Hkn by (split; [by exists k|done]).
  destruct (write_loop_spec prompt (CAPTION prompt) imgs l w2 Hkn)
    as (w3 & -> & Hw3).
  simpl. exists prompt, cs. rewrite Hlen in *. split; [done|]. split; [done|].
  rewrite <- (app_nil_l (replicate _ _)), <- (app_nil_r cs).
  apply (wrote_app _ _ _ _ w2); [done|]. simpl. by rewrite locals_after_0.
Qed.

Lemma catalog_size_snoc (d : list (string * list string)) item :
  catalog_size (d ++ [item]) = (catalog_size d + length item.2)%nat.
Proof.
  unfold catalog_size. induction d as [|x d IH]; simpl; [lia|].
  rewrite IH. lia.
Qed.

(** The files of one category. *)
Lemma repaint_category_spec ip mp (item : string * list string) l w :
  post (repaint_category args ip mp item l w)
    (λ l' w', (item.2 = [] ∨ is_Some (bkg_to_prompt !! item.1))
        ∧ ∃ pcs cs, l' = locals_after l (length pcs)
            ∧ length pcs = (length item.2 * (batch args))%nat
            ∧ wrote args l w pcs cs w')
    (λ _ w', ∃ pcs cs, wrote args l w pcs cs w').
Proof.
  unfold repaint_category.
  eapply post_mono;
    [apply (for_each_post _
       (λ pre l' w', (pre = [] ∨ is_Some (bkg_to_prompt !! item.1))
          ∧ ∃ pcs cs, l' = locals_after l (length pcs)
              ∧ length pcs = (length pre * (batch args))%nat
              ∧ wrote args l w pcs cs w')
       (λ _ w', ∃ pcs cs, wrote args l w pcs cs w'))| |].
  - intros pre bkg_file l1 w1 (_ & pcs & cs & -> & Hlen & Hw).
    eapply post_mono; [apply repaint_pair_spec| |].
    + intros l2 w2 (prompt & cs2 & Hk & -> & Hw2). simpl.
      split; [right; by rewrite Hk|].
      exists (pcs ++ replicate (batch args) (prompt, CAPTION prompt))%list,
             (cs ++ cs2)%list.
      rewrite locals_after_add, !length_app, length_replicate, Hlen.
      split; [done|]. split; [simpl; lia|]. by apply (wrote_app _ _ _ _ w1).
    + intros e w2 [(cs2 & Hw2 & _) _]. simpl.
      exists (pcs ++ [])%list, (cs ++ cs2)%list. by apply (wrote_app _ _ _ _ w1).
  - split; [by left|]. exists [], []. rewrite locals_after_0.
    split; [done|]. split; [done|]. apply wrote_nil.
  - done.
  - done.
Qed.

(** The categories of one foreground sample. *)
Lemma repaint_categories_spec ip mp (d : list (string * list string)) l w :
  post (for_each (repaint_category args ip mp) d l w)
    (λ l' w', resolved d
        ∧ ∃ pcs cs, l' = locals_after l (length pcs)
            ∧ length pcs = (catalog_size d * (batch args))%nat
            ∧ wrote args l w pcs cs w')
    (λ _ w', ∃ pcs cs, wrote args l w pcs cs w').
Proof.
  apply (for_each_post _
    (λ pre l' w', resolved pre
       ∧ ∃ pcs cs, l' = locals_after l (length pcs)
           ∧ length pcs = (catalog_size pre * (batch args))%nat
           ∧ wrote args l w pcs cs w')).
  - intros pre item l1 w1 (Hres & pcs & cs & -> & Hlen & Hw).
    eapply post_mono; [apply repaint_category_spec| |].
    + intros l2 w2 (Hitem & pcs2 & cs2 & -> & Hlen2 & Hw2). simpl.
      split; [apply Forall_app; split; [done|by apply Forall_singleton]|].
      exists (pcs ++ pcs2)%list, (cs ++ cs2)%list.
      rewrite locals_after_add, !length_app, catalog_size_snoc, Hlen, Hlen2.
      split; [done|]. split; [lia|]. by apply (wrote_app _ _ _ _ w1).
    + intros e w2 (pcs2 & cs2 & Hw2). simpl.
      exists (pcs ++ pcs2)%list, (cs ++ cs2)%list.
      by apply (wrote_app _ _ _ _ w1).
  - split; [by apply Forall_nil|]. exists [], []. rewrite locals_after_0.
    split; [done|]. split; [done|]. apply wrote_nil.
Qed.

(** One foreground sample, from its first image on. *)
Lemma repaint_sample_spec (d : list (string * list string)) id w :
  post (repaint_sample args d id () w)
    (λ _ w', resolved d
        ∧ ∃ pcs cs, length pcs = (catalog_size d * (batch args))%nat
            ∧ wrote args {| img_id := id; cnt := 0 |} w pcs cs w')
    (λ _ w', ∃ pcs cs, wrote args {| img_id := id; cnt := 0 |} w pcs cs w').
Proof.
  unfold repaint_sample. apply post_bind.
  eapply post_mono; [apply repaint_categories_spec| |done].
  intros l' w' (Hres & pcs & cs & _ & Hlen & Hw). simpl.
  split; [done|]. by exists pcs, cs.
Qed.

Lemma wrote_progress l w pcs cs w' :
  wrote args l w pcs cs w' → progress args w (length pcs) w'.
Proof.
  intros (Hs & Hm & Hp & _ & Hc). unfold progress.
  rewrite Hs, Hm. unfold outputs.
  rewrite !length_app, !length_fmap, length_imap. eauto.
Qed.

Lemma progress_trans w n w1 m w2 :
  progress args w n w1 → progress args w1 m w2 → progress args w (n + m) w2.
Proof.
  intros (Hs1 & Hm1 & cs1 & Hp1 & Hc1) (Hs2 & Hm2 & cs2 & Hp2 & Hc2).
  unfold progress. split; [lia|]. split; [lia|]. exists (cs1 ++ cs2)%list.
  split; [by rewrite Hp2, Hp1, app_assoc|by apply Forall_app].
Qed.

(** All the foreground samples. *)
Lemma repaint_all_spec ids (d : list (string * list string)) w :
  post (repaint_all args ids d w)
    (λ _ w', (ids = [] ∨ resolved d)
        ∧ progress args w (length ids * (catalog_size d * (batch args))) w')
    (λ _ w', ∃ n, progress args w n w').
Proof.
  unfold repaint_all.
  apply (for_each_post _
    (λ pre _ w', (pre = [] ∨ resolved d)
       ∧ progress args w (length pre * (catalog_size d * (batch args))) w')).
  - intros pre id [] w1 [_ Hp].
    eapply post_mono; [apply repaint_sample_spec| |].
    + intros _ w2 (Hres & pcs & cs & Hlen & Hw). simpl.
      split; [by right|]. rewrite length_app, Nat.mul_add_distr_r. simpl.
      rewrite Nat.add_0_r. apply wrote_progress in Hw. rewrite Hlen in Hw.
      by eapply progress_trans.
    + intros e w2 (pcs & cs & Hw). simpl. eexists.
      eapply progress_trans; [done|by eapply wrote_progress].
  - split; [by left|]. unfold progress. simpl. rewrite !Nat.add_0_r.
    repeat split. exists []. by rewrite app_nil_r.
Qed.

End Repaint.

(** * A run of [main] *)
Section Main.
Context `{Library}.

Lemma start_manifest_spec args w :
  ∃ w1, start_manifest args w = (Ok (), w1)
        ∧ manifest args w1 = [Py.join "," OUT_ANN_HEADER +:+ Py.newline]
        ∧ trace w1 = trace w ∧ rng w1 = rng w.
Proof.
  unfold start_manifest, mbind, M_bind, isfile, rm, append_text, manifest.
  simpl. case_bool_decide; simpl; eexists; (split; [reflexivity|]); simpl;
    rewrite lookup_insert_eq.
  - by rewrite lookup_delete_eq.
  - destruct (text_files w !! ann_path args) eqn:Hl; [|done].
    exfalso. eauto.
Qed.

Lemma list_image_ids_pure args w :
  list_image_ids args w = ((list_image_ids args w).1, w).
Proof. unfold list_image_ids. by case_match. Qed.

(** A run of [main], stage by stage: what it leaves when it returns,
    and what it leaves when it raises. *)
Lemma main_spec args w :
  post (main args w)
    (λ _ w', ∃ ids d,
        (list_image_ids args w).1 = Ok ids
        ∧ (build_catalog args w).1 = Ok d
        ∧ (ids = [] ∨ resolved d)
        ∧ length (data_rows args w')
          = (length ids * (catalog_size d * batch args))%nat
        ∧ length (saved_paths w')
          = (length (saved_paths w) + length (data_rows args w'))%nat
        ∧ ∃ cs, prompts_of w' = (prompts_of w ++ cs)%list
                ∧ Forall (known_prompts args) cs)
    (λ _ w',
        length (saved_paths w')
          = (length (saved_paths w) + length (data_rows args w'))%nat
        ∧ ∃ cs, prompts_of w' = (prompts_of w ++ cs)%list
                ∧ Forall (known_prompts args) cs).
Proof.
  destruct (start_manifest_spec args w) as (w1 & Hstart & Hman & Htr & Hrng).
  assert (∀ w2 n w', text_files w2 = text_files w1 → trace w2 = trace w1 →
            progress args w2 n w' →
            length (data_rows args w') = n
            ∧ length (saved_paths w')
              = (length (saved_paths w) + length (data_rows args w'))%nat
            ∧ ∃ cs, prompts_of w' = (prompts_of w ++ cs)%list
                    ∧ Forall (known_prompts args) cs) as Hfin.
  { intros w2 n w' Hf2 Ht2 (Hs & Hm & cs & Hp & Hcs).
    assert (length (data_rows args w') = n) as Hrows.
    { unfold data_rows. fold (manifest args w'). rewrite length_drop, Hm.
      unfold manifest at 1. rewrite Hf2. fold (manifest args w1).
      rewrite Hman. simpl. lia. }
    rewrite Hrows. split; [done|]. unfold saved_paths, prompts_of in *.
    rewrite Ht2, Htr in Hs, Hp. split; [done|]. by exists cs. }
  unfold main, post, mbind, M_bind. rewrite Hstart.
  rewrite (list_image_ids_pure args w1).
  assert ((list_image_ids args w1).1 = (list_image_ids args w).1) as ->
    by (unfold list_image_ids; by case_match).
  destruct (list_image_ids args w).1 as [ids|e] eqn:Hids; simpl.
  2:{ apply (Hfin w1 0%nat w1); [done..|]. unfold progress.
      rewrite !Nat.add_0_r. repeat split. exists []. by rewrite app_nil_r. }
  destruct (silent_build_catalog args w1) as [Hf2 Ht2].
  destruct (build_catalog_seeded args w1 w) as [Hd _].
  destruct (build_catalog args w1) as [[d|e] w2]; simpl in *.
  2:{ apply (Hfin w2 0%nat w2); [done..|]. unfold progress.
      rewrite !Nat.add_0_r. repeat split. exists []. by rewrite app_nil_r. }
  pose proof (repaint_all_spec args ids d w2) as Hall. unfold post in Hall.
  destruct (repaint_all args ids d w2) as [[[]|e] w']; simpl in *.
  - destruct Hall as [Hres Hp]. exists ids, d.
    destruct (Hfin w2 _ w' Hf2 Ht2 Hp) as (Hrows & Hsaved & Hcs).
    by rewrite Hrows in *.
  - destruct Hall as [n Hp].
    by destruct (Hfin w2 _ w' Hf2 Ht2 Hp) as (Hrows & Hsaved & Hcs).
Qed.

(** C5. After a complete run the manifest holds, below its header, one
    row for each image file written: (foreground samples) x (background
    files of the catalog) x (batch size) rows, with the refiner or
    without it. A run that ends in an exception also leaves one row for
    each image it wrote. *)
Theorem manifest_rows_count (args : Args) (w : world _) r w' :
  main args w = (r, w') →
  length (saved_paths w')
    = (length (saved_paths w) + length (data_rows args w'))%nat
  ∧ (r = Ok () →
     ∃ ids d, (list_image_ids args w).1 = Ok ids
       ∧ (build_catalog args w).1 = Ok d
       ∧ length (data_rows args w')
         = (length ids * catalog_size d * Z.to_nat (batch_size args))%nat).
Proof.
  intros Hrun. pose proof (main_spec args w) as Hm. unfold post in Hm.
  rewrite Hrun in Hm. simpl in Hm. destruct r as [[]|e].
  - destruct Hm as (ids & d & Hids & Hd & _ & Hrows & Hsaved & _).
    split; [done|]. intros _. exists ids, d.
    by rewrite Hrows, Nat.mul_assoc.
  - destruct Hm as [Hsaved _]. by split.
Qed.

(** C2, as the code has it. A category of the catalog that the table
    does not hold ends the run in an exception as soon as a foreground
    sample reaches one of its background files: that pair raises
    [KeyError] once its images are composed, before its inpainting call.
    Pairs of earlier categories have been inpainted by then, and every
    inpainting call of the run used a caption made from a phrase of the
    table. *)
Theorem unknown_category_stops_run (args : Args) (w : world _)
    ids d k files :
  (list_image_ids args w).1 = Ok ids → ids ≠ [] →
  (build_catalog args w).1 = Ok d → (k, files) ∈ d → files ≠ [] →
  bkg_to_prompt !! k = None →
  (∃ e w' cs, main args w = (Raise e, w')
      ∧ prompts_of w' = (prompts_of w ++ cs)%list
      ∧ Forall (known_prompts args) cs)
  ∧ (∀ ip mp bkg_file l w0 c w1,
       compose_pair args ip mp bkg_file w0 = (Ok c, w1) →
       repaint_pair args ip mp k bkg_file l w0 = (Raise (KeyError k), w1)).
Proof.
  intros Hids Hne Hd Hin Hfiles Hk. split.
  - pose proof (main_spec args w) as Hm. unfold post in Hm.
    destruct (main args w) as [[[]|e] w']; simpl in Hm.
    + destruct Hm as (ids' & d' & Hids' & Hd' & Hres & _).
      rewrite Hids in Hids'. rewrite Hd in Hd'.
      injection Hids' as <-. injection Hd' as <-.
      destruct Hres as [Hnil|Hres]; [congruence|].
      apply (proj1 (Forall_forall _ _) Hres) in Hin. simpl in Hin.
      destruct Hin as [Hnil|[? Hs]]; congruence.
    + destruct Hm as (_ & cs & Hp & Hcs). exists e, w', cs.
      split; [reflexivity|]. split; assumption.
  - intros ip mp bkg_file l w0 c w1 Hc.
    unfold repaint_pair, mbind, M_bind, lookup_prompt. rewrite Hc, Hk.
    reflexivity.
Qed.

End Main.

Lemma manifest_rows_count_witness :
  Demo.run0.1 = Ok ()
  ∧ length (data_rows Demo.args0 Demo.run0.2) = 2%nat
  ∧ length (saved_paths Demo.run0.2)
    = (length (saved_paths (Demo.world0 Demo.fs0))
       + length (data_rows Demo.args0 Demo.run0.2))%nat
  ∧ (Demo.run0.1 = Ok () →
     ∃ ids d,
       (@list_image_ids (Demo.library Demo.fs0) Demo.args0
          (Demo.world0 Demo.fs0)).1 = Ok ids
       ∧ (build_catalog Demo.args0 (Demo.world0 Demo.fs0)).1 = Ok d
       ∧ length (data_rows Demo.args0 Demo.run0.2)
         = (length ids * catalog_size d
            * Z.to_nat (batch_size Demo.args0))%nat).
Proof.
  split; [vm_compute; reflexivity|]. split; [vm_compute; reflexivity|].
  exact (manifest_rows_count (H := Demo.library Demo.fs0) Demo.args0
           (Demo.world0 Demo.fs0) Demo.run0.1 Demo.run0.2
           (surjective_pairing Demo.run0)).
Defined.

Lemma unknown_category_stops_run_witness :
  (∃ e w' cs, Demo.run_attic = (Raise e, w')
      ∧ prompts_of w' = (prompts_of (Demo.world0 Demo.fs_attic) ++ cs)%list
      ∧ Forall (known_prompts Demo.args0) cs)
  ∧ (∀ ip mp bkg_file l w0 c w1,
       @compose_pair (Demo.library Demo.fs_attic) Demo.args0 ip mp bkg_file w0
         = (Ok c, w1) →
       repaint_pair Demo.args0 ip mp "attic" bkg_file l w0
         = (Raise (KeyError "attic"), w1)).
Proof.
  apply (unknown_category_stops_run (H := Demo.library Demo.fs_attic) Demo.args0
           (Demo.world0 Demo.fs_attic) ["img_0001.png"] Demo.catalog_attic
           "attic" ["bkg/attic/c.png"; "bkg/attic/d.png"]).
  - vm_compute; reflexivity.
  - discriminate.
  - vm_compute; reflexivity.
  - apply (bool_decide_unpack _). vm_compute. exact I.
  - discriminate.
  - vm_compute; reflexivity.
Defined.

(** C2 fails as stated: with the garden before the attic in the catalog,
    the run raises [KeyError] for the attic after the pipeline and its
    refiner were called for both garden scenes. *)
Lemma not_fails_fast :
  ¬ @fails_fast (Demo.library Demo.fs_attic) Demo.args0 (Demo.world0 Demo.fs_attic).
Proof.
  intros Hf.
  destruct (Hf Demo.catalog_attic "attic") as (e & w' & Hrun & Hp).
  - vm_compute; reflexivity.
  - apply (bool_decide_unpack _). vm_compute. exact I.
  - vm_compute; reflexivity.
  - assert (length (prompts_of Demo.run_attic.2) = 4%nat) as Hcalls
      by (vm_compute; reflexivity).
    unfold Demo.run_attic in Hcalls. rewrite Hrun in Hcalls.
    cbn [snd] in Hcalls. rewrite Hp in Hcalls. discriminate Hcalls.
Qed.

Lemma attic_run : Demo.run_attic.1 = Raise (KeyError "attic").
Proof. vm_compute; reflexivity. Qed.

(** C6, where the code leaves the specification: [img_id] is rebound to
    its stem at every image written, so a name with two dots loses one
    suffix per image; the second output of [img.v2.png] is named after
    [img], not after the stem [img.v2]. *)
Theorem stem_taken_again_per_image :
  Path.stem "img.v2.png" = "img.v2"
  ∧ saved_paths
      Demo.run_two_dots.2
    = ["gen_samples/fg_repaint/img.v2_repaint-id_000001+a realistic photo of in a garden.png";
       "gen_samples/fg_repaint/img_repaint-id_000002+a realistic photo of in a garden.png"].
Proof. split; vm_compute; reflexivity. Qed.

(** * The names of the outputs *)
Section Names.
Context `{Library}.

Lemma iter_stem_fixed id i :
  Path.stem (Path.stem id) = Path.stem id →
  Nat.iter (S i) Path.stem id = Path.stem id.
Proof.
  intros Hfix. induction i as [|i IH]; [done|].
  change (Nat.iter (S (S i)) Path.stem id)
    with (Path.stem (Nat.iter (S i) Path.stem id)).
  by rewrite IH.
Qed.

(** The names of the images of one foreground sample, in the order
    written: the id's stem taken once more at each image, the counter
    from 1 on, and the caption in use. *)
Lemma sample_names (args : Args) (d : list (string * list string))
    (id : string) (w : world _) r w' :
  repaint_sample args d id () w = (r, w') →
  ∃ captions,
    saved_paths w'
    = (saved_paths w
       ++ imap (λ i caption,
            Path.osp_join (dest_dir args)
              (Nat.iter (S i) Path.stem id +:+ "_repaint-id_"
               +:+ Py.format_06d (i + 1) +:+ "+" +:+ caption +:+ ".png"))
          captions)%list
    ∧ (r = Ok () → length captions = (catalog_size d * batch args)%nat).
Proof.
  intros Hrun. pose proof (repaint_sample_spec args d id w) as Hs.
  unfold post in Hs. rewrite Hrun in Hs. simpl in Hs.
  assert (∀ pcs cs,
    wrote args {| img_id := id; cnt := 0 |} w pcs cs w' →
    saved_paths w'
    = (saved_paths w
       ++ imap (λ i caption,
            Path.osp_join (dest_dir args)
              (Nat.iter (S i) Path.stem id +:+ "_repaint-id_"
               +:+ Py.format_06d (i + 1) +:+ "+" +:+ caption +:+ ".png"))
          pcs.*2)%list) as Hnames.
  { intros pcs cs (Hsaved & _). rewrite Hsaved. f_equal.
    unfold outputs. rewrite fmap_imap, imap_fmap. by apply imap_ext. }
  destruct r as [[]|e].
  - destruct Hs as (_ & pcs & cs & Hlen & Hw). exists pcs.*2.
    split; [by eapply Hnames|]. intros _. by rewrite length_fmap.
  - destruct Hs as (pcs & cs & Hw). exists pcs.*2.
    split; [by eapply Hnames|done].
Qed.

(** For a foreground id whose stem has no further suffix, every image
    of the sample is named after that stem, with the counter running from
    1 in steps of 1. *)
Theorem sample_output_names (args : Args) (d : list (string * list string))
    (id : string) (w : world _) r w' :
  Path.stem (Path.stem id) = Path.stem id →
  repaint_sample args d id () w = (r, w') →
  ∃ captions,
    saved_paths w'
    = (saved_paths w
       ++ imap (λ i caption,
            Path.osp_join (dest_dir args)
              (Path.stem id +:+ "_repaint-id_"
               +:+ Py.format_06d (i + 1) +:+ "+" +:+ caption +:+ ".png"))
          captions)%list
    ∧ (r = Ok () → length captions = (catalog_size d * batch args)%nat).
Proof.
  intros Hfix Hrun. destruct (sample_names args d id w r w' Hrun)
    as (captions & Hsaved & Hlen).
  exists captions. split; [|done]. rewrite Hsaved. f_equal.
  apply imap_ext. intros i caption _. cbv beta. by rewrite iter_stem_fixed.
Qed.

End Names.

Lemma sample_output_names_witness :
  Demo.sample0.1 = Ok ()
  ∧ saved_paths Demo.sample0.2
    = ["gen_samples/fg_repaint/img_0001_repaint-id_000001+a realistic photo of in a garden.png";
       "gen_samples/fg_repaint/img_0001_repaint-id_000002+a realistic photo of in a garden.png"]
  ∧ ∃ captions,
      saved_paths Demo.sample0.2
      = (saved_paths (Demo.world0 Demo.fs0)
         ++ imap (λ i caption,
              Path.osp_join (dest_dir Demo.args0)
                (Path.stem "img_0001.png" +:+ "_repaint-id_"
                 +:+ Py.format_06d (i + 1) +:+ "+" +:+ caption +:+ ".png"))
            captions)%list
      ∧ (Demo.sample0.1 = Ok () →
         length captions
         = (catalog_size Demo.catalog0
            * batch Demo.args0)%nat).
Proof.
  split; [vm_compute; reflexivity|]. split; [vm_compute; reflexivity|].
  apply (sample_output_names (H := Demo.library Demo.fs0) Demo.args0 _
           "img_0001.png" (Demo.world0 Demo.fs0) Demo.sample0.1 Demo.sample0.2);
    [vm_compute; reflexivity|apply surjective_pairing].
Defined.

(** * Reshaping *)
Section Reshape.
Context {A : Type}.

Lemma length_chunks n k (l : list A) : length (Np.chunks n k l) = n.
Proof. revert l. induction n as [|n IH]; intros l; simpl; [done|]. by rewrite IH. Qed.

Lemma chunks_lengths n k (l : list A) :
  length l = (n * k)%nat → Forall (λ r, length r = k) (Np.chunks n k l).
Proof.
  revert l. induction n as [|n IH]; intros l Hl; simpl; [done|].
  constructor.
  - rewrite length_take. lia.
  - apply IH. rewrite length_drop. lia.
Qed.

Lemma chunks_Forall (P : A → Prop) n k (l : list A) :
  Forall P l → Forall (Forall P) (Np.chunks n k l).
Proof.
  revert l. induction n as [|n IH]; intros l Hl; simpl; [done|].
  constructor; [by apply Forall_take|]. by apply IH, Forall_drop.
Qed.

Lemma reshape3_shape h w c (flat : list A) :
  length flat = (h * w * c)%nat → Np.has_shape h w c (Np.reshape3 h w c flat).
Proof.
  intros Hlen. unfold Np.has_shape, Np.reshape3.
  split; [by rewrite length_fmap, length_chunks|].
  apply Forall_fmap.
  eapply Forall_impl; [apply (chunks_lengths h (w * c)); lia|].
  intros row Hrow. simpl. split; [apply length_chunks|by apply chunks_lengths].
Qed.

Lemma reshape3_all (P : A → Prop) h w c (flat : list A) :
  Forall P flat → Np.all3 P (Np.reshape3 h w c flat).
Proof.
  intros Hall. unfold Np.all3, Np.reshape3. apply Forall_fmap.
  eapply Forall_impl; [by apply (chunks_Forall P h (w * c))|].
  intros row Hrow. simpl. by apply chunks_Forall.
Qed.

End Reshape.

(** * The noise background *)
Section Noise.
Context `{Library}.

Lemma noise_array_shape n g : Np.has_shape n n 3 (noise_array n g).
Proof.
  apply reshape3_shape. by rewrite length_fmap, randint_length.
Qed.

Lemma noise_array_range n g : Np.all3 (λ z, 0 ≤ z < 255) (noise_array n g).
Proof.
  apply reshape3_all, Forall_fmap.
  eapply Forall_impl; [apply (randint_range 0 255); lia|].
  intros z Hz. unfold Program.Basics.compose, Np.uint8. simpl in Hz.
  rewrite Z.mod_small; lia.
Qed.

Lemma all3_impl {A} (P Q : A → Prop) (a : Np.array3 A) :
  Np.all3 P a → (∀ x, P x → Q x) → Np.all3 Q a.
Proof.
  unfold Np.all3. intros Ha HPQ.
  eapply Forall_impl; [done|]. intros row Hrow.
  eapply Forall_impl; [done|]. intros px Hpx. by eapply Forall_impl.
Qed.

(** C8. With the noise toggle on, and images that load at a positive
    resolution, the pair is composed. The background is the noise as
    drawn, an array of shape (H, W, 3) with values in [0, 255], handed
    to [resize] as it is: neither the Gaussian filter nor the box blur is
    applied to it, whatever the blur size, and the array taken from the
    resized background has that shape and range too. The mask is the one
    file loaded, box-blurred and stretched when the blur size is at least
    1 and left alone otherwise, then inverted and resized. *)
Theorem noise_background_not_smoothed (args : Args)
    (ip mp bkg_file : string) (w : world _) (img mask : Image) :
  noise_bkg args = true → 0 < resolution args →
  Image_open_RGB ip = Some img → Image_open_RGB mp = Some mask →
  let n := Z.to_nat (resolution args) in
  let noise := noise_array n (rng w) in
  Np.has_shape n n 3 noise
  ∧ Np.all3 (λ z, 0 ≤ z ≤ 255) noise
  ∧ ∃ c w', compose_pair args ip mp bkg_file w = (Ok c, w')
    ∧ c_bkg c = Image_resize n n noise
    ∧ Np.has_shape n n 3 (c_bkg c)
    ∧ Np.all3 (λ z, 0 ≤ z ≤ 255) (c_bkg c)
    ∧ c_mask_image c = Image_resize n n (invert_mask (smooth_mask args mask))
    ∧ (1 ≤ blur_size args →
       smooth_mask args mask
       = Np.map3 Np.float_to_uint8
           (rescale_intensity (BoxBlur (blur_size args) mask)
              (127.5%float, 255%float) (0%float, 255%float)))
    ∧ (blur_size args < 1 → smooth_mask args mask = mask).
Proof.
  intros Hnoise Hres Himg Hmask n noise.
  split; [apply noise_array_shape|].
  split; [eapply all3_impl; [apply noise_array_range|]; intros; simpl in *; lia|].
  eexists _, _. split.
  - unfold compose_pair, load_background, np_random_randint_uint8, Image_open,
      resize, with_rng, mbind, M_bind, mret, M_ret. rewrite Hnoise.
    cbn [fst snd].
    destruct (Z.ltb_spec (resolution args) 0) as [?|_]; [lia|].
    destruct (Z.leb_spec (resolution args) 0) as [?|_]; [lia|].
    cbn [orb fst snd rng]. rewrite Himg, Hmask. cbn [fst snd].
    fold n. fold (noise_array n (rng w)). fold noise. reflexivity.
  - cbn [c_bkg c_mask_image]. split; [done|].
    split; [apply resize_shape|].
    split; [eapply all3_impl; [apply resize_uint8|];
            unfold Np.is_uint8; intros; simpl in *; lia|].
    split; [done|]. unfold smooth_mask. split; intros Hb.
    + destruct (Z.leb_spec 1 (blur_size args)); [done|lia].
    + destruct (Z.leb_spec 1 (blur_size args)); [lia|done].
Qed.

End Noise.

Lemma noise_background_not_smoothed_witness :
  ∃ c w', @compose_pair (Demo.library Demo.fs0) Demo.args_noise
            "fg/img_0001.png" "fg/mask_0001.png" "bkg/garden/a.png"
            (Demo.world0 Demo.fs0) = (Ok c, w')
    ∧ Np.has_shape 2 2 3 (c_bkg c)
    ∧ Np.all3 (λ z, 0 ≤ z ≤ 255) (c_bkg c).
Proof.
  destruct (noise_background_not_smoothed (H := Demo.library Demo.fs0)
              Demo.args_noise
              "fg/img_0001.png" "fg/mask_0001.png" "bkg/garden/a.png"
              (Demo.world0 Demo.fs0) Demo.fg Demo.fg_mask
              eq_refl eq_refl eq_refl eq_refl)
    as (_ & _ & c & w' & Hrun & _ & Hshape & Hrange & _).
  by exists c, w'.
Defined.

(** * Beyond the specification

    Properties the code shows that the specification's statements do not
    cover: error and edge behaviour, invariants of a run, and what a run
    never does. *)

(** * More on strings *)
Section MoreStrings.

(** [sub in s] for a one-character [sub]. *)
Lemma str_in_char_cons c a s :
  Py.str_in (String c "") (String a s)
  = bool_decide (c = a) || Py.str_in (String c "") s.
Proof. cbn [Py.str_in]. by rewrite prefix_cons, prefix_nil, andb_true_r. Qed.

Lemma str_in_app_r sub u v :
  Py.str_in sub v = true → Py.str_in sub (u +:+ v) = true.
Proof.
  intros Hv. induction u as [|c u IH]; [done|].
  change (String c u +:+ v) with (String c (u +:+ v)). cbn [Py.str_in].
  by rewrite IH, orb_true_r.
Qed.

Lemma str_in_cons_false sub c s :
  Py.str_in sub (String c s) = false →
  String.prefix sub (String c s) = false ∧ Py.str_in sub s = false.
Proof. cbn [Py.str_in]. by intros [? ?]%orb_false_elim. Qed.

(** No [img] runs across a slash. *)
Lemma prefix_img_slash u v :
  Py.str_in "img" u = false →
  String.prefix "img" (u +:+ String "/" v) = false.
Proof.
  intros Hu. destruct u as [|a [|b [|c u]]].
  - done.
  - change (String.prefix "img" (String a (String "/" v)) = false).
    rewrite !prefix_cons. simpl. by rewrite andb_false_r.
  - change (String.prefix "img" (String a (String b (String "/" v))) = false).
    rewrite !prefix_cons. simpl. by rewrite !andb_false_r.
  - apply str_in_cons_false in Hu as [Hp _].
    change (String.prefix "img" (String a (String b (String c (u +:+ String "/" v)))) = false).
    rewrite !prefix_cons, prefix_nil in *. done.
Qed.

Lemma replace_img_slash u v :
  Py.str_in "img" u = false →
  Py.replace_go "img" "mask" 0 (u +:+ String "/" v)
  = u +:+ String "/" (Py.replace_go "img" "mask" 0 v).
Proof.
  induction u as [|c u IH]; intros Hu.
  - change ("" +:+ ?x) with x. by rewrite replace_go_copy.
  - pose proof (prefix_img_slash _ v Hu) as Hp.
    apply str_in_cons_false in Hu as [_ Hu].
    change (String c u +:+ ?x) with (String c (u +:+ x)) in *.
    by rewrite (replace_go_copy _ _ _ _ Hp), IH.
Qed.

Lemma startswith_slash_replace s :
  Py.startswith (Py.replace s "img" "mask") "/" = Py.startswith s "/".
Proof.
  unfold Py.startswith, Py.replace. pose proof (replace_img_head s) as Hh.
  destruct (String.prefix "img" s) eqn:Hp.
  - destruct (prefix_img_inv _ Hp) as [t ->]. by rewrite replace_img_match.
  - destruct s as [|c s]; [done|]. rewrite (replace_go_copy _ _ _ _ Hp).
    by rewrite !prefix_cons, !prefix_nil.
Qed.


Lemma append_cons c (a b : string) : String c a +:+ b = String c (a +:+ b).
Proof. done. Qed.

Lemma append_assoc (a b c : string) : (a +:+ b) +:+ c = a +:+ (b +:+ c).
Proof. induction a as [|x a IH]; [done|]. by rewrite !append_cons, IH. Qed.

Lemma length_append (a b : string) :
  String.length (a +:+ b) = (String.length a + String.length b)%nat.
Proof.
  induction a as [|x a IH]; [done|]. rewrite append_cons. simpl. by rewrite IH.
Qed.

Lemma str_in_app_l sub u v :
  Py.str_in sub (u +:+ v) = false → Py.str_in sub u = false.
Proof.
  induction u as [|c u IH].
  - change ("" +:+ v) with v. destruct sub as [|a sub]; [by destruct v|done].
  - change (String c u +:+ v) with (String c (u +:+ v)).
    intros [Hp Hu]%str_in_cons_false. cbn [Py.str_in]. rewrite (IH Hu), orb_false_r.
    destruct (String.prefix sub (String c u)) eqn:Hq; [|done].
    apply (prefix_app_r _ _ v) in Hq.
    change (String c u +:+ v) with (String c (u +:+ v)) in Hq. congruence.
Qed.

(** A string that ends with a slash. *)
Lemma endswith_slash_inv s :
  Py.endswith s "/" = true → ∃ u, s = u +:+ "/".
Proof.
  unfold Py.endswith. induction s as [|c s IH]; [done|].
  change (String.length "/") with 1%nat in *.
  change (String.length (String c s)) with (S (String.length s)).
  replace (S (String.length s) - 1)%nat with (String.length s) by lia.
  intros [_ Hs]%andb_prop. destruct s as [|d s].
  - change (String.substring 0 1 (String c "")) with (String c "") in Hs.
    apply String.eqb_eq in Hs. injection Hs as ->. by exists "".
  - destruct IH as [u Hu].
    + apply andb_true_intro. split; [done|].
      change (String.length (String d s)) with (S (String.length s)) in *.
      replace (S (String.length s) - 1)%nat with (String.length s) by lia.
      exact Hs.
    + exists (String c u). by rewrite Hu.
Qed.

End MoreStrings.

(** X8. The mask of a sample lies next to it when the source directory has no
    [img] in its name: the mask path is the sample's file name, with every
    [img] replaced by [mask], joined to the source directory. *)
Theorem mask_path_same_directory (src_dir img_id : string) :
  Py.str_in "img" src_dir = false →
  Py.startswith img_id "/" = false →
  mask_path src_dir img_id
  = Path.osp_join src_dir (Py.replace img_id "img" "mask").
Proof.
  intros Hsrc Hid. unfold mask_path, img_path, Path.osp_join.
  rewrite startswith_slash_replace, Hid.
  destruct (String.eqb src_dir "") eqn:He.
  - apply String.eqb_eq in He as ->. done.
  - cbn [orb]. destruct (Py.endswith src_dir "/") eqn:Hs.
    + destruct (endswith_slash_inv _ Hs) as [u ->].
      rewrite !append_assoc. change ("/" +:+ ?x) with (String "/" x).
      apply str_in_app_l in Hsrc. unfold Py.replace.
      by rewrite replace_img_slash.
    + change ("/" +:+ ?x) with (String "/" x). unfold Py.replace.
      by rewrite replace_img_slash.
Qed.

Lemma mask_path_same_directory_witness :
  mask_path "data/fg" "img_001.png" = "data/fg/mask_001.png"
  ∧ mask_path "data/fg" "img_001.png"
    = Path.osp_join "data/fg" (Py.replace "img_001.png" "img" "mask").
Proof.
  split; [reflexivity|].
  apply (mask_path_same_directory "data/fg" "img_001.png"); reflexivity.
Defined.

Section Ids.
Context `{Library}.

Lemma img_path_has_img src id :
  Py.str_in "img" id = true → Py.str_in "img" (img_path src id) = true.
Proof.
  intros Hid. unfold img_path, Path.osp_join.
  destruct (Py.startswith id "/"); [done|].
  destruct (_ || _); [by apply str_in_app_r|].
  apply str_in_app_r. by apply (str_in_app_r _ "/").
Qed.

(** X9. Every foreground id has [img] in its name, so its mask path, which has
    none, is never the path of the sample itself. *)
Theorem sample_mask_is_another_file (args : Args) (w : world _) ids id :
  (list_image_ids args w).1 = Ok ids → id ∈ ids →
  Py.str_in "img" id = true
  ∧ mask_path (src_dir args) id ≠ img_path (src_dir args) id.
Proof.
  unfold list_image_ids. destruct (os_listdir (src_dir args)) as [names|]; [|done].
  simpl. intros [= <-] Hin. apply list_elem_of_filter in Hin as [Hid _].
  apply Is_true_true in Hid. split; [done|]. intros Heq.
  pose proof (replace_img_complete (img_path (src_dir args) id)) as Hno.
  fold (mask_path (src_dir args) id) in Hno. rewrite Heq in Hno.
  by rewrite img_path_has_img in Hno.
Qed.

End Ids.

Lemma sample_mask_is_another_file_witness :
  Py.str_in "img" "img_0001.png" = true
  ∧ mask_path (src_dir Demo.args0) "img_0001.png"
    ≠ img_path (src_dir Demo.args0) "img_0001.png".
Proof.
  apply (sample_mask_is_another_file (H := Demo.library Demo.fs0) Demo.args0
           (Demo.world0 Demo.fs0) ["img_0001.png"] "img_0001.png").
  - vm_compute; reflexivity.
  - apply list_elem_of_singleton. reflexivity.
Defined.

Section Stems.

Lemma str_in_char_false c a s :
  Py.str_in (String c "") (String a s) = false →
  a ≠ c ∧ Py.str_in (String c "") s = false.
Proof.
  rewrite str_in_char_cons. intros [Hc Hs]%orb_false_elim.
  apply bool_decide_eq_false in Hc. split; [congruence|done].
Qed.

(** A string without the separator is its own single field. *)
Lemma split_go_no_sep sep cur s :
  Py.str_in (String sep "") s = false →
  Py.split_go sep cur s = [String.rev_app cur s].
Proof.
  revert cur. induction s as [|c s IH]; intros cur Hs; [done|].
  apply str_in_char_false in Hs as [Hc Hs]. cbn [Py.split_go].
  rewrite (proj2 (Ascii.eqb_neq c sep) Hc). by rewrite IH.
Qed.

Lemma name_plain s :
  Py.str_in "/" s = false → s ≠ "" → s ≠ "." → Path.name s = s.
Proof.
  intros Hs He Hd. unfold Path.name, Py.split.
  rewrite split_go_no_sep by done. cbn [String.rev_app List.filter].
  rewrite (proj2 (String.eqb_neq s "") He), (proj2 (String.eqb_neq s ".") Hd).
  done.
Qed.

Lemma rfind_absent c s :
  Py.str_in (String c "") s = false → Py.rfind c s = None.
Proof.
  induction s as [|a s IH]; [done|].
  intros [Ha Hs]%str_in_char_false. cbn [Py.rfind].
  by rewrite (IH Hs), (proj2 (Ascii.eqb_neq a c) Ha).
Qed.

Lemma rfind_last c base ext :
  Py.str_in (String c "") ext = false →
  Py.rfind c (base +:+ String c ext) = Some (String.length base).
Proof.
  intros Hext. induction base as [|a base IH].
  - change ("" +:+ ?x) with x. cbn [Py.rfind].
    by rewrite (rfind_absent _ _ Hext), Ascii.eqb_refl.
  - rewrite append_cons. cbn [Py.rfind]. by rewrite IH.
Qed.

Lemma substring_prefix (a b : string) :
  String.substring 0 (String.length a) (a +:+ b) = a.
Proof.
  induction a as [|x a IH]; [by destruct b|].
  rewrite append_cons. simpl. by rewrite IH.
Qed.

Lemma str_in_char_app c u v :
  Py.str_in (String c "") (u +:+ v)
  = Py.str_in (String c "") u || Py.str_in (String c "") v.
Proof.
  induction u as [|a u IH].
  - change ("" +:+ v) with v. by destruct v.
  - by rewrite append_cons, !str_in_char_cons, IH, orb_assoc.
Qed.

Lemma stem_of_name_no_dot s :
  Py.str_in "." s = false → Path.stem_of_name s = s.
Proof. intros Hs. unfold Path.stem_of_name. by rewrite rfind_absent. Qed.

Lemma stem_of_name_one_dot base ext :
  Py.str_in "." ext = false → base ≠ "" → ext ≠ "" →
  Path.stem_of_name (base +:+ "." +:+ ext) = base.
Proof.
  intros Hext Hb He. unfold Path.stem_of_name.
  change ("." +:+ ext) with (String "." ext).
  rewrite rfind_last by done. rewrite length_append.
  change (String.length (String "." ext)) with (S (String.length ext)).
  assert (0 < String.length base)%nat as Hlb by (destruct base; [done|simpl; lia]).
  assert (0 < String.length ext)%nat as Hle by (destruct ext; [done|simpl; lia]).
  rewrite (proj2 (Nat.ltb_lt _ _) Hlb).
  rewrite (proj2 (Nat.ltb_lt (String.length base) _)) by lia.
  apply substring_prefix.
Qed.

End Stems.

(** X10. For a file name [base.ext] with one dot and no slash, the stem is
    [base], and taking the stem again changes nothing: rebinding the id at
    every image is harmless for such names. *)
Theorem stem_of_plain_file_name (base ext : string) :
  base ≠ "" → ext ≠ "" →
  Py.str_in "." base = false → Py.str_in "/" base = false →
  Py.str_in "." ext = false → Py.str_in "/" ext = false →
  Path.stem (base +:+ "." +:+ ext) = base
  ∧ Path.stem (Path.stem (base +:+ "." +:+ ext)) = Path.stem (base +:+ "." +:+ ext).
Proof.
  intros Hb He Hbd Hbs Hed Hes.
  assert (Path.name base = base) as Hnb.
  { apply name_plain; [done|done|]. intros ->. done. }
  assert (Path.stem base = base) as Hsb.
  { unfold Path.stem. rewrite Hnb. by apply stem_of_name_no_dot. }
  assert (Path.stem (base +:+ "." +:+ ext) = base) as Hs.
  { unfold Path.stem. rewrite name_plain.
    - by apply stem_of_name_one_dot.
    - change ("." +:+ ext) with (String "." ext).
      by rewrite str_in_char_app, str_in_char_cons, Hbs, Hes.
    - destruct base; [done|]. by rewrite append_cons.
    - destruct base as [|c [|d base]]; [done| |].
      + rewrite append_cons. change ("" +:+ ?x) with x.
        change ("." +:+ ext) with (String "." ext). destruct ext; [done|]. done.
      + by rewrite !append_cons. }
  by rewrite Hs, Hsb.
Qed.

Lemma stem_of_plain_file_name_witness :
  Path.stem ("img_0001" +:+ "." +:+ "png") = "img_0001"
  ∧ Path.stem (Path.stem ("img_0001" +:+ "." +:+ "png"))
    = Path.stem ("img_0001" +:+ "." +:+ "png").
Proof. apply stem_of_plain_file_name; done. Defined.

Section Counter.

Lemma to_uint_nonnil n : Nat.to_uint n ≠ Nil.
Proof.
  intros Hn. pose proof (DecimalNat.Unsigned.of_to n) as Hof. rewrite Hn in Hof.
  simpl in Hof. subst n. discriminate Hn.
Qed.

Lemma zeros_read k s u :
  NilZero.uint_of_string s = Some u →
  ∃ u', NilZero.uint_of_string (Py.zeros k +:+ s) = Some u'
        ∧ Nat.of_uint u' = Nat.of_uint u.
Proof.
  intros Hs. induction k as [|k (u' & Hk & Hu')]; [by exists u|].
  exists (D0 u'). split; [|by rewrite <- Hu'].
  cbn [Py.zeros]. rewrite append_cons.
  destruct (Py.zeros k +:+ s) as [|c t] eqn:Ht; [done|].
  change (NilZero.uint_of_string (String c t)) with
    (NilEmpty.uint_of_string (String c t)) in Hk.
  change (NilZero.uint_of_string (String "0" (String c t))) with
    (uint_of_char "0" (NilEmpty.uint_of_string (String c t))).
  by rewrite Hk.
Qed.

Lemma length_zeros k : String.length (Py.zeros k) = k.
Proof. induction k as [|k IH]; [done|]. simpl. by rewrite IH. Qed.

Lemma format_06d_read n :
  ∃ u, NilZero.uint_of_string (Py.format_06d n) = Some u ∧ Nat.of_uint u = n.
Proof.
  destruct (zeros_read (6 - String.length (Py.decimal n)) (Py.decimal n)
              (Nat.to_uint n)) as (u & Hu & Hn).
  { apply NilZero.usu, to_uint_nonnil. }
  exists u. split; [done|]. by rewrite Hn, DecimalNat.Unsigned.of_to.
Qed.

End Counter.


Section Width.

Lemma six_digits_spec fuel acc k :
  six_digits fuel acc = true → (k < fuel)%nat →
  (Decimal.nb_digits (Nat.to_little_uint k acc) ≤ 6)%nat.
Proof.
  revert acc k. induction fuel as [|fuel IH]; intros acc k Hs Hk; [lia|].
  cbn [six_digits] in Hs.
  destruct (Nat.leb_spec (Decimal.nb_digits acc) 6) as [Hle|]; [|done].
  destruct k as [|k]; [done|]. cbn [Nat.to_little_uint]. apply IH; [done|lia].
Qed.

Lemma length_string_of_uint d :
  String.length (NilEmpty.string_of_uint d) = Decimal.nb_digits d.
Proof. induction d; simpl; congruence. Qed.

Lemma length_decimal n :
  String.length (Py.decimal n) = Decimal.nb_digits (Nat.to_little_uint n Decimal.zero).
Proof.
  unfold Py.decimal. pose proof (to_uint_nonnil n) as Hn.
  rewrite <- (DecimalFacts.nb_digits_rev (Nat.to_little_uint n Decimal.zero)).
  fold (Nat.to_uint n). destruct (Nat.to_uint n) eqn:Hd; try done;
    apply length_string_of_uint.
Qed.

Lemma format_06d_width n :
  Z.of_nat n < 1000000 → String.length (Py.format_06d n) = 6%nat.
Proof.
  intros Hn. unfold Py.format_06d. rewrite length_append, length_zeros.
  rewrite length_decimal.
  assert (six_digits (Z.to_nat 1000000) Decimal.zero = true) as Hall
    by (vm_compute; reflexivity).
  pose proof (six_digits_spec _ _ n Hall) as Hk. lia.
Qed.

End Width.

(** X11. The counter field of an output name has six characters at
    least, exactly six for a counter below one million, and reads back as
    the counter: two counters never give the same field. *)
Theorem format_06d_round_trip (n : nat) :
  (6 ≤ String.length (Py.format_06d n))%nat
  ∧ (Z.of_nat n < 1000000 → String.length (Py.format_06d n) = 6%nat)
  ∧ (∃ u, NilZero.uint_of_string (Py.format_06d n) = Some u ∧ Nat.of_uint u = n)
  ∧ ∀ m, Py.format_06d n = Py.format_06d m → n = m.
Proof.
  split; [|split; [|split]].
  - unfold Py.format_06d. rewrite length_append, length_zeros. lia.
  - apply format_06d_width.
  - apply format_06d_read.
  - intros m Heq. destruct (format_06d_read n) as (u & Hu & <-).
    destruct (format_06d_read m) as (v & Hv & <-). rewrite Heq in Hu.
    congruence.
Qed.

Section Extensions.

Lemma ascii_lower_idemp c : Py.ascii_lower (Py.ascii_lower c) = Py.ascii_lower c.
Proof. destruct c as [[] [] [] [] [] [] [] []]; reflexivity. Qed.

Lemma lower_idemp s : Py.lower (Py.lower s) = Py.lower s.
Proof.
  induction s as [|c s IH]; [done|]. simpl. by rewrite ascii_lower_idemp, IH.
Qed.

Lemma lower_app a b : Py.lower (a +:+ b) = Py.lower a +:+ Py.lower b.
Proof.
  induction a as [|c a IH]; [done|]. rewrite append_cons. simpl.
  by rewrite IH.
Qed.

Lemma substring_suffix (a b : string) :
  String.substring (String.length a) (String.length b) (a +:+ b) = b.
Proof.
  induction a as [|c a IH]; [|by rewrite append_cons].
  change ("" +:+ b) with b. simpl.
  induction b as [|c b IHb]; [done|]. simpl. by rewrite IHb.
Qed.

Lemma endswith_app a b : Py.endswith (a +:+ b) b = true.
Proof.
  unfold Py.endswith. rewrite length_append.
  replace (String.length a + String.length b - String.length b)%nat
    with (String.length a) by lia.
  rewrite substring_suffix, String.eqb_refl, andb_true_r.
  apply Nat.leb_le. lia.
Qed.

End Extensions.

(** X19. The extension test looks at the lower-cased name and at its last
    characters only: letter case does not matter, and a name that ends
    with one of the extensions passes whether or not a dot stands before
    it. *)
Theorem extension_filter (f : string) :
  is_image_file (Py.lower f) = is_image_file f
  ∧ ∀ ext, ext ∈ VALID_IMAGE_EXTENSION → is_image_file (f +:+ ext) = true.
Proof.
  unfold is_image_file. split; [by rewrite lower_idemp|].
  intros ext Hext. unfold Py.endswith_any. apply existsb_exists.
  exists ext. split; [by apply list_elem_of_In|].
  rewrite lower_app.
  assert (Py.lower ext = ext) as ->; [|apply endswith_app].
  unfold VALID_IMAGE_EXTENSION in Hext.
  repeat (apply elem_of_cons in Hext as [->|Hext]; [reflexivity|]).
  by apply elem_of_nil in Hext.
Qed.

Section StemFacts.

Lemma str_in_char_rev_app c a b :
  Py.str_in (String c "") (String.rev_app a b)
  = Py.str_in (String c "") a || Py.str_in (String c "") b.
Proof.
  revert b. induction a as [|x a IH]; intros b; [by destruct b|].
  cbn [String.rev_app]. rewrite IH, !str_in_char_cons.
  destruct (bool_decide (c = x)), (Py.str_in (String c "") a); simpl;
    by rewrite ?orb_true_r.
Qed.

(** No field of a split holds the separator. *)
Lemma split_go_fields sep cur s :
  Py.str_in (String sep "") cur = false →
  Forall (λ f, Py.str_in (String sep "") f = false) (Py.split_go sep cur s).
Proof.
  revert cur. induction s as [|c s IH]; intros cur Hcur; cbn [Py.split_go].
  - apply Forall_singleton. unfold String.rev.
    by rewrite str_in_char_rev_app, Hcur.
  - destruct (Ascii.eqb_spec c sep) as [->|Hne].
    + constructor; [|by apply IH].
      unfold String.rev. by rewrite str_in_char_rev_app, Hcur.
    + apply IH. rewrite str_in_char_cons, Hcur, orb_false_r.
      apply bool_decide_eq_false. congruence.
Qed.

Lemma last_Forall {A} (P : A → Prop) l d :
  Forall P l → P d → P (List.last l d).
Proof.
  intros Hl Hd. induction Hl as [|x l Hx Hl IH]; [done|].
  simpl. by destruct l.
Qed.

Lemma filter_Forall {A} (P : A → Prop) f (l : list A) :
  Forall P l → Forall P (List.filter f l).
Proof.
  induction 1 as [|x l Hx _ IH]; [done|]. simpl.
  destruct (f x); [by constructor|done].
Qed.

Lemma name_no_slash p : Py.str_in "/" (Path.name p) = false.
Proof.
  unfold Path.name, Py.split.
  apply (last_Forall (λ f, Py.str_in "/" f = false)); [|done].
  apply filter_Forall. by apply split_go_fields.
Qed.

Lemma substring_no_char c n s :
  Py.str_in (String c "") s = false →
  Py.str_in (String c "") (String.substring 0 n s) = false.
Proof.
  revert s. induction n as [|n IH]; intros s Hs; [by destruct s|].
  destruct s as [|a s]; [done|]. simpl String.substring.
  apply str_in_char_false in Hs as [Ha Hs].
  rewrite str_in_char_cons, (IH s Hs), orb_false_r.
  apply bool_decide_eq_false. congruence.
Qed.

Lemma stem_no_slash p : Py.str_in "/" (Path.stem p) = false.
Proof.
  unfold Path.stem, Path.stem_of_name. pose proof (name_no_slash p) as Hn.
  destruct (Py.rfind "." (Path.name p)) as [i|]; [|done].
  destruct (_ && _); [|done]. by apply substring_no_char.
Qed.

Lemma prefix_app_self a b : String.prefix a (a +:+ b) = true.
Proof.
  induction a as [|c a IH]; [apply prefix_nil|].
  by rewrite append_cons, prefix_refl_cons.
Qed.

Lemma osp_join_under a b :
  Py.startswith b "/" = false → Py.startswith (Path.osp_join a b) a = true.
Proof.
  intros Hb. unfold Path.osp_join. rewrite Hb. unfold Py.startswith.
  destruct (_ || _); apply prefix_app_self.
Qed.

Lemma out_name_relative id n caption :
  Py.startswith (out_name (Path.stem id) n caption) "/" = false.
Proof.
  unfold out_name, Py.startswith. pose proof (stem_no_slash id) as Hs.
  destruct (Path.stem id) as [|c s]; [done|].
  apply str_in_char_false in Hs as [Hc _].
  rewrite append_cons, prefix_cons, prefix_nil, andb_true_r.
  apply bool_decide_eq_false. congruence.
Qed.

End StemFacts.


(** * More on the compositor *)
(** Under a mask value of 255 the merged element is the larger of the
    background's and the foreground's. *)
Lemma merge_px_mask_full f b :
  Np.is_uint8 f → Np.is_uint8 b → merge_foreground_px f 255 b = Z.max b f.
Proof.
  intros Hf Hb. apply Z.eqb_eq.
  apply (uint8_cases (λ f, merge_foreground_px f 255 b =? Z.max b f)); [|done].
  revert b Hb. apply (uint8_cases (λ b,
    forallb (λ f, merge_foreground_px f 255 b =? Z.max b f) (Z.of_nat <$> seq 0 256))).
  by vm_compute.
Qed.

(** X4. Where the mask handed to the pipeline is 255, the composite holds the
    larger of the background's value and the foreground's: the background
    shows only where it is at least as bright as the foreground. *)
Theorem merge_takes_maximum (image mask_image bkg : Image) i j c f b :
  Np.all3 Np.is_uint8 image → Np.all3 Np.is_uint8 bkg →
  Np.get3 mask_image i j c = Some 255 →
  Np.get3 image i j c = Some f → Np.get3 bkg i j c = Some b →
  Np.get3 (merge_foreground image mask_image bkg) i j c = Some (Z.max b f).
Proof.
  intros Hui Hub Hm Hf Hb. rewrite get3_merge_foreground, Hm, Hb, Hf. simpl.
  f_equal. apply merge_px_mask_full;
    [exact (all3_get3 _ _ _ _ _ _ Hui Hf)|exact (all3_get3 _ _ _ _ _ _ Hub Hb)].
Qed.

Lemma merge_takes_maximum_witness :
  Np.get3 (merge_foreground Demo.fg (invert_mask Demo.fg_mask) Demo.scene1) 0 1 2
  = Some (Z.max 250 60).
Proof.
  apply (merge_takes_maximum Demo.fg (invert_mask Demo.fg_mask) Demo.scene1
           0 1 2 60 250);
    try (apply (bool_decide_unpack _); vm_compute; exact I);
    vm_compute; reflexivity.
Defined.

Section Shapes.
Context {A B C : Type}.

Lemma has_shape_map3 (f : A → B) h w c (a : Np.array3 A) :
  Np.has_shape h w c a → Np.has_shape h w c (Np.map3 f a).
Proof.
  intros [Hh Hrows]. unfold Np.map3. split; [by rewrite length_map|].
  apply Forall_fmap. eapply Forall_impl; [done|].
  intros row [Hw Hpx]. simpl. split; [by rewrite length_map|].
  apply Forall_fmap. eapply Forall_impl; [done|].
  intros px Hc. simpl. by rewrite length_map.
Qed.

Lemma Forall_zip_with_both {X Y Z} (P : X → Prop) (Q : Y → Prop) (R : Z → Prop)
    (f : X → Y → Z) l k :
  (∀ x y, P x → Q y → R (f x y)) → Forall P l → Forall Q k →
  Forall R (zip_with f l k).
Proof.
  intros Hf Hl. revert k. induction Hl as [|x l Hx _ IH]; intros k Hk; [done|].
  destruct Hk as [|y k Hy Hk]; [done|]. simpl. constructor; [by apply Hf|by apply IH].
Qed.

Lemma has_shape_zip_with3 (f : A → B → C) h w c
    (a : Np.array3 A) (b : Np.array3 B) :
  Np.has_shape h w c a → Np.has_shape h w c b →
  Np.has_shape h w c (Np.zip_with3 f a b).
Proof.
  intros [Ha Hra] [Hb Hrb]. unfold Np.zip_with3.
  split; [rewrite length_zip_with; lia|].
  eapply Forall_zip_with_both; [|exact Hra|exact Hrb].
  intros ra rb [Hwa Hpa] [Hwb Hpb]. simpl in *.
  split; [rewrite length_zip_with; lia|].
  eapply Forall_zip_with_both; [|exact Hpa|exact Hpb].
  intros pa pb Hca Hcb. simpl in *. rewrite length_zip_with. lia.
Qed.

Lemma all3_map3 (P : B → Prop) (f : A → B) (a : Np.array3 A) :
  (∀ x, P (f x)) → Np.all3 P (Np.map3 f a).
Proof.
  intros Hf. unfold Np.all3, Np.map3.
  apply Forall_fmap, Forall_true. intros row.
  apply Forall_fmap, Forall_true. intros px.
  apply Forall_fmap, Forall_true. intros x. apply Hf.
Qed.

End Shapes.

Lemma float_to_uint8_range x : Np.is_uint8 (Np.float_to_uint8 x).
Proof. unfold Np.float_to_uint8, Np.uint8, Np.is_uint8. apply Z.mod_pos_bound. lia. Qed.

Lemma merge_foreground_shape h w c (image mask_image bkg : Image) :
  Np.has_shape h w c image → Np.has_shape h w c mask_image →
  Np.has_shape h w c bkg →
  Np.has_shape h w c (merge_foreground image mask_image bkg)
  ∧ Np.all3 Np.is_uint8 (merge_foreground image mask_image bkg).
Proof.
  intros Hi Hm Hb. split.
  - unfold merge_foreground, merge_foreground_float, merge_max, mask_out,
      normalize_mask.
    apply has_shape_map3, has_shape_zip_with3; [|done].
    apply has_shape_zip_with3; [|done]. by apply has_shape_map3.
  - apply all3_map3, float_to_uint8_range.
Qed.

Section Compose.
Context `{Library}.

Lemma compose_pair_arrays (args : Args) (ip mp bkg_file : string)
    (w : world _) c w' :
  compose_pair args ip mp bkg_file w = (Ok c, w') →
  let n := Z.to_nat (resolution args) in
  0 < resolution args
  ∧ Forall (λ a, Np.has_shape n n 3 a ∧ Np.all3 Np.is_uint8 a)
           [c_image c; c_mask_image c; c_bkg c]
  ∧ text_files w' = text_files w ∧ trace w' = trace w.
Proof.
  intros Hc n.
  destruct (silent_compose_pair args ip mp bkg_file w) as [Hf Ht].
  rewrite Hc in Hf, Ht. simpl in Hf, Ht.
  revert Hc. unfold compose_pair, mbind, M_bind, resize. cbn [fst snd].
  destruct (load_background args bkg_file w) as [[bkg|e] w1]; [|done].
  destruct (Image_open ip w1) as [[img|e] w2]; [|done].
  destruct (Image_open mp w2) as [[mask|e] w3]; [|done].
  destruct (Z.leb_spec (resolution args) 0) as [?|Hres]; [done|].
  cbn [orb]. intros [= <- <-]. cbn [c_image c_mask_image c_bkg].
  split; [done|]. split; [|done]. fold n.
  assert (∀ im, Np.has_shape n n 3 (Image_resize n n im)
                ∧ Np.all3 Np.is_uint8 (Image_resize n n im)) as Hs
    by (split; [apply resize_shape|apply resize_uint8]).
  constructor; [apply merge_foreground_shape; apply Hs|].
  constructor; [apply Hs|]. constructor; [apply Hs|constructor].
Qed.

(** X5. Whenever a pair is composed, the resolution is positive and the
    three arrays handed on (the image, the mask and the background) are
    [uint8] arrays of shape (resolution, resolution, 3); composing reads
    files and the generator and writes nothing. *)
Theorem compose_pair_shapes (args : Args) (ip mp bkg_file : string)
    (w : world _) c w' :
  compose_pair args ip mp bkg_file w = (Ok c, w') →
  let n := Z.to_nat (resolution args) in
  0 < resolution args
  ∧ Forall (λ a, Np.has_shape n n 3 a ∧ Np.all3 Np.is_uint8 a)
           [c_image c; c_mask_image c; c_bkg c]
  ∧ text_files w' = text_files w ∧ trace w' = trace w.
Proof. apply compose_pair_arrays. Qed.

End Compose.

Lemma compose_pair_shapes_witness :
  ∃ c, Cases.pair0.1 = Ok c
    ∧ Forall (λ a, Np.has_shape 2 2 3 a ∧ Np.all3 Np.is_uint8 a)
             [c_image c; c_mask_image c; c_bkg c].
Proof.
  destruct Cases.pair0 as [[c|e] w'] eqn:Hr.
  - exists c. split; [done|].
    exact (proj1 (proj2 (compose_pair_shapes (H := Demo.library Demo.fs0) Demo.args0
             "fg/img_0001.png" "fg/mask_0001.png" "bkg/garden/a.png"
             (Demo.world0 Demo.fs0) c w' Hr))).
  - exfalso. assert (Cases.pair0.1 = Raise e) as Hx by (by rewrite Hr).
    vm_compute in Hx. discriminate Hx.
Defined.

(** * More on runs *)
Section Stages.
Context `{Library}.

(** The stages of [main], one after the other. *)
Lemma main_stages args w r w' :
  main args w = (r, w') →
  ∃ w1, start_manifest args w = (Ok (), w1)
    ∧ match (list_image_ids args w).1 with
      | Raise e => r = Raise e ∧ w' = w1
      | Ok ids =>
          ∃ w2, (build_catalog args w1).2 = w2
            ∧ (build_catalog args w1).1 = (build_catalog args w).1
            ∧ text_files w2 = text_files w1 ∧ trace w2 = trace w1
            ∧ match (build_catalog args w).1 with
              | Raise e => r = Raise e ∧ w' = w2
              | Ok d => repaint_all args ids d w2 = (r, w')
              end
      end.
Proof.
  destruct (start_manifest_spec args w) as (w1 & Hstart & _).
  unfold main, mbind, M_bind. rewrite Hstart.
  rewrite (list_image_ids_pure args w1).
  assert ((list_image_ids args w1).1 = (list_image_ids args w).1) as ->
    by (unfold list_image_ids; by case_match).
  intros Hrun. exists w1. split; [done|].
  destruct (list_image_ids args w).1 as [ids|e]; simpl in *.
  2:{ by injection Hrun as <- <-. }
  destruct (silent_build_catalog args w1) as [Hf2 Ht2].
  destruct (build_catalog_seeded args w1 w) as [Hd _].
  exists (build_catalog args w1).2. rewrite <- Hd.
  destruct (build_catalog args w1) as [[d|e] w2]; simpl in *.
  - done.
  - by injection Hrun as <- <-.
Qed.

End Stages.

Section Keeps.
Context `{Library}.

Lemma keeps_silent {A} p (m : M _ A) : silent m → keeps p m.
Proof. intros Hm w. by destruct (Hm w) as [-> _]. Qed.

Lemma keeps_bind {A B} p (m : M _ A) (f : A → M _ B) :
  keeps p m → (∀ a, keeps p (f a)) → keeps p (m ≫= f).
Proof.
  intros Hm Hf w. unfold mbind, M_bind. specialize (Hm w).
  destruct (m w) as [[a|e] w1]; simpl in *; [|done].
  by rewrite (Hf a w1).
Qed.

Lemma keeps_for_each {A S} p (body : A → S → M _ S) l s :
  (∀ x s, keeps p (body x s)) → keeps p (for_each body l s).
Proof.
  intros Hbody. revert s. induction l as [|x l IH]; intros s; simpl.
  - by apply keeps_silent, silent_ret.
  - apply keeps_bind; [apply Hbody|apply IH].
Qed.

Lemma keeps_call_pipeline p cls name a : keeps p (call_pipeline cls name a).
Proof. done. Qed.

Lemma keeps_inpaint p args caption c : keeps p (inpaint args caption c).
Proof.
  unfold inpaint. apply keeps_bind; [apply keeps_call_pipeline|intros imgs].
  case_match; [apply keeps_call_pipeline|by apply keeps_silent, silent_ret].
Qed.

Lemma keeps_write_output p args prompt caption image l :
  p ≠ ann_path args → keeps p (write_output args prompt caption image l).
Proof.
  intros Hp w. unfold write_output, mbind, M_bind, Image_save, log, append_text.
  simpl. by rewrite lookup_insert_ne.
Qed.

Lemma keeps_start_manifest p args :
  p ≠ ann_path args → keeps p (start_manifest args).
Proof.
  intros Hp w. unfold start_manifest, mbind, M_bind, isfile, rm, append_text.
  simpl. case_bool_decide; simpl; rewrite lookup_insert_ne by done; [|done].
  by rewrite lookup_delete_ne.
Qed.

Lemma keeps_main p args : p ≠ ann_path args → keeps p (main args).
Proof.
  intros Hp. unfold main.
  apply keeps_bind; [by apply keeps_start_manifest|intros _].
  apply keeps_bind; [apply keeps_silent, silent_list_image_ids|intros ids].
  apply keeps_bind; [apply keeps_silent, silent_build_catalog|intros d].
  apply keeps_for_each. intros id []. unfold repaint_sample.
  apply keeps_bind; [|intros; by apply keeps_silent, silent_ret].
  apply keeps_for_each. intros item l. apply keeps_for_each. intros f l'.
  unfold repaint_pair.
  apply keeps_bind; [apply keeps_silent, silent_compose_pair|intros c].
  apply keeps_bind; [apply keeps_silent, silent_lookup_prompt|intros prompt].
  apply keeps_bind; [apply keeps_inpaint|intros imgs].
  apply keeps_for_each. intros im l''. by apply keeps_write_output.
Qed.

(** X12. A run writes one text file, the manifest: every other text file is
    left as it was, whether the run returns or raises. *)
Theorem main_writes_manifest_only (args : Args) (w : world _) (p : string) :
  p ≠ ann_path args →
  text_files (main args w).2 !! p = text_files w !! p.
Proof. intros Hp. by apply keeps_main. Qed.

End Keeps.

Section EarlyEnd.
Context `{Library}.

(** X13. A source directory that cannot be listed, or a catalog that cannot be
    built, ends the run with that exception: the old manifest is gone and
    the new one holds its header only, no pipeline ran and no image was
    written. *)
Theorem early_failure_leaves_header (args : Args) (w : world _) (e : exn) :
  (list_image_ids args w).1 = Raise e
  ∨ (returns (list_image_ids args w) ∧ (build_catalog args w).1 = Raise e) →
  ∃ w', main args w = (Raise e, w')
    ∧ manifest args w' = [header_line]
    ∧ trace w' = trace w.
Proof.
  intros Hfail.
  destruct (start_manifest_spec args w) as (w1 & Hstart & Hman & Htr & _).
  destruct (main args w) as [r w'] eqn:Hrun.
  destruct (main_stages args w r w' Hrun) as (w1' & Hstart' & Hst).
  rewrite Hstart in Hstart'. injection Hstart' as <-.
  destruct Hfail as [Hids|[[ids Hids] Hd]]; rewrite Hids in Hst.
  - destruct Hst as [-> ->]. by exists w1.
  - destruct Hst as (w2 & _ & _ & Hf2 & Ht2 & Hst). rewrite Hd in Hst.
    destruct Hst as [-> ->]. exists w2. split; [done|].
    unfold manifest in *. rewrite Hf2, Ht2. by split.
Qed.

Lemma catalog_size_0 (d : list (string * list string)) :
  catalog_size d = 0%nat → Forall (λ item, item.2 = []) d.
Proof.
  unfold catalog_size. induction d as [|item d IH]; [done|]. simpl.
  intros Hs. constructor; [destruct item.2; [done|simpl in Hs; lia]|].
  apply IH. lia.
Qed.

Lemma repaint_all_nothing args ids (d : list (string * list string)) w :
  ids = [] ∨ catalog_size d = 0%nat → repaint_all args ids d w = (Ok (), w).
Proof.
  intros Hno. unfold repaint_all. destruct Hno as [->|Hd]; [done|].
  apply catalog_size_0 in Hd. induction ids as [|id ids IH]; [done|].
  cbn [for_each]. unfold mbind at 1, M_bind at 1.
  assert (∀ l, for_each (repaint_category args (img_path (src_dir args) id)
                           (mask_path (src_dir args) id)) d l w = (Ok l, w)) as Hcat.
  { clear IH. induction Hd as [|item d Hitem _ IHd]; intros l; [done|].
    cbn [for_each]. unfold mbind, M_bind, repaint_category. rewrite Hitem.
    simpl. apply IHd. }
  unfold repaint_sample, mbind, M_bind. by rewrite Hcat.
Qed.

(** X14. With no foreground sample, or with a catalog that holds no background
    file, a run whose catalog is built returns having loaded no image,
    looked up no phrase and called no pipeline: the manifest holds its
    header only, whatever categories the catalog names. *)
Theorem nothing_to_repaint (args : Args) (w : world _) ids d :
  (list_image_ids args w).1 = Ok ids →
  (build_catalog args w).1 = Ok d →
  ids = [] ∨ catalog_size d = 0%nat →
  ∃ w', main args w = (Ok (), w')
    ∧ manifest args w' = [header_line]
    ∧ trace w' = trace w.
Proof.
  intros Hids Hd Hno.
  destruct (start_manifest_spec args w) as (w1 & Hstart & Hman & Htr & _).
  destruct (main args w) as [r w'] eqn:Hrun.
  destruct (main_stages args w r w' Hrun) as (w1' & Hstart' & Hst).
  rewrite Hstart in Hstart'. injection Hstart' as <-.
  rewrite Hids in Hst. destruct Hst as (w2 & _ & _ & Hf2 & Ht2 & Hst).
  rewrite Hd in Hst. rewrite repaint_all_nothing in Hst by done.
  injection Hst as <- <-. exists w2. split; [done|].
  unfold manifest in *. rewrite Hf2, Ht2. by split.
Qed.

End EarlyEnd.

Section Calls.
Context `{Library}.
Variable args : Args.

(** The loop rule once more, for a body that may use where in the list
    its element stands. *)
Lemma for_each_post_at {A S} (body : A → S → M _ S)
    (I : list A → S → world _ → Prop) (J : exn → world _ → Prop) l :
  (∀ pre x suf s w, l = (pre ++ x :: suf)%list → I pre s w →
     post (body x s w) (I (pre ++ [x])%list) J) →
  ∀ s w, I [] s w → post (for_each body l s w) (I l) J.
Proof.
  intros Hbody.
  cut (∀ l' pre s w, l = (pre ++ l')%list → I pre s w →
         post (for_each body l' s w) (I l) J).
  { intros Hcut s w. by apply (Hcut l []). }
  induction l' as [|x l' IH]; intros pre s w Hl HI; simpl.
  - apply post_ret. by rewrite Hl, app_nil_r.
  - apply post_bind. eapply post_mono; [by eapply Hbody| |done].
    intros s' w' HI'. simpl. apply (IH (pre ++ [x])%list); [|done].
    by rewrite <- app_assoc.
Qed.

Lemma pipeline_calls_same (w w' : world _) :
  trace w' = trace w → pipeline_calls w' = pipeline_calls w.
Proof. unfold pipeline_calls. by intros ->. Qed.

Lemma call_pipeline_calls cls name (a : pipe_args tensor) w :
  pipeline_calls (call_pipeline cls name a w).2 = S (pipeline_calls w).
Proof.
  unfold pipeline_calls, call_pipeline. simpl.
  rewrite filter_app, length_app. simpl. lia.
Qed.

Lemma inpaint_calls caption c w :
  post (inpaint args caption c w)
    (λ _ w', pipeline_calls w' = (pipeline_calls w + calls_per_pair args)%nat)
    (λ _ w', (pipeline_calls w < pipeline_calls w'
              ≤ pipeline_calls w + calls_per_pair args)%nat).
Proof.
  unfold inpaint, calls_per_pair, post, mbind, M_bind, call_pipeline,
    pipeline_calls.
  destruct (refiner (sd_inpaint_dict (inpaint_model_name args))) as [name|];
    repeat (match goal with
            | |- context [from_pretrained ?cls ?nm ?a ?g] =>
                destruct (from_pretrained cls nm a g) as [[?|?] ?]
            end; simpl);
    rewrite ?filter_app, ?length_app; simpl; lia.
Qed.

Lemma write_loop_calls prompt caption images l w :
  pipeline_calls (for_each (write_output args prompt caption) images l w).2
  = pipeline_calls w.
Proof.
  revert l w. induction images as [|im images IH]; intros l w; [done|].
  cbn [for_each]. unfold mbind at 1, M_bind at 1.
  unfold write_output at 2, mbind, M_bind, Image_save, log, append_text.
  simpl. rewrite IH. unfold pipeline_calls. simpl.
  rewrite filter_app, length_app. simpl. lia.
Qed.

Lemma write_loop_returns prompt caption images l w :
  ∃ l', (for_each (write_output args prompt caption) images l w).1 = Ok l'.
Proof.
  revert l w. induction images as [|im images IH]; intros l w; [by exists l|].
  cbn [for_each]. unfold mbind at 1, M_bind at 1.
  unfold write_output at 2, mbind, M_bind, Image_save, log, append_text.
  simpl. apply IH.
Qed.

Lemma repaint_pair_calls ip mp k bkg_file l w :
  post (repaint_pair args ip mp k bkg_file l w)
    (λ _ w', pipeline_calls w' = (pipeline_calls w + calls_per_pair args)%nat)
    (λ _ w', (pipeline_calls w ≤ pipeline_calls w'
              ≤ pipeline_calls w + calls_per_pair args)%nat).
Proof.
  unfold repaint_pair, post, mbind, M_bind.
  destruct (silent_compose_pair args ip mp bkg_file w) as [_ Ht1].
  destruct (compose_pair args ip mp bkg_file w) as [[c|e] w1]; simpl in Ht1.
  2:{ simpl. rewrite (pipeline_calls_same _ _ Ht1). lia. }
  apply pipeline_calls_same in Ht1. unfold lookup_prompt.
  destruct (bkg_to_prompt !! k) as [prompt|]; simpl; [|lia].
  pose proof (inpaint_calls (CAPTION prompt) c w1) as Hi. unfold post in Hi.
  destruct (inpaint args (CAPTION prompt) c w1) as [[imgs|e] w2]; simpl in *;
    [|lia].
  pose proof (write_loop_calls prompt (CAPTION prompt) imgs l w2) as Hw.
  destruct (write_loop_returns prompt (CAPTION prompt) imgs l w2) as [l' Hl'].
  destruct (for_each _ imgs l w2) as [[l''|e] w3]; simpl in *; [lia|done].
Qed.

Lemma catalog_size_app (d1 d2 : list (string * list string)) :
  catalog_size (d1 ++ d2) = (catalog_size d1 + catalog_size d2)%nat.
Proof.
  unfold catalog_size. induction d1 as [|x d1 IH]; simpl; [done|].
  rewrite IH. lia.
Qed.

Lemma repaint_category_calls ip mp (item : string * list string) l w :
  post (repaint_category args ip mp item l w)
    (λ _ w', pipeline_calls w'
             = (pipeline_calls w + length item.2 * calls_per_pair args)%nat)
    (λ _ w', (pipeline_calls w ≤ pipeline_calls w'
              ≤ pipeline_calls w + length item.2 * calls_per_pair args)%nat).
Proof.
  unfold repaint_category.
  eapply post_mono;
    [apply (for_each_post_at _
       (λ pre _ w', pipeline_calls w'
                    = (pipeline_calls w + length pre * calls_per_pair args)%nat)
       (λ _ w', (pipeline_calls w ≤ pipeline_calls w'
                 ≤ pipeline_calls w + length item.2 * calls_per_pair args)%nat))
    | |].
  - intros pre f suf l1 w1 Hl Hpre.
    eapply post_mono; [apply repaint_pair_calls| |].
    + intros ? w2 Hw2. simpl in *. rewrite length_app. simpl. lia.
    + intros e w2 Hw2. simpl in *. rewrite Hl, length_app. simpl. lia.
  - simpl. lia.
  - done.
  - done.
Qed.

Lemma repaint_sample_calls (d : list (string * list string)) id w :
  post (repaint_sample args d id () w)
    (λ _ w', pipeline_calls w'
             = (pipeline_calls w + catalog_size d * calls_per_pair args)%nat)
    (λ _ w', (pipeline_calls w ≤ pipeline_calls w'
              ≤ pipeline_calls w + catalog_size d * calls_per_pair args)%nat).
Proof.
  unfold repaint_sample. apply post_bind.
  eapply post_mono;
    [apply (for_each_post_at _
       (λ pre _ w', pipeline_calls w'
                    = (pipeline_calls w + catalog_size pre * calls_per_pair args)%nat)
       (λ _ w', (pipeline_calls w ≤ pipeline_calls w'
                 ≤ pipeline_calls w + catalog_size d * calls_per_pair args)%nat))
    | |].
  - intros pre item suf l1 w1 Hl Hpre.
    eapply post_mono; [apply repaint_category_calls| |].
    + intros ? w2 Hw2. simpl in *. rewrite catalog_size_snoc. lia.
    + intros e w2 Hw2. simpl in *.
      rewrite Hl, (cons_middle item pre suf), app_assoc, catalog_size_app,
        catalog_size_snoc. lia.
  - simpl. unfold catalog_size. simpl. lia.
  - intros l' w' Hw'. by apply post_ret.
  - done.
Qed.

Lemma repaint_all_calls ids (d : list (string * list string)) w :
  post (repaint_all args ids d w)
    (λ _ w', pipeline_calls w'
             = (pipeline_calls w
                + length ids * (catalog_size d * calls_per_pair args))%nat)
    (λ _ w', (pipeline_calls w ≤ pipeline_calls w'
              ≤ pipeline_calls w
                + length ids * (catalog_size d * calls_per_pair args))%nat).
Proof.
  unfold repaint_all.
  apply (for_each_post_at _
    (λ pre _ w', pipeline_calls w'
                 = (pipeline_calls w
                    + length pre * (catalog_size d * calls_per_pair args))%nat)).
  - intros pre id suf [] w1 Hl Hpre.
    eapply post_mono; [apply repaint_sample_calls| |].
    + intros ? w2 Hw2. simpl in *. rewrite length_app. simpl. lia.
    + intros e w2 Hw2. simpl in *. rewrite Hl, length_app. simpl. lia.
  - simpl. lia.
Qed.

(** X15. A complete run calls a pipeline once for every (foreground,
    background) pair, and once more for the refiner when the preset has
    one; a run that raises has called them no more often than that. *)
Theorem run_pipeline_calls (w : world _) r w' ids d :
  main args w = (r, w') →
  (list_image_ids args w).1 = Ok ids →
  (build_catalog args w).1 = Ok d →
  let total := (length ids * catalog_size d * calls_per_pair args)%nat in
  (pipeline_calls w ≤ pipeline_calls w' ≤ pipeline_calls w + total)%nat
  ∧ (r = Ok () → pipeline_calls w' = (pipeline_calls w + total)%nat).
Proof.
  intros Hrun Hids Hd total.
  destruct (start_manifest_spec args w) as (w1 & Hstart & _ & Htr & _).
  destruct (main_stages args w r w' Hrun) as (w1' & Hstart' & Hst).
  rewrite Hstart in Hstart'. injection Hstart' as <-.
  rewrite Hids in Hst. destruct Hst as (w2 & _ & _ & _ & Ht2 & Hst).
  rewrite Hd in Hst. rewrite Htr in Ht2. apply pipeline_calls_same in Ht2.
  pose proof (repaint_all_calls ids d w2) as Hall. unfold post in Hall.
  rewrite Hst in Hall. subst total. rewrite <- Nat.mul_assoc.
  destruct r as [[]|e]; simpl in Hall; (split; [lia|]); [lia|done].
Qed.

End Calls.

Section Rows.
Context `{Library}.
Variable args : Args.

Lemma logged_refl w : logged args w [] w.
Proof. unfold logged. simpl. by rewrite !app_nil_r. Qed.

Lemma logged_trans w o1 w1 o2 w2 :
  logged args w o1 w1 → logged args w1 o2 w2 → logged args w (o1 ++ o2) w2.
Proof.
  intros (Hs1 & Hm1 & Hk1) (Hs2 & Hm2 & Hk2). unfold logged.
  rewrite !fmap_app, !app_assoc, <- Hs1, <- Hm1.
  repeat split; try done. by apply Forall_app.
Qed.

Lemma wrote_logged l w pcs cs w' :
  wrote args l w pcs cs w' → logged args w (outputs l pcs) w'.
Proof.
  intros (Hs & Hm & _ & Hk & _). repeat split; try done.
  unfold outputs. apply Forall_lookup. intros i o Hi.
  apply list_lookup_imap_Some in Hi as (pc & Hpc & ->).
  destruct (Forall_lookup_1 _ _ _ _ Hk Hpc) as [[k Hphrase] Hcap].
  exists k, (Nat.iter i Path.stem (img_id l)), (cnt l + i)%nat.
  unfold nth_output. simpl. by rewrite Hcap.
Qed.

Lemma repaint_all_logged ids (d : list (string * list string)) w :
  post (repaint_all args ids d w)
    (λ _ w', ∃ outs, logged args w outs w')
    (λ _ w', ∃ outs, logged args w outs w').
Proof.
  unfold repaint_all.
  apply (for_each_post _ (λ _ _ w', ∃ outs, logged args w outs w')).
  - intros pre id [] w1 [outs Ho].
    eapply post_mono; [apply repaint_sample_spec| |].
    + intros ? w2 (_ & pcs & cs & _ & Hw). simpl. eexists.
      eapply logged_trans; [done|by eapply wrote_logged].
    + intros e w2 (pcs & cs & Hw). simpl. eexists.
      eapply logged_trans; [done|by eapply wrote_logged].
  - exists []. apply logged_refl.
Qed.

Lemma main_logged (w : world _) r w' :
  main args w = (r, w') →
  ∃ outs,
    manifest args w' = header_line :: (row args <$> outs)
    ∧ saved_paths w' = (saved_paths w ++ (saved_as args <$> outs))%list
    ∧ Forall named_output outs.
Proof.
  intros Hrun.
  destruct (start_manifest_spec args w) as (w1 & Hstart & Hman & Htr & _).
  destruct (main_stages args w r w' Hrun) as (w1' & Hstart' & Hst).
  rewrite Hstart in Hstart'. injection Hstart' as <-.
  assert (∀ w2, text_files w2 = text_files w1 → trace w2 = trace w1 →
            manifest args w2 = [header_line] ∧ saved_paths w2 = saved_paths w)
    as Hsame.
  { intros w2 Hf2 Ht2. unfold manifest, saved_paths in *. by rewrite Hf2, Ht2, Htr. }
  destruct (list_image_ids args w).1 as [ids|e].
  2:{ destruct Hst as [-> ->]. exists []. simpl. rewrite app_nil_r.
      destruct (Hsame w1) as [-> ->]; done. }
  destruct Hst as (w2 & _ & _ & Hf2 & Ht2 & Hst).
  destruct (Hsame w2 Hf2 Ht2) as [Hm2 Hs2].
  destruct (build_catalog args w).1 as [d|e].
  2:{ destruct Hst as [-> ->]. exists []. simpl. by rewrite app_nil_r. }
  pose proof (repaint_all_logged ids d w2) as Hall. unfold post in Hall.
  rewrite Hst in Hall.
  assert (∃ outs, logged args w2 outs w') as (outs & Hs & Hm & Hk)
    by (destruct r; exact Hall).
  exists outs. by rewrite Hs, Hm, Hm2, Hs2.
Qed.

(** X16. After any run, complete or not, the manifest is the header followed
    by one row per image the run wrote, in the order written: each row
    gives the destination directory, the name the image was saved under
    in that directory (a stem, the counter and the caption) and the
    phrase of the table the caption was made from. Rows of an earlier run
    are gone. *)
Theorem manifest_mirrors_outputs (w : world _) r w' :
  main args w = (r, w') →
  ∃ outs,
    manifest args w' = header_line :: (row args <$> outs)
    ∧ saved_paths w' = (saved_paths w ++ (saved_as args <$> outs))%list
    ∧ Forall named_output outs.
Proof. apply main_logged. Qed.

End Rows.

Section ComposeErrors.
Context `{Library}.
Variable args : Args.

(** X6. A pair is composed exactly when the resolution is positive, the
    foreground image and its mask load, and the background is noise or a
    scene that loads. *)
Theorem compose_pair_returns_iff (ip mp bkg_file : string) (w : world _) :
  returns (compose_pair args ip mp bkg_file w)
  ↔ 0 < resolution args
    ∧ is_Some (Image_open_RGB ip) ∧ is_Some (Image_open_RGB mp)
    ∧ (noise_bkg args = true ∨ is_Some (Image_open_RGB bkg_file)).
Proof.
  unfold returns, compose_pair, load_background, np_random_randint_uint8,
    Image_open, resize, with_rng, mbind, M_bind, mret, M_ret, raise.
  cbn [fst snd].
  destruct (noise_bkg args); cbn [fst snd].
  - destruct (Z.ltb_spec (resolution args) 0) as [Hneg|Hnn]; cbn [orb fst snd].
    { split; [by intros [? ?]|]. intros (? & _). lia. }
    destruct (Image_open_RGB ip) as [img|]; cbn [fst snd];
      [|split; [by intros [? ?]|by intros (_ & [? ?] & _)]].
    destruct (Image_open_RGB mp) as [mask|]; cbn [fst snd];
      [|split; [by intros [? ?]|by intros (_ & _ & [? ?] & _)]].
    destruct (Z.leb_spec (resolution args) 0) as [Hle|Hpos]; cbn [orb fst snd].
    { split; [by intros [? ?]|]. intros (? & _). lia. }
    split; [intros _|intros _; eauto]. repeat split; eauto.
  - destruct (Image_open_RGB bkg_file) as [bkg|]; cbn [fst snd];
      [|split; [by intros [? ?]|by intros (_ & _ & _ & [?|[? ?]])]].
    destruct (Image_open_RGB ip) as [img|]; cbn [fst snd];
      [|split; [by intros [? ?]|by intros (_ & [? ?] & _)]].
    destruct (Image_open_RGB mp) as [mask|]; cbn [fst snd];
      [|split; [by intros [? ?]|by intros (_ & _ & [? ?] & _)]].
    destruct (Z.leb_spec (resolution args) 0) as [Hle|Hpos]; cbn [orb fst snd].
    { split; [by intros [? ?]|]. intros (? & _). lia. }
    split; [intros _|intros _; eauto]. repeat split; eauto.
Qed.

(** X7. A sample whose mask file is missing: once the background is there
    and the foreground image has loaded, the pair raises
    [FileNotFoundError] for the mask path, with no phrase looked up, no
    pipeline called and nothing written, whatever the category. *)
Theorem missing_mask_stops_pair (ip mp k bkg_file : string) (l : locals)
    (w : world _) bkg w1 :
  load_background args bkg_file w = (Ok bkg, w1) →
  is_Some (Image_open_RGB ip) → Image_open_RGB mp = None →
  repaint_pair args ip mp k bkg_file l w = (Raise (FileNotFoundError mp), w1)
  ∧ text_files w1 = text_files w ∧ trace w1 = trace w.
Proof.
  intros Hb [img Hi] Hm.
  destruct (silent_load_background args bkg_file w) as [Hf Ht].
  rewrite Hb in Hf, Ht. split; [|done].
  unfold repaint_pair, compose_pair, mbind, M_bind, Image_open.
  by rewrite Hb, Hi, Hm.
Qed.

End ComposeErrors.

Section Keys.
Context `{Library}.

Lemma dict_set_keys_in {V} (d : list (string * V)) k v :
  k ∈ d.*1 → (dict_set d k v).*1 = d.*1.
Proof.
  induction d as [|[k' v'] d IH]; [by intros ?%elem_of_nil|].
  simpl. case_decide as Hk; [done|]. intros [?|Hin]%elem_of_cons; [done|].
  simpl. f_equal. by apply IH.
Qed.



Lemma dict_set_lookup {V} (d : list (string * V)) k v v' :
  NoDup d.*1 → (k, v') ∈ dict_set d k v → v' = v.
Proof.
  induction d as [|[k0 v0] d IH]; simpl.
  - by intros _ [=]%list_elem_of_singleton.
  - intros Hd. apply NoDup_cons in Hd as [Hk0 Hd]. case_decide as Hk.
    + subst k0. intros [[=]|Hin]%elem_of_cons; [done|].
      exfalso. apply Hk0. apply list_elem_of_fmap. by exists (k, v').
    + intros [[=]|Hin]%elem_of_cons; [done|]. by apply IH.
Qed.


(** X18. A directory with images whose leaf name is already a key takes that
    entry over: the keys and their order stay as they were, and the entry
    then holds files of the directory scanned last only; the files drawn
    from the earlier directory of that name are dropped. *)
Theorem same_leaf_name_overwrites (args : Args) (root : string)
    (dirs files : list string) (d0 : list (string * list string))
    (w0 : world _) d1 w1 :
  NoDup d0.*1 → Path.stem root ∈ d0.*1 → image_files files ≠ [] →
  scan_directory args (root, dirs, files) d0 w0 = (Ok d1, w1) →
  d1.*1 = d0.*1
  ∧ ∀ sel, (Path.stem root, sel) ∈ d1 →
           length sel = Z.to_nat (max_num_bkg_scenes args)
           ∧ sel ⊆+ (Path.osp_join root <$> image_files files).
Proof.
  intros Hd0 Hin Hne Hscan.
  pose proof (scan_directory_spec args root dirs files d0 w0) as Hs.
  rewrite Hscan in Hs. simpl in Hs.
  destruct Hs as [(Hnil & _)|(_ & _ & sel & -> & Hlen & Hsub)]; [done|].
  split; [by apply dict_set_keys_in|].
  intros sel' Hsel'. by rewrite (dict_set_lookup _ _ _ _ Hd0 Hsel').
Qed.

End Keys.

Section Under.
Context `{Library}.

(** X21. Every image of a run is written inside the destination directory:
    its path is the destination directory followed by a file name that is
    not an absolute path, whatever the foreground ids are. *)
Theorem outputs_under_dest_dir (args : Args) (w : world _) r w' :
  main args w = (r, w') →
  ∃ new, saved_paths w' = (saved_paths w ++ new)%list
    ∧ Forall (λ p, Py.startswith p (dest_dir args) = true) new.
Proof.
  intros Hrun.
  destruct (main_logged args w r w' Hrun) as (outs & _ & Hs & Hn).
  exists (saved_as args <$> outs). split; [done|].
  apply Forall_fmap. eapply Forall_impl; [done|].
  intros o (k & id & n & _ & Ho). simpl. unfold saved_as. rewrite Ho.
  apply osp_join_under, out_name_relative.
Qed.

Lemma build_catalog_nothing args (w : world _) :
  (∀ bkg_root root dirs files,
     bkg_root ∈ bkg_dir args → (root, dirs, files) ∈ os_walk bkg_root →
     image_files files = []) →
  (build_catalog args w).1 = Ok [].
Proof.
  intros Hnone.
  assert (post (build_catalog args w) (λ d _, d = []) (λ _ _, False)) as Hp.
  { unfold build_catalog. apply post_bind. unfold post at 1. simpl.
    apply (for_each_post_elem _ (λ d _, d = [])); [|done].
    intros bkg_root d w1 Hroot ->. unfold scan_root.
    apply (for_each_post_elem _ (λ d _, d = [])); [|done].
    intros [[root dirs] files] d' w2 Hentry ->.
    unfold scan_directory. rewrite (Hnone _ _ _ _ Hroot Hentry).
    by apply post_ret. }
  unfold post in Hp. destruct (build_catalog args w).1 as [d|e]; [by subst d|done].
Qed.

Lemma build_catalog_zero args (w : world _) :
  max_num_bkg_scenes args = 0 →
  ∃ d, (build_catalog args w).1 = Ok d ∧ catalog_size d = 0%nat.
Proof.
  intros Hmax. pose proof (build_catalog_post args w) as Hp. unfold post in Hp.
  destruct (build_catalog args w).1 as [d|e].
  - exists d. split; [done|]. unfold catalog_size.
    induction Hp as [|item d (_ & _ & _ & _ & _ & _ & _ & Hlen & _) _ IH]; [done|].
    simpl. rewrite Hlen, Hmax, IH. done.
  - exfalso. destruct Hp as [?|(_ & _ & _ & files & _ & _ & _ & Hlt)]; lia.
Qed.

(** X20. When no walked background directory holds an image file (a root that
    does not exist walks as nothing), or when the maximum number of
    scenes is 0, a run over a source directory that can be listed returns
    without an error: no image is loaded, no pipeline is called, and the
    manifest holds its header only. *)
Theorem no_background_run_is_empty (args : Args) (w : world _) :
  returns (list_image_ids args w) →
  max_num_bkg_scenes args = 0
  ∨ (∀ bkg_root root dirs files,
       bkg_root ∈ bkg_dir args → (root, dirs, files) ∈ os_walk bkg_root →
       image_files files = []) →
  ∃ w', main args w = (Ok (), w')
    ∧ manifest args w' = [header_line]
    ∧ trace w' = trace w.
Proof.
  intros [ids Hids] Hno.
  assert (∃ d, (build_catalog args w).1 = Ok d ∧ catalog_size d = 0%nat)
    as (d & Hd & Hsize).
  { destruct Hno as [Hmax|Hnone]; [by apply build_catalog_zero|].
    exists []. split; [by apply build_catalog_nothing|done]. }
  destruct (start_manifest_spec args w) as (w1 & Hstart & Hman & Htr & _).
  destruct (main args w) as [r w'] eqn:Hrun.
  destruct (main_stages args w r w' Hrun) as (w1' & Hstart' & Hst).
  rewrite Hstart in Hstart'. injection Hstart' as <-.
  rewrite Hids in Hst. destruct Hst as (w2 & _ & _ & Hf2 & Ht2 & Hst).
  rewrite Hd in Hst. rewrite repaint_all_nothing in Hst by (by right).
  injection Hst as <- <-. exists w2. split; [done|].
  unfold manifest in *. rewrite Hf2, Ht2. by split.
Qed.

End Under.

Section Reseed.
Context `{Library}.

(** X22. A run does not depend on the state numpy's generator is in when it
    starts: nothing draws before the seeding of line 169, so the outcome,
    the files and the pipeline calls are the same from any starting
    state, and so is the generator state at the end once the source
    directory has been listed. *)
Theorem run_independent_of_generator (args : Args) (w : world _)
    (g : rng_state) :
  (main args (with_generator g w)).1 = (main args w).1
  ∧ text_files (main args (with_generator g w)).2 = text_files (main args w).2
  ∧ trace (main args (with_generator g w)).2 = trace (main args w).2
  ∧ gpu (main args (with_generator g w)).2 = gpu (main args w).2
  ∧ (returns (list_image_ids args w) →
     main args (with_generator g w) = main args w).
Proof.
  unfold returns, main, start_manifest, list_image_ids, build_catalog, mbind,
    M_bind, isfile, rm, append_text, seed, with_generator.
  cbn [fst snd rng gpu text_files trace].
  destruct (bool_decide _); destruct (os_listdir (src_dir args));
    repeat split; try reflexivity; by intros [? ?].
Qed.

End Reseed.

(** * The generator, the trace and the phrases of a run *)
Section NoDraws.
Context `{Library}.

Lemma draws_nothing_ret {A} (a : A) : draws_nothing (mret a).
Proof. done. Qed.

Lemma draws_nothing_raise {A} e : draws_nothing (raise (A := A) e).
Proof. done. Qed.

Lemma draws_nothing_bind {A B} (m : M _ A) (f : A → M _ B) :
  draws_nothing m → (∀ a, draws_nothing (f a)) → draws_nothing (m ≫= f).
Proof.
  intros Hm Hf w. unfold mbind, M_bind. specialize (Hm w).
  destruct (m w) as [[a|e] w1]; simpl in *; [|done].
  by rewrite (Hf a w1).
Qed.

Lemma draws_nothing_for_each {A S} (body : A → S → M _ S) l s :
  (∀ x s, draws_nothing (body x s)) → draws_nothing (for_each body l s).
Proof.
  intros Hbody. revert s. induction l as [|x l IH]; intros s; simpl.
  - apply draws_nothing_ret.
  - apply draws_nothing_bind; [apply Hbody|apply IH].
Qed.

Lemma draws_nothing_Image_open path : draws_nothing (Image_open path).
Proof.
  unfold Image_open. case_match; [apply draws_nothing_ret|apply draws_nothing_raise].
Qed.

Lemma draws_nothing_resize im size : draws_nothing (resize im size).
Proof.
  unfold resize. case_match; [apply draws_nothing_raise|apply draws_nothing_ret].
Qed.

Lemma draws_nothing_compose_pair args ip mp bkg_file :
  noise_bkg args = false → draws_nothing (compose_pair args ip mp bkg_file).
Proof.
  intros Hn. unfold compose_pair, load_background. rewrite Hn.
  apply draws_nothing_bind;
    [apply draws_nothing_bind;
       [apply draws_nothing_Image_open|intros; apply draws_nothing_ret]|intros].
  repeat (apply draws_nothing_bind;
          [first [apply draws_nothing_Image_open|apply draws_nothing_resize
                 |apply draws_nothing_ret]|intros]).
  apply draws_nothing_ret.
Qed.

Lemma draws_nothing_inpaint args caption c :
  draws_nothing (inpaint args caption c).
Proof.
  unfold inpaint. apply draws_nothing_bind; [done|intros imgs].
  case_match; [done|apply draws_nothing_ret].
Qed.

Lemma draws_nothing_repaint_all args ids (d : list (string * list string)) :
  noise_bkg args = false → draws_nothing (repaint_all args ids d).
Proof.
  intros Hn. unfold repaint_all. apply draws_nothing_for_each.
  intros id []. unfold repaint_sample.
  apply draws_nothing_bind; [|intros; apply draws_nothing_ret].
  apply draws_nothing_for_each. intros item l. apply draws_nothing_for_each.
  intros f l'. unfold repaint_pair.
  apply draws_nothing_bind; [by apply draws_nothing_compose_pair|intros c].
  apply draws_nothing_bind.
  { unfold lookup_prompt. case_match; [apply draws_nothing_ret|apply draws_nothing_raise]. }
  intros prompt. apply draws_nothing_bind; [apply draws_nothing_inpaint|intros imgs].
  apply draws_nothing_for_each. intros im l''. done.
Qed.

(** X23. Without noise backgrounds, repainting draws no random number: once
    the source directory is listed, the generator is left in the state
    the catalog build left it in, a state fixed by the seed, the
    directory tree and the maximum. *)
Theorem repainting_draws_nothing (args : Args) (w : world _) :
  noise_bkg args = false → returns (list_image_ids args w) →
  rng (main args w).2 = rng (build_catalog args w).2.
Proof.
  intros Hn [ids Hids].
  destruct (main args w) as [r w'] eqn:Hrun.
  destruct (main_stages args w r w' Hrun) as (w1 & _ & Hst).
  rewrite Hids in Hst. destruct Hst as (w2 & Hw2 & _ & _ & _ & Hst).
  destruct (build_catalog_seeded args w1 w) as [_ Hg]. rewrite Hw2 in Hg.
  simpl. rewrite <- Hg.
  destruct (build_catalog args w).1 as [d|e].
  - pose proof (draws_nothing_repaint_all args ids d Hn w2) as Hk.
    by rewrite Hst in Hk.
  - by destruct Hst as [_ ->].
Qed.

End NoDraws.

Section TraceFacts.
Context `{Library}.
Variable args : Args.

Lemma extended_refl w : extended args w [] w.
Proof. split; [by rewrite app_nil_r|done]. Qed.

Lemma extended_trans w n1 w1 n2 w2 :
  extended args w n1 w1 → extended args w1 n2 w2 →
  extended args w (n1 ++ n2) w2.
Proof.
  intros [Ht1 Hf1] [Ht2 Hf2]. split; [by rewrite Ht2, Ht1, app_assoc|].
  by apply Forall_app.
Qed.

Lemma extended_same w w' :
  trace w' = trace w → extended args w [] w'.
Proof. intros Ht. split; [by rewrite app_nil_r|done]. Qed.

Lemma length_repeat_list {A} (x : A) n :
  length (repeat_list x n) = Z.to_nat n.
Proof. unfold repeat_list. apply length_replicate. Qed.

(** The calls of one pair. *)
Lemma inpaint_trace caption c w :
  sized args (c_image c) → sized args (c_mask_image c) →
  post (inpaint args caption c w)
    (λ imgs w', length imgs = batch args
       ∧ ∃ cs, extended args w cs w'
           ∧ is_save <$> cs = replicate (calls_per_pair args) false)
    (λ _ w', ∃ cs, extended args w cs w').
Proof.
  intros Hi Hm. unfold inpaint, calls_per_pair, post, mbind, M_bind,
    call_pipeline, extended.
  set (p := sd_inpaint_dict (inpaint_model_name args)).
  match goal with |- context [from_pretrained ?cls ?nm ?a (gpu w)] =>
    set (a1 := a);
    assert (well_formed_call args (PipelineCall (sd_pipe p) (model p) a1)) as Hw1
  end.
  { unfold well_formed_call, a1. cbn. fold p.
    rewrite !length_repeat_list. split_and!; try done.
    exists (c_image c). by split. }
  destruct (from_pretrained (sd_pipe p) (model p) a1 (gpu w)) as [r g1] eqn:Hr1.
  destruct r as [imgs|e]; cbn [fst snd].
  2:{ eexists. split; [reflexivity|]. by apply Forall_singleton. }
  pose proof (pipeline_batch _ _ _ _ _ _ Hr1) as Hlen.
  unfold a1 in Hlen at 1. cbn [pa_prompt] in Hlen.
  rewrite length_repeat_list in Hlen. fold (batch args) in Hlen.
  destruct (refiner p) as [name|] eqn:Hp.
  - cbn [fst snd gpu trace rng text_files].
    match goal with |- context [from_pretrained ?cls name ?a g1] =>
      set (a2 := a);
      assert (well_formed_call args (PipelineCall (sd_pipe p) name a2)) as Hw2
    end.
    { unfold well_formed_call, a2. cbn. fold p.
      rewrite !length_repeat_list. split_and!; try done. }
    destruct (from_pretrained (sd_pipe p) name a2 g1) as [r2 g2] eqn:Hr2.
    assert (Forall (well_formed_call args)
              [PipelineCall (sd_pipe p) (model p) a1;
               PipelineCall (sd_pipe p) name a2]) as Hboth
      by (constructor; [done|]; constructor; [done|constructor]).
    destruct r2 as [imgs2|e]; cbn [fst snd trace].
    + pose proof (pipeline_batch _ _ _ _ _ _ Hr2) as Hlen2.
      unfold a2 in Hlen2 at 1. cbn [pa_prompt] in Hlen2.
      rewrite length_repeat_list in Hlen2. split; [done|].
      eexists. split; [split; [by rewrite <- app_assoc|done]|done].
    + eexists. split; [by rewrite <- app_assoc|done].
  - cbn [fst snd trace]. split; [done|].
    eexists. split; [split; [reflexivity|by apply Forall_singleton]|done].
Qed.

Lemma write_output_trace prompt caption image l w :
  ∃ l1 w1 p im,
    write_output args prompt caption image l w = (Ok l1, w1)
    ∧ trace w1 = (trace w ++ [SaveImage p im])%list.
Proof.
  unfold write_output, mbind, M_bind, Image_save, log, append_text.
  cbn [fst snd trace]. by eexists _, _, _, _.
Qed.

(** The images of one pair. *)
Lemma write_loop_trace prompt caption images l w :
  ∃ l' w' ss,
    for_each (write_output args prompt caption) images l w = (Ok l', w')
    ∧ extended args w ss w'
    ∧ is_save <$> ss = replicate (length images) true.
Proof.
  revert l w. induction images as [|image images IH]; intros l w.
  { exists l, w, []. split; [done|]. split; [apply extended_refl|done]. }
  cbn [for_each]. unfold mbind at 1, M_bind at 1.
  destruct (write_output_trace prompt caption image l w)
    as (l1 & w1 & p & im & -> & Ht1).
  destruct (IH l1 w1) as (l' & w' & ss & -> & [Ht Hf] & Hk).
  exists l', w', (SaveImage p im :: ss). split; [done|]. split; [split|].
  - by rewrite Ht, Ht1, <- app_assoc.
  - by constructor.
  - cbn. by rewrite Hk.
Qed.

Lemma pairs_done_0 w w' : trace w' = trace w → pairs_done args w 0 w'.
Proof. intros Ht. exists []. split; [by apply extended_same|done]. Qed.

Lemma pairs_done_add w n w1 m w2 :
  pairs_done args w n w1 → pairs_done args w1 m w2 → pairs_done args w (n + m) w2.
Proof.
  intros (n1 & He1 & Hk1) (n2 & He2 & Hk2). exists (n1 ++ n2)%list.
  split; [by eapply extended_trans|].
  by rewrite fmap_app, Hk1, Hk2, replicate_add, concat_app.
Qed.

Lemma pairs_done_extended w n w' :
  pairs_done args w n w' → ∃ new, extended args w new w'.
Proof. intros (new & He & _). by exists new. Qed.

Lemma extended_after w n w1 new w2 :
  pairs_done args w n w1 → extended args w1 new w2 → ∃ new', extended args w new' w2.
Proof.
  intros (n1 & He1 & _) He2. eexists. by eapply extended_trans.
Qed.

Lemma repaint_pair_trace ip mp k bkg_file l w :
  post (repaint_pair args ip mp k bkg_file l w)
    (λ _ w', pairs_done args w 1 w')
    (λ _ w', ∃ new, extended args w new w').
Proof.
  unfold repaint_pair, post, mbind, M_bind.
  destruct (compose_pair args ip mp bkg_file w) as [[c|e] w1] eqn:Hc.
  2:{ destruct (silent_compose_pair args ip mp bkg_file w) as [_ Ht].
      rewrite Hc in Ht. cbn [fst snd]. exists []. by apply extended_same. }
  destruct (compose_pair_arrays args ip mp bkg_file w c w1 Hc) as (_ & Hs & _ & Ht1).
  apply Forall_cons in Hs as [Hi Hs]. apply Forall_cons in Hs as [Hm _].
  unfold lookup_prompt. destruct (bkg_to_prompt !! k) as [prompt|]; simpl.
  2:{ exists []. by apply extended_same. }
  pose proof (inpaint_trace (CAPTION prompt) c w1 Hi Hm) as Hin.
  unfold post in Hin.
  destruct (inpaint args (CAPTION prompt) c w1) as [[imgs|e] w2];
    simpl in Hin; simpl.
  2:{ destruct Hin as (cs & Ht & Hf). exists cs. split; [by rewrite Ht, Ht1|done]. }
  destruct Hin as (Hlen & cs & [Ht Hf] & Hk).
  destruct (write_loop_trace prompt (CAPTION prompt) imgs l w2)
    as (l' & w3 & ss & -> & [Ht3 Hf3] & Hk3).
  cbn [fst snd]. exists (cs ++ ss)%list. split; [split|].
  - by rewrite Ht3, Ht, Ht1, app_assoc.
  - by apply Forall_app.
  - rewrite fmap_app, Hk, Hk3, Hlen. cbn. by rewrite app_nil_r.
Qed.

Lemma repaint_category_trace ip mp (item : string * list string) l w :
  post (repaint_category args ip mp item l w)
    (λ _ w', pairs_done args w (length item.2) w')
    (λ _ w', ∃ new, extended args w new w').
Proof.
  unfold repaint_category.
  eapply post_mono;
    [apply (for_each_post _ (λ pre _ w', pairs_done args w (length pre) w')
              (λ _ w', ∃ new, extended args w new w'))| |].
  - intros pre f l1 w1 Hpre.
    eapply post_mono; [apply repaint_pair_trace| |].
    + intros ? w2 Hw2. cbv beta. rewrite length_app. by eapply pairs_done_add.
    + intros e w2 [new Hnew]. by eapply extended_after.
  - by apply pairs_done_0.
  - done.
  - done.
Qed.

Lemma repaint_sample_trace (d : list (string * list string)) id w :
  post (repaint_sample args d id () w)
    (λ _ w', pairs_done args w (catalog_size d) w')
    (λ _ w', ∃ new, extended args w new w').
Proof.
  unfold repaint_sample. apply post_bind.
  eapply post_mono;
    [apply (for_each_post _ (λ pre _ w', pairs_done args w (catalog_size pre) w')
              (λ _ w', ∃ new, extended args w new w'))| |].
  - intros pre item l1 w1 Hpre.
    eapply post_mono; [apply repaint_category_trace| |].
    + intros ? w2 Hw2. cbv beta. rewrite catalog_size_snoc.
      by eapply pairs_done_add.
    + intros e w2 [new Hnew]. by eapply extended_after.
  - by apply pairs_done_0.
  - intros l' w' Hw'. by apply post_ret.
  - done.
Qed.

Lemma repaint_all_trace ids (d : list (string * list string)) w :
  post (repaint_all args ids d w)
    (λ _ w', pairs_done args w (length ids * catalog_size d) w')
    (λ _ w', ∃ new, extended args w new w').
Proof.
  unfold repaint_all.
  apply (for_each_post _
    (λ pre _ w', pairs_done args w (length pre * catalog_size d) w')).
  - intros pre id [] w1 Hpre.
    eapply post_mono; [apply repaint_sample_trace| |].
    + intros ? w2 Hw2. cbv beta. rewrite length_app, Nat.mul_add_distr_r.
      simpl. rewrite Nat.add_0_r. by eapply pairs_done_add.
    + intros e w2 [new Hnew]. by eapply extended_after.
  - by apply pairs_done_0.
Qed.

Lemma main_trace (w : world _) r w' :
  main args w = (r, w') →
  (∃ new, extended args w new w')
  ∧ ∀ ids d, r = Ok () → (list_image_ids args w).1 = Ok ids →
             (build_catalog args w).1 = Ok d →
             pairs_done args w (length ids * catalog_size d) w'.
Proof.
  intros Hrun.
  destruct (start_manifest_spec args w) as (w1 & Hstart & _ & Htr & _).
  destruct (main_stages args w r w' Hrun) as (w1' & Hstart' & Hst).
  rewrite Hstart in Hstart'. injection Hstart' as <-.
  destruct (list_image_ids args w).1 as [ids|e].
  2:{ destruct Hst as [-> ->]. split; [exists []; by apply extended_same|done]. }
  destruct Hst as (w2 & _ & _ & _ & Ht2 & Hst). rewrite Htr in Ht2.
  destruct (build_catalog args w).1 as [d|e].
  2:{ destruct Hst as [-> ->]. split; [exists []; by apply extended_same|done]. }
  pose proof (repaint_all_trace ids d w2) as Hall. unfold post in Hall.
  rewrite Hst in Hall. cbn [fst snd] in Hall.
  assert (∀ n, pairs_done args w2 n w' → pairs_done args w n w') as Hfrom.
  { intros n (new & [Ht Hf] & Hk). exists new. split; [split|done]; [|done].
    by rewrite Ht, Ht2. }
  destruct r as [[]|e].
  - apply Hfrom in Hall. split; [by eapply pairs_done_extended|].
    intros ids' d' _ [= <-] [= <-]. done.
  - split; [|done]. destruct Hall as (new & [Ht Hf]). exists new.
    split; [by rewrite Ht, Ht2|done].
Qed.


(** X25. A complete run leaves the trace of one block per (foreground,
    background) pair, sample by sample in catalog order: the pair's
    pipeline calls, then its saved images; no image of a pair is written
    before the pair's last pipeline call has returned, and no pair starts
    before the images of the one before it are written. *)
Theorem run_in_pair_blocks (w : world _) w' ids d :
  main args w = (Ok (), w') →
  (list_image_ids args w).1 = Ok ids →
  (build_catalog args w).1 = Ok d →
  ∃ new, trace w' = (trace w ++ new)%list
         ∧ is_save <$> new
           = concat (replicate (length ids * catalog_size d) (pair_block args)).
Proof.
  intros Hrun Hids Hd.
  destruct (main_trace w (Ok ()) w' Hrun) as [_ Hdone].
  destruct (Hdone ids d eq_refl Hids Hd) as (new & [Ht _] & Hk).
  by exists new.
Qed.

End TraceFacts.

Section Phrases.
Context `{Library}.
Variable args : Args.

Lemma phrase_of_Some k prompt :
  bkg_to_prompt !! k = Some prompt → phrase_of k = prompt.
Proof. unfold phrase_of. by intros ->. Qed.

Lemma outputs_phrases l pcs : (outputs l pcs).*2 = pcs.*1.
Proof.
  unfold outputs. rewrite fmap_imap.
  revert l. induction pcs as [|pc pcs IH]; intros l; [done|].
  cbn. f_equal. specialize (IH (locals_after l 1)).
  rewrite <- IH. apply imap_ext. intros i x _. done.
Qed.

Lemma repaint_category_phrases ip mp (item : string * list string) l w :
  post (repaint_category args ip mp item l w)
    (λ l' w', ∃ pcs cs, l' = locals_after l (length pcs)
        ∧ wrote args l w pcs cs w'
        ∧ pcs.*1 = replicate (length item.2 * batch args)
                     (phrase_of item.1))
    (λ _ _, True).
Proof.
  unfold repaint_category.
  eapply post_mono;
    [apply (for_each_post _
       (λ pre l' w', ∃ pcs cs, l' = locals_after l (length pcs)
          ∧ wrote args l w pcs cs w'
          ∧ pcs.*1 = replicate (length pre * batch args)
                       (phrase_of item.1))
       (λ _ _, True))| |].
  - intros pre bkg_file l1 w1 (pcs & cs & -> & Hw & Hp).
    eapply post_mono; [apply repaint_pair_spec| |done].
    intros l2 w2 (prompt & cs2 & Hk & -> & Hw2). cbv beta.
    exists (pcs ++ replicate (batch args) (prompt, CAPTION prompt))%list,
           (cs ++ cs2)%list.
    rewrite locals_after_add, !length_app, length_replicate.
    split; [done|]. split; [by apply (wrote_app _ _ _ _ _ w1)|].
    rewrite fmap_app, Hp, fmap_replicate, (phrase_of_Some _ _ Hk).
    cbn [fst]. by rewrite Nat.mul_add_distr_r, replicate_add, Nat.mul_1_l.
  - exists [], []. rewrite locals_after_0. split; [done|].
    split; [apply wrote_nil|done].
  - done.
  - done.
Qed.

Lemma repaint_sample_phrases (d : list (string * list string)) id w :
  post (repaint_sample args d id () w)
    (λ _ w', ∃ outs, logged args w outs w'
                     ∧ outs.*2 = sample_phrases args d)
    (λ _ _, True).
Proof.
  unfold repaint_sample. apply post_bind.
  eapply post_mono;
    [apply (for_each_post _
       (λ pre l' w', ∃ pcs cs,
          l' = locals_after {| img_id := id; cnt := 0 |} (length pcs)
          ∧ wrote args {| img_id := id; cnt := 0 |} w pcs cs w'
          ∧ pcs.*1 = sample_phrases args pre)
       (λ _ _, True))| |].
  - intros pre item l1 w1 (pcs & cs & -> & Hw & Hp).
    eapply post_mono; [apply repaint_category_phrases| |done].
    intros l2 w2 (pcs2 & cs2 & -> & Hw2 & Hp2). cbv beta.
    exists (pcs ++ pcs2)%list, (cs ++ cs2)%list.
    rewrite locals_after_add, !length_app.
    split; [done|]. split; [by apply (wrote_app _ _ _ _ _ w1)|].
    unfold sample_phrases in *. rewrite fmap_app, Hp, Hp2, bind_app.
    cbn [mbind list_bind]. by rewrite app_nil_r.
  - exists [], []. rewrite locals_after_0. split; [done|].
    split; [apply wrote_nil|done].
  - intros l' w' (pcs & cs & _ & Hw & Hp). apply post_ret.
    exists (outputs {| img_id := id; cnt := 0 |} pcs).
    split; [by eapply wrote_logged|]. by rewrite outputs_phrases.
  - done.
Qed.

Lemma repaint_all_phrases ids (d : list (string * list string)) w :
  post (repaint_all args ids d w)
    (λ _ w', ∃ outs, logged args w outs w'
        ∧ outs.*2 = mjoin (replicate (length ids) (sample_phrases args d)))
    (λ _ _, True).
Proof.
  unfold repaint_all.
  apply (for_each_post _
    (λ pre _ w', ∃ outs, logged args w outs w'
        ∧ outs.*2 = mjoin (replicate (length pre) (sample_phrases args d)))).
  - intros pre id [] w1 (outs & Hl & Hp).
    eapply post_mono; [apply repaint_sample_phrases| |done].
    intros ? w2 (outs2 & Hl2 & Hp2). cbv beta. exists (outs ++ outs2)%list.
    split; [by eapply logged_trans|].
    rewrite fmap_app, Hp, Hp2, length_app, replicate_add, join_app.
    cbn [length replicate mjoin list_join]. by rewrite app_nil_r.
  - exists []. split; [apply logged_refl|done].
Qed.

(** X26. After a complete run, the rows of the manifest carry, sample after
    sample, the phrase of each category of the catalog in catalog order,
    once per background file of the category and batch element: every
    scene is repainted under the phrase of its own directory name. *)
Theorem rows_follow_catalog (w : world _) w' ids d :
  main args w = (Ok (), w') →
  (list_image_ids args w).1 = Ok ids →
  (build_catalog args w).1 = Ok d →
  ∃ outs,
    manifest args w' = header_line :: (row args <$> outs)
    ∧ saved_paths w' = (saved_paths w ++ (saved_as args <$> outs))%list
    ∧ outs.*2 = mjoin (replicate (length ids) (sample_phrases args d)).
Proof.
  intros Hrun Hids Hd.
  destruct (start_manifest_spec args w) as (w1 & Hstart & Hman & Htr & _).
  destruct (main_stages args w (Ok ()) w' Hrun) as (w1' & Hstart' & Hst).
  rewrite Hstart in Hstart'. injection Hstart' as <-.
  rewrite Hids in Hst. destruct Hst as (w2 & _ & _ & Hf2 & Ht2 & Hst).
  rewrite Hd in Hst.
  pose proof (repaint_all_phrases ids d w2) as Hall. unfold post in Hall.
  rewrite Hst in Hall. cbn [fst snd] in Hall.
  destruct Hall as (outs & (Hs & Hm & _) & Hp).
  exists outs. split; [|split; [|exact Hp]].
  - rewrite Hm. unfold manifest in *. by rewrite Hf2, Hman.
  - rewrite Hs. unfold saved_paths. by rewrite Ht2, Htr.
Qed.

End Phrases.

(** * The properties above on the example runs *)

(** An outcome whose first component is known. *)
Lemma outcome_eq {A B} (p : A * B) (a : A) : p.1 = a → p = (a, p.2).
Proof. destruct p. simpl. by intros ->. Qed.


Lemma missing_mask_stops_pair_witness :
  @repaint_pair (Demo.library Cases.fs_no_mask) Demo.args0
    "fg/img_0001.png" "fg/mask_0001.png" "garden" "bkg/garden/a.png"
    {| img_id := "img_0001.png"; cnt := 0 |} (Demo.world0 Cases.fs_no_mask)
  = (Raise (FileNotFoundError "fg/mask_0001.png"), Demo.world0 Cases.fs_no_mask)
  ∧ text_files (Demo.world0 Cases.fs_no_mask)
    = text_files (Demo.world0 Cases.fs_no_mask)
  ∧ trace (Demo.world0 Cases.fs_no_mask) = trace (Demo.world0 Cases.fs_no_mask).
Proof.
  apply (missing_mask_stops_pair (H := Demo.library Cases.fs_no_mask) Demo.args0
           "fg/img_0001.png" "fg/mask_0001.png" "garden" "bkg/garden/a.png"
           {| img_id := "img_0001.png"; cnt := 0 |} (Demo.world0 Cases.fs_no_mask)
           Demo.scene1 (Demo.world0 Cases.fs_no_mask)).
  - vm_compute; reflexivity.
  - exists Demo.fg. reflexivity.
  - reflexivity.
Defined.

Lemma main_writes_manifest_only_witness :
  text_files Cases.run_stale.2 !! "notes.txt" = Some ["keep"]
  ∧ text_files Cases.run_stale.2 !! "notes.txt"
    = text_files Cases.world_stale !! "notes.txt".
Proof.
  split; [vm_compute; reflexivity|].
  apply (main_writes_manifest_only (H := Demo.library Demo.fs0) Demo.args0
           Cases.world_stale "notes.txt").
  vm_compute. discriminate.
Defined.

Lemma early_failure_leaves_header_witness :
  ∃ w', @main (Demo.library Cases.fs_no_source) Demo.args0
          (Demo.world0 Cases.fs_no_source)
        = (Raise (FileNotFoundError "fg"), w')
    ∧ manifest Demo.args0 w' = [header_line]
    ∧ trace w' = trace (Demo.world0 Cases.fs_no_source).
Proof.
  apply (early_failure_leaves_header (H := Demo.library Cases.fs_no_source)).
  left. vm_compute; reflexivity.
Defined.

Lemma nothing_to_repaint_witness :
  ∃ w', @main (Demo.library Cases.fs_no_samples) Demo.args0
          (Demo.world0 Cases.fs_no_samples) = (Ok (), w')
    ∧ manifest Demo.args0 w' = [header_line]
    ∧ trace w' = trace (Demo.world0 Cases.fs_no_samples).
Proof.
  apply (nothing_to_repaint (H := Demo.library Cases.fs_no_samples) Demo.args0
           (Demo.world0 Cases.fs_no_samples) [] Demo.catalog0).
  - vm_compute; reflexivity.
  - vm_compute; reflexivity.
  - by left.
Defined.

Lemma no_background_run_is_empty_witness :
  ∃ w', @main (Demo.library Demo.fs0) Cases.args_zero (Demo.world0 Demo.fs0)
        = (Ok (), w')
    ∧ manifest Cases.args_zero w' = [header_line]
    ∧ trace w' = trace (Demo.world0 Demo.fs0).
Proof.
  apply (no_background_run_is_empty (H := Demo.library Demo.fs0)).
  - exists ["img_0001.png"]. vm_compute; reflexivity.
  - left. reflexivity.
Defined.

Lemma run_pipeline_calls_witness :
  pipeline_calls Demo.run0.2 = 4%nat
  ∧ let total := (length ["img_0001.png"] * catalog_size Demo.catalog0
                  * calls_per_pair Demo.args0)%nat in
    (pipeline_calls (Demo.world0 Demo.fs0) ≤ pipeline_calls Demo.run0.2
     ≤ pipeline_calls (Demo.world0 Demo.fs0) + total)%nat
    ∧ (Demo.run0.1 = Ok () →
       pipeline_calls Demo.run0.2
       = (pipeline_calls (Demo.world0 Demo.fs0) + total)%nat).
Proof.
  split; [vm_compute; reflexivity|].
  apply (run_pipeline_calls (H := Demo.library Demo.fs0) Demo.args0
           (Demo.world0 Demo.fs0) Demo.run0.1 Demo.run0.2
           ["img_0001.png"] Demo.catalog0 (surjective_pairing Demo.run0)).
  - vm_compute; reflexivity.
  - vm_compute; reflexivity.
Defined.

Lemma manifest_mirrors_outputs_witness :
  length (manifest Demo.args0 Cases.run_stale.2) = 3%nat
  ∧ ∃ outs,
      manifest Demo.args0 Cases.run_stale.2
      = header_line :: (row Demo.args0 <$> outs)
      ∧ saved_paths Cases.run_stale.2
        = (saved_paths Cases.world_stale ++ (saved_as Demo.args0 <$> outs))%list
      ∧ Forall named_output outs.
Proof.
  split; [vm_compute; reflexivity|].
  exact (manifest_mirrors_outputs (H := Demo.library Demo.fs0) Demo.args0
           Cases.world_stale Cases.run_stale.1 Cases.run_stale.2
           (surjective_pairing Cases.run_stale)).
Defined.

Lemma outputs_under_dest_dir_witness :
  ∃ new, saved_paths Demo.run0.2
         = (saved_paths (Demo.world0 Demo.fs0) ++ new)%list
    ∧ Forall (λ p, Py.startswith p (dest_dir Demo.args0) = true) new.
Proof.
  exact (outputs_under_dest_dir (H := Demo.library Demo.fs0) Demo.args0
           (Demo.world0 Demo.fs0) Demo.run0.1 Demo.run0.2
           (surjective_pairing Demo.run0)).
Defined.


Lemma same_leaf_name_overwrites_witness :
  Cases.scan_again.1
  = Ok [("garden", ["bkg/more/garden/x.png"; "bkg/more/garden/y.png"])]
  ∧ [("garden", ["bkg/more/garden/x.png"; "bkg/more/garden/y.png"])].*1
    = Demo.catalog0.*1
  ∧ ∀ sel,
      (Path.stem "bkg/more/garden", sel)
        ∈ [("garden", ["bkg/more/garden/x.png"; "bkg/more/garden/y.png"])] →
      length sel = Z.to_nat (max_num_bkg_scenes Demo.args0)
      ∧ sel ⊆+ (Path.osp_join "bkg/more/garden"
                  <$> image_files ["x.png"; "y.png"; "z.txt"]).
Proof.
  split; [vm_compute; reflexivity|].
  apply (same_leaf_name_overwrites (H := Demo.library Demo.fs0) Demo.args0
           "bkg/more/garden" [] ["x.png"; "y.png"; "z.txt"] Demo.catalog0
           (Demo.world0 Demo.fs0) _ Cases.scan_again.2).
  - apply (bool_decide_unpack _). vm_compute. exact I.
  - apply (bool_decide_unpack _). vm_compute. exact I.
  - vm_compute. discriminate.
  - apply (outcome_eq Cases.scan_again
             (Ok [("garden", ["bkg/more/garden/x.png"; "bkg/more/garden/y.png"])])).
    vm_compute; reflexivity.
Defined.

Lemma repainting_draws_nothing_witness :
  rng Demo.run0.2 = rng Cases.build0.2.
Proof.
  apply (repainting_draws_nothing (H := Demo.library Demo.fs0) Demo.args0
           (Demo.world0 Demo.fs0)).
  - reflexivity.
  - exists ["img_0001.png"]. vm_compute; reflexivity.
Defined.


Lemma run_in_pair_blocks_witness :
  is_save <$> trace Demo.run0.2 = [false; false; true; false; false; true]
  ∧ ∃ new, trace Demo.run0.2 = (trace (Demo.world0 Demo.fs0) ++ new)%list
      ∧ is_save <$> new
        = concat (replicate (length ["img_0001.png"] * catalog_size Demo.catalog0)
                    (pair_block Demo.args0)).
Proof.
  split; [vm_compute; reflexivity|].
  apply (run_in_pair_blocks (H := Demo.library Demo.fs0) Demo.args0
           (Demo.world0 Demo.fs0) Demo.run0.2 ["img_0001.png"] Demo.catalog0).
  - apply (outcome_eq Demo.run0 (Ok ())). vm_compute; reflexivity.
  - vm_compute; reflexivity.
  - vm_compute; reflexivity.
Defined.

Lemma rows_follow_catalog_witness :
  sample_phrases Demo.args0 Demo.catalog0 = ["in a garden"; "in a garden"]
  ∧ ∃ outs,
      manifest Demo.args0 Demo.run0.2 = header_line :: (row Demo.args0 <$> outs)
      ∧ saved_paths Demo.run0.2
        = (saved_paths (Demo.world0 Demo.fs0) ++ (saved_as Demo.args0 <$> outs))%list
      ∧ outs.*2 = mjoin (replicate (length ["img_0001.png"])
                           (sample_phrases Demo.args0 Demo.catalog0)).
Proof.
  split; [vm_compute; reflexivity|].
  apply (rows_follow_catalog (H := Demo.library Demo.fs0) Demo.args0
           (Demo.world0 Demo.fs0) Demo.run0.2 ["img_0001.png"] Demo.catalog0).
  - apply (outcome_eq Demo.run0 (Ok ())). vm_compute; reflexivity.
  - vm_compute; reflexivity.
  - vm_compute; reflexivity.
Defined.
